(** * Forecast: the forecasting pipeline of the time-series tool

    A shallow embedding of the functions of [App.tsx] and of
    [models/timeSeriesModel.ts] that make up the forecasting pipeline
    (windowing, percentage error, date handling, the configuration sweep,
    test and future predictions), followed by the properties proved about
    them.

    Conventions of the embedding.
    - A JavaScript [number] that holds a measurement (a series value, an
      error, a prediction) is a binary64 [float]; the operations are the
      kernel's IEEE 754 primitives, so [NaN], the infinities and signed
      zeros behave as in the source.
    - A JavaScript [number] that holds an array index, a length, a counter
      or a calendar component is an integer of [Z]: such values stay far
      below 2^53 in this program, where binary64 arithmetic on integers is
      exact. The number of periods typed by the user is kept as the
      [number] it is.
    - An array is a [list]; [undefined] read from an array is [None].
    - Code that touches the numeric backend, the React state or the console
      runs in a state-and-exception monad over a [World]. *)

From Stdlib Require Import ZArith List Bool Lia String Ascii Floats DecimalString.
Import ListNotations.

Set Implicit Arguments.
Open Scope Z_scope.

(** ** The JavaScript runtime used by the program *)

Module JS.

(** *** Arrays *)

Definition length {A : Type} (l : list A) : Z := Z.of_nat (List.length l).

(** [a[i]]: [None] stands for [undefined]. *)
Definition index {A : Type} (l : list A) (i : Z) : option A :=
  if i <? 0 then None else nth_error l (Z.to_nat i).

(** A relative index of [Array.prototype.slice], clamped to [0, len]. *)
Definition clamp_index (len k : Z) : Z :=
  if k <? 0 then Z.max (len + k) 0 else Z.min k len.

(** [a.slice(start, end)]. *)
Definition slice {A : Type} (l : list A) (start fin : Z) : list A :=
  let len := length l in
  let k := clamp_index len start in
  let final := clamp_index len fin in
  firstn (Z.to_nat (final - k)) (skipn (Z.to_nat k) l).

(** [a.slice(start)]. *)
Definition slice_from {A : Type} (l : list A) (start : Z) : list A :=
  slice l start (length l).

(** [a.push(x)], as a new list. *)
Definition push {A : Type} (l : list A) (x : A) : list A := l ++ [x].

(** *** Counting loops

    [for (let i = lo; i < hi; i++) body] with a body that does not assign
    [i]: the body runs for [i = lo, lo+1, ..., hi-1], that is
    [max 0 (hi - lo)] times, threading the variables it assigns. *)

Fixpoint for_loop {S : Type} (n : nat) (i : Z) (body : Z -> S -> S) (s : S) : S :=
  match n with
  | O => s
  | Datatypes.S n' => for_loop n' (i + 1) body (body i s)
  end.

Definition for_range {S : Type} (lo hi : Z) (body : Z -> S -> S) (s : S) : S :=
  for_loop (Z.to_nat (hi - lo)) lo body s.

(** *** Numbers *)

Definition number := float.

Definition NaN : number := nan.
Definition Infinity : number := infinity.

(** An integer counter or length read as a [number]. *)
Definition of_int (z : Z) : number :=
  if z <? 0 then (- of_uint63 (Uint63.of_Z (- z)))%float
  else of_uint63 (Uint63.of_Z z).

(** [x !== y] and [x === y] on numbers. *)
Definition strict_eq (x y : number) : bool := (x =? y)%float.
Definition strict_neq (x y : number) : bool := negb (x =? y)%float.

Definition Math_abs (x : number) : number := abs x.

(** [Math.floor] of a finite number, as an integer (the program floors
    finite values only; the other cases are sent to 0). *)
Definition Math_floor (x : number) : Z :=
  match Prim2SF x with
  | S754_finite s m e =>
      let sm := if s then Z.neg m else Z.pos m in
      if 0 <=? e then sm * 2 ^ e else sm / 2 ^ (- e)
  | _ => 0
  end.

(** [Math.round] of a finite number, as an integer: the nearest integer,
    a half rounding up, computed on the exact value of [x]. *)
Definition Math_round (x : number) : Z :=
  match Prim2SF x with
  | S754_finite s m e =>
      let sm := if s then Z.neg m else Z.pos m in
      if 0 <=? e then sm * 2 ^ e
      else (2 * sm + 2 ^ (- e)) / (2 * 2 ^ (- e))
  | _ => 0
  end.

(** The limits of a counting loop whose bound [x] is a number that need
    not be an integer. [for (let i = 0; i < x; i++)] runs for the integers
    from 0 that are below [x], that is up to [limit_lt x], excluded, the
    least integer that is not below [x]; [for (let i = 1; i <= x; i++)]
    runs for the integers from 1 up to [limit_le x], the greatest integer
    that is not above [x]. [NaN] compares false with every number and ends
    the loop at once, as a bound that is not positive does. With the bound
    [Infinity] the loop does not end; the limits are then 0, and the
    properties that depend on them leave that bound out. *)
Definition limit_lt (x : number) : Z :=
  match Prim2SF x with
  | S754_finite s m e =>
      let sm := if s then Z.neg m else Z.pos m in
      if 0 <=? e then sm * 2 ^ e else - ((- sm) / 2 ^ (- e))
  | _ => 0
  end.

Definition limit_le (x : number) : Z :=
  match Prim2SF x with
  | S754_finite s m e =>
      let sm := if s then Z.neg m else Z.pos m in
      if 0 <=? e then sm * 2 ^ e else sm / 2 ^ (- e)
  | _ => 0
  end.

(** *** Strings

    Strings are sequences of characters of the Latin-1 range. *)

Definition char_code (c : ascii) : Z := Z.of_nat (nat_of_ascii c).

(** The separators of the regular expression [/[-/]/]. *)
Definition is_separator (c : ascii) : bool :=
  (char_code c =? 45) || (char_code c =? 47).

(** [s.split(/[-/]/)]: a new part starts after every separator, so the
    result always has one part more than [s] has separators. *)
Fixpoint split_from (s : string) (cur : string) : list string :=
  match s with
  | EmptyString => [cur]
  | String c rest =>
      if is_separator c then cur :: split_from rest EmptyString
      else split_from rest (cur ++ String c EmptyString)
  end.

Definition split_separators (s : string) : list string :=
  split_from s EmptyString.

(** White space skipped by [parseInt]: TAB, LF, VT, FF, CR, SP and NBSP. *)
Definition is_white_space (c : ascii) : bool :=
  let n := char_code c in
  ((9 <=? n) && (n <=? 13)) || (n =? 32) || (n =? 160).

Fixpoint trim_start (s : string) : string :=
  match s with
  | String c rest => if is_white_space c then trim_start rest else s
  | EmptyString => s
  end.

Definition digit_of (c : ascii) : option Z :=
  let n := char_code c in
  if (48 <=? n) && (n <=? 57) then Some (n - 48) else None.

(** The value of the longest prefix of decimal digits; [acc] is [None]
    until a first digit has been read. *)
Fixpoint digits_prefix (s : string) (acc : option Z) : option Z :=
  match s with
  | String c rest =>
      match digit_of c with
      | Some d =>
          digits_prefix rest
            (Some (10 * match acc with Some a => a | None => 0 end + d))
      | None => acc
      end
  | EmptyString => acc
  end.

(** [parseInt(s, 10)]; [None] is [NaN]. With an explicit radix of 10 no
    prefix such as [0x] is recognised. *)
Definition parseInt10 (s : string) : option Z :=
  match trim_start s with
  | String c rest =>
      if char_code c =? 45 then option_map Z.opp (digits_prefix rest None)
      else if char_code c =? 43 then digits_prefix rest None
      else digits_prefix (String c rest) None
  | EmptyString => None
  end.

(** [String(n)] of an integer-valued number or of [NaN]. *)
Definition string_of_int (z : Z) : string :=
  NilZero.string_of_int (Z.to_int z).

Definition String_of (n : option Z) : string :=
  match n with
  | Some z => string_of_int z
  | None => "NaN"
  end.

Fixpoint repeat_char (c : ascii) (n : nat) : string :=
  match n with
  | O => EmptyString
  | Datatypes.S n' => String c (repeat_char c n')
  end.

(** [s.padStart(n, c)] with a one-character filler. *)
Definition padStart (s : string) (n : nat) (c : ascii) : string :=
  (repeat_char c (n - String.length s) ++ s)%string.

(** *** Dates

    A [Date] holds a time value, milliseconds since the epoch in UTC, or
    [NaN] ([None]). Local time is UTC shifted by [tza] milliseconds, the
    offset of the host's time zone. *)

Definition Date := option Z.

Definition msPerDay : Z := 86400000.

(** The day number of the first day of month [m] (0 to 11) of year [y]. *)
Definition day_of_month_start (y m : Z) : Z :=
  let y' := if m <? 2 then y - 1 else y in
  let era := y' / 400 in
  let yoe := y' - era * 400 in
  let mp := if m <? 2 then m + 10 else m - 2 in
  let doy := (153 * mp + 2) / 5 in
  era * 146097 + (yoe * 365 + yoe / 4 - yoe / 100 + doy) - 719468.

(** The (year, month 0 to 11, day of month) of a day number. *)
Definition civil_of_day (z : Z) : Z * Z * Z :=
  let z' := z + 719468 in
  let era := z' / 146097 in
  let doe := z' - era * 146097 in
  let yoe := (doe - doe / 1460 + doe / 36524 - doe / 146096) / 365 in
  let doy := doe - (365 * yoe + yoe / 4 - yoe / 100) in
  let mp := (5 * doy + 2) / 153 in
  let d := doy - (153 * mp + 2) / 5 + 1 in
  let m := if mp <? 10 then mp + 2 else mp - 10 in
  (if m <? 2 then yoe + era * 400 + 1 else yoe + era * 400, m, d).

(** [MakeDay(year, month, date)]: months outside 0 to 11 carry into the
    year, and the day of the month is added as an offset, whatever its
    size. *)
Definition MakeDay (year month date : Z) : Z :=
  let ym := year + month / 12 in
  let mn := month mod 12 in
  day_of_month_start ym mn + date - 1.

Definition TimeClip (t : Z) : Date :=
  if 8640000000000000 <? Z.abs t then None else Some t.

(** Years 0 to 99 given to the constructor mean 1900 to 1999. *)
Definition MakeFullYear (y : Z) : Z :=
  if (0 <=? y) && (y <=? 99) then 1900 + y else y.

(** [new Date(year, monthIndex, day)], at local midnight. *)
Definition Date_of_fields (tza : Z) (year month date : option Z) : Date :=
  match year, month, date with
  | Some y, Some m, Some d =>
      TimeClip (MakeDay (MakeFullYear y) m d * msPerDay - tza)
  | _, _, _ => None
  end.

(** [new Date(NaN)] and [new Date(t)]. *)
Definition Date_invalid : Date := None.

Definition Date_of_time (t : option Z) : Date :=
  match t with
  | Some v => TimeClip v
  | None => None
  end.

Definition getTime (d : Date) : option Z := d.

Definition local_civil (tza : Z) (t : Z) : Z * Z * Z :=
  civil_of_day ((t + tza) / msPerDay).

Definition getFullYear (tza : Z) (d : Date) : option Z :=
  option_map (fun t => fst (fst (local_civil tza t))) d.

Definition getMonth (tza : Z) (d : Date) : option Z :=
  option_map (fun t => snd (fst (local_civil tza t))) d.

Definition getDate (tza : Z) (d : Date) : option Z :=
  option_map (fun t => snd (local_civil tza t)) d.

(** [d.setDate(dt)]: the day of the month is replaced, the time within the
    day is kept. *)
Definition setDate (tza : Z) (d : Date) (dt : option Z) : Date :=
  match d, dt with
  | Some t, Some n =>
      let lt := t + tza in
      let '(y, m, _) := civil_of_day (lt / msPerDay) in
      TimeClip (MakeDay y m n * msPerDay + lt mod msPerDay - tza)
  | _, _ => None
  end.

(** Sum of two numbers that are integers or [NaN]. *)
Definition add_int (a b : option Z) : option Z :=
  match a, b with
  | Some x, Some y => Some (x + y)
  | _, _ => None
  end.

(** *** Strings: trimming, splitting on a string, searching *)

(** [s.trimEnd()], with the white space of [is_white_space], which holds
    the line terminators of the Latin-1 range. *)
Fixpoint trim_end (s : string) : string :=
  match s with
  | EmptyString => EmptyString
  | String c rest =>
      match trim_end rest with
      | EmptyString =>
          if is_white_space c then EmptyString else String c EmptyString
      | kept => String c kept
      end
  end.

(** [s.trim()]. *)
Definition trim (s : string) : string := trim_end (trim_start s).

(** The scan of [s.split(sep)] for a separator that is not empty: [cur] is
    the part being read, [skip] the number of characters of a separator
    just matched that are still to be passed over. *)
Fixpoint split_scan (sep : string) (s : string) (cur : string) (skip : nat)
  : list string :=
  match s with
  | EmptyString => [cur]
  | String c rest =>
      match skip with
      | Datatypes.S k => split_scan sep rest cur k
      | O =>
          if String.prefix sep s
          then cur :: split_scan sep rest EmptyString (String.length sep - 1)
          else split_scan sep rest (cur ++ String c EmptyString) O
      end
  end.

(** [s.split(sep)] for a string [sep]: with the empty separator the parts
    are the characters, and the empty string has no part. *)
Definition split (s sep : string) : list string :=
  match sep with
  | EmptyString => map (fun c => String c EmptyString) (list_ascii_of_string s)
  | _ => split_scan sep s EmptyString O
  end.

(** [a.indexOf(x)] on an array of strings: the first position of [x], or
    -1. *)
Fixpoint indexOf_from (a : list string) (x : string) (i : Z) : Z :=
  match a with
  | [] => -1
  | y :: rest => if String.eqb y x then i else indexOf_from rest x (i + 1)
  end.

Definition indexOf (a : list string) (x : string) : Z := indexOf_from a x 0.

End JS.


(** ** The host: what the program gets from its environment

    Training is stochastic and the clock, the time zone and the parsing of
    free-form date strings belong to the engine; they enter the model as
    the fields of a [Host], over which every theorem quantifies. *)

Definition ModelId := nat.

(** A tensor: its shape and its values, row-major. *)
Record Tensor := {
  shape : list Z;
  values : list JS.number
}.

Record Host := {
  (** offset of local time from UTC, in milliseconds *)
  LocalTZA : Z;
  (** [Date.parse], [None] for [NaN] *)
  Date_parse : string -> option Z;
  (** the k-th reading of [performance.now()] *)
  performance_now : nat -> JS.number;
  (** forward pass of the k-th model built, before any training; the
      arguments are the window length and the number of LSTM units *)
  initial_net : ModelId -> Z -> Z -> list JS.number -> JS.number;
  (** forward pass of the k-th model built, after [fit] on the inputs and
      the labels for the given number of epochs *)
  trained_net :
    ModelId -> Z -> Z -> Tensor -> Tensor -> Z -> list JS.number -> JS.number
}.

(** ** The React state of [App] and the world the handlers run in *)

(** [interface TimeSeriesData]. *)
Record TimeSeriesData := {
  date : string;
  value : JS.number
}.

(** The state variables of [App] that training reads or writes.
    [futurePeriods] holds [Number(e.target.value)] of a number input: a
    number, not always an integer. *)
Record AppState := {
  data : list TimeSeriesData;
  error : option string;
  isTraining : bool;
  progress : Z;
  timeLeft : option JS.number;
  testPredictions : list JS.number;
  testMape : option JS.number;
  futurePeriods : JS.number;
  futurePredictions : list JS.number;
  futureDates : list string
}.

(** A [tf.LayersModel]: an LSTM layer over windows of [inputLength] values
    followed by a dense unit. *)
Record LayersModel := {
  inputLength : Z;
  units : Z;
  net : list JS.number -> JS.number;
  isDisposed : bool
}.

(** What happens to models, in order. *)
Inductive Event :=
| Created (m : ModelId)
| Disposed (m : ModelId).

Record World := {
  app : AppState;
  (** every model built so far; a [ModelId] is a position in this list *)
  models : list LayersModel;
  events : list Event;
  (** number of clock readings taken *)
  clock : nat;
  console : list string
}.

(** ** Computations: state and exceptions *)

Inductive Completion (A : Type) :=
| Normal (a : A)
| Throw (msg : string).

Arguments Normal {A} a.
Arguments Throw {A} msg.

Definition M (A : Type) := World -> Completion A * World.

Definition ret {A : Type} (a : A) : M A := fun w => (Normal a, w).

Definition bind {A B : Type} (c : M A) (k : A -> M B) : M B :=
  fun w =>
    match c w with
    | (Normal a, w') => k a w'
    | (Throw msg, w') => (Throw msg, w')
    end.

Definition throw {A : Type} (msg : string) : M A := fun w => (Throw msg, w).

Declare Scope monad_scope.
Delimit Scope monad_scope with monad.
Notation "x <- c1 ;; c2" := (bind c1 (fun x => c2))
  (at level 61, c1 at next level, right associativity) : monad_scope.
Notation "' pat <- c1 ;; c2" := (bind c1 (fun x => match x with pat => c2 end))
  (at level 61, pat pattern, c1 at next level, right associativity) : monad_scope.
Notation "c1 ;; c2" := (bind c1 (fun _ => c2))
  (at level 61, right associativity) : monad_scope.
Open Scope monad_scope.

(** [for (let i = lo; i < hi; i++)] with an effectful body. *)
Fixpoint for_loopM {S : Type} (n : nat) (i : Z) (body : Z -> S -> M S) (s : S) : M S :=
  match n with
  | O => ret s
  | Datatypes.S n' => s' <- body i s ;; for_loopM n' (i + 1) body s'
  end.

Definition for_rangeM {S : Type} (lo hi : Z) (body : Z -> S -> M S) (s : S) : M S :=
  for_loopM (Z.to_nat (hi - lo)) lo body s.

(** [for (const x of l)] with an effectful body. *)
Fixpoint for_of {A S : Type} (l : list A) (body : A -> S -> M S) (s : S) : M S :=
  match l with
  | [] => ret s
  | x :: rest => s' <- body x s ;; for_of rest body s'
  end.

Definition get_app : M AppState := fun w => (Normal (app w), w).

Definition modify_app (f : AppState -> AppState) : M unit :=
  fun w =>
    (Normal tt,
     {| app := f (app w); models := models w; events := events w;
        clock := clock w; console := console w |}).

Definition console_warn (msg : string) : M unit :=
  fun w =>
    (Normal tt,
     {| app := app w; models := models w; events := events w;
        clock := clock w; console := console w ++ [msg] |}).

(** [performance.now()]. *)
Definition now (H : Host) : M JS.number :=
  fun w =>
    (Normal (performance_now H (clock w)),
     {| app := app w; models := models w; events := events w;
        clock := Datatypes.S (clock w); console := console w |}).

(** ** The numeric backend ([@tensorflow/tfjs]) *)

Module tf.

Definition set_models (ms : list LayersModel) (evs : list Event) : M unit :=
  fun w =>
    (Normal tt,
     {| app := app w; models := ms; events := evs;
        clock := clock w; console := console w |}).

Definition get_world : M World := fun w => (Normal w, w).

(** [tf.tensor3d(values, [a, b, c])] of a nested array. The depth of the
    nesting is read off the first elements. An empty array counts as a
    flat array without values: it fits a shape of size 0 whose dimensions
    are not negative. A first row without cells shows two levels only and
    is refused. Otherwise an error unless the array has [a] rows of [b]
    cells of [c] values. *)
Definition tensor3d (vals : list (list (list JS.number))) (a b c : Z) : M Tensor :=
  match vals with
  | [] =>
      if (0 <=? a) && (0 <=? b) && (0 <=? c) && (a * b * c =? 0)
      then ret {| shape := [a; b; c]; values := [] |}
      else throw "tensor3d: the values do not match the shape"
  | [] :: _ =>
      throw "tensor3d() requires values to be number[][][] or flat/TypedArray"
  | (_ :: _) :: _ =>
      if (JS.length vals =? a)
         && forallb (fun row =>
                       (JS.length row =? b)
                       && forallb (fun cell => JS.length cell =? c) row) vals
      then ret {| shape := [a; b; c]; values := List.concat (List.concat vals) |}
      else throw "tensor3d: the values do not match the shape"
  end.

Fixpoint all_defined (l : list (option JS.number)) : option (list JS.number) :=
  match l with
  | [] => Some []
  | Some v :: rest => option_map (cons v) (all_defined rest)
  | None :: _ => None
  end.

(** [tf.tensor2d(values, [a, b])] of a flat array. *)
Definition tensor2d (vals : list (option JS.number)) (a b : Z) : M Tensor :=
  match all_defined vals with
  | Some vs =>
      if JS.length vs =? a * b
      then ret {| shape := [a; b]; values := vs |}
      else throw "tensor2d: the values do not match the shape"
  | None => throw "tensor2d: undefined value"
  end.

(** [tf.sequential()] followed by [add(tf.layers.lstm({units,
    returnSequences: false, inputShape: [windowSize, 1]}))],
    [add(tf.layers.dense({units: 1}))] and [compile({optimizer: 'adam',
    loss: 'meanSquaredError'})]. *)
Definition sequential_lstm_dense (H : Host) (lstmUnits windowSize : Z) : M ModelId :=
  w <- get_world ;;
  let id := List.length (models w) in
  set_models
    (models w ++ [{| inputLength := windowSize; units := lstmUnits;
                     net := initial_net H id windowSize lstmUnits;
                     isDisposed := false |}])
    (events w ++ [Created id]) ;;
  ret id.

Definition lookup (id : ModelId) : M LayersModel :=
  w <- get_world ;;
  match nth_error (models w) id with
  | Some m =>
      if isDisposed m then throw "the model is already disposed" else ret m
  | None => throw "no such model"
  end.

Fixpoint replace {A : Type} (l : list A) (n : nat) (x : A) : list A :=
  match l, n with
  | [], _ => []
  | _ :: rest, O => x :: rest
  | y :: rest, Datatypes.S n' => y :: replace rest n' x
  end.

(** [await model.fit(x, y, {epochs})]. *)
Definition fit (H : Host) (id : ModelId) (x y : Tensor) (epochs : Z) : M unit :=
  m <- lookup id ;;
  match shape x with
  | [_; b; 1] =>
      if b =? inputLength m then
        w <- get_world ;;
        set_models
          (replace (models w) id
             {| inputLength := inputLength m; units := units m;
                net := trained_net H id (inputLength m) (units m) x y epochs;
                isDisposed := false |})
          (events w)
      else throw "fit: the input does not match the input shape of the model"
  | _ => throw "fit: the input does not match the input shape of the model"
  end.

(** [model.predict(x) as tf.Tensor], for an input holding one window. *)
Definition predict (id : ModelId) (x : Tensor) : M Tensor :=
  m <- lookup id ;;
  match shape x with
  | [1; b; 1] =>
      if b =? inputLength m
      then ret {| shape := [1; 1]; values := [net m (values x)] |}
      else throw "predict: the input does not match the input shape of the model"
  | _ => throw "predict: the input does not match the input shape of the model"
  end.

(** [const [val] = pred.dataSync()]: the first value of the tensor. *)
Definition dataSync_first (t : Tensor) : JS.number :=
  match values t with
  | v :: _ => v
  | [] => JS.NaN
  end.

(** [model.dispose()]. *)
Definition dispose (id : ModelId) : M unit :=
  m <- lookup id ;;
  w <- get_world ;;
  set_models
    (replace (models w) id
       {| inputLength := inputLength m; units := units m; net := net m;
          isDisposed := true |})
    (events w ++ [Disposed id]).

End tf.

(** ** [App.tsx] *)

Module App.

(** [a[i]] used as a number: [undefined] behaves as [NaN] in arithmetic
    and in [!== 0]. *)
Definition num_at (l : list JS.number) (i : Z) : JS.number :=
  match JS.index l i with
  | Some x => x
  | None => JS.NaN
  end.

(** [createSequences(values, windowSize)], returning [{ X, Y }]. *)
Definition createSequences (vals : list JS.number) (windowSize : Z)
  : list (list JS.number) * list (option JS.number) :=
  JS.for_range 0 (JS.length vals - windowSize)
    (fun i '(X, Y) =>
       (JS.push X (JS.slice vals i (i + windowSize)),
        JS.push Y (JS.index vals (i + windowSize))))
    ([], []).

(** [computeMape(actual, predicted)]. *)
Definition computeMape (actual predicted : list JS.number) : JS.number :=
  if negb (JS.length actual =? JS.length predicted) || (JS.length actual =? 0)
  then JS.NaN
  else
    let '(sum, count) :=
      JS.for_range 0 (JS.length actual)
        (fun i '(sum, count) =>
           if JS.strict_neq (num_at actual i) 0%float
           then ((sum + JS.Math_abs ((num_at actual i - num_at predicted i)
                                     / num_at actual i))%float,
                 count + 1)
           else (sum, count))
        (0%float, 0) in
    if count =? 0 then JS.NaN
    else (sum / JS.of_int count * 100)%float.

(** [toISODate(d)]. *)
Definition toISODate (tza : Z) (d : JS.Date) : string :=
  let y := JS.getFullYear tza d in
  let m := JS.padStart (JS.String_of (JS.add_int (JS.getMonth tza d) (Some 1))) 2 "0" in
  let day := JS.padStart (JS.String_of (JS.getDate tza d)) 2 "0" in
  (JS.String_of y ++ "-" ++ m ++ "-" ++ day)%string.

(** [generateFutureDates(lastDateStr, periods)]. *)
Definition generateFutureDates (H : Host) (lastDateStr : string) (periods : Z)
  : list string :=
  let lastDate := JS.Date_of_time (Date_parse H lastDateStr) in
  match JS.getTime lastDate with
  | None =>
      JS.for_range 1 (periods + 1)
        (fun i dates => JS.push dates ("Futuro +" ++ JS.string_of_int i)%string)
        []
  | Some _ =>
      JS.for_range 1 (periods + 1)
        (fun i dates =>
           let next := JS.Date_of_time (JS.getTime lastDate) in
           let next :=
             JS.setDate (LocalTZA H) next
               (JS.add_int (JS.getDate (LocalTZA H) next) (Some i)) in
           JS.push dates (toISODate (LocalTZA H) next))
        []
  end.

(** [parseInt(parts[k], 10)]; an [undefined] part gives [NaN]. *)
Definition parseInt_part (parts : list string) (k : Z) : option Z :=
  match JS.index parts k with
  | Some s => JS.parseInt10 s
  | None => None
  end.

(** [parseDateFromFormat(dateStr, dateFormat)]. *)
Definition parseDateFromFormat (tza : Z) (dateStr dateFormat : string) : JS.Date :=
  let parts := JS.split_separators dateStr in
  if JS.length parts <? 3 then JS.Date_invalid
  else if String.eqb dateFormat "Y/M/D" then
    let year := parseInt_part parts 0 in
    let month := parseInt_part parts 1 in
    let day := parseInt_part parts 2 in
    JS.Date_of_fields tza year (JS.add_int month (Some (-1))) day
  else if String.eqb dateFormat "D/M/Y" then
    let day := parseInt_part parts 0 in
    let month := parseInt_part parts 1 in
    let year := parseInt_part parts 2 in
    JS.Date_of_fields tza year (JS.add_int month (Some (-1))) day
  else if String.eqb dateFormat "M/D/Y" then
    let month := parseInt_part parts 0 in
    let day := parseInt_part parts 1 in
    let year := parseInt_part parts 2 in
    JS.Date_of_fields tza year (JS.add_int month (Some (-1))) day
  else JS.Date_invalid.

(** *** The state setters *)

Definition setError (e : option string) : M unit :=
  modify_app (fun s =>
    {| data := data s; error := e; isTraining := isTraining s;
       progress := progress s; timeLeft := timeLeft s;
       testPredictions := testPredictions s; testMape := testMape s;
       futurePeriods := futurePeriods s;
       futurePredictions := futurePredictions s;
       futureDates := futureDates s |}).

Definition setIsTraining (b : bool) : M unit :=
  modify_app (fun s =>
    {| data := data s; error := error s; isTraining := b;
       progress := progress s; timeLeft := timeLeft s;
       testPredictions := testPredictions s; testMape := testMape s;
       futurePeriods := futurePeriods s;
       futurePredictions := futurePredictions s;
       futureDates := futureDates s |}).

Definition setProgress (p : Z) : M unit :=
  modify_app (fun s =>
    {| data := data s; error := error s; isTraining := isTraining s;
       progress := p; timeLeft := timeLeft s;
       testPredictions := testPredictions s; testMape := testMape s;
       futurePeriods := futurePeriods s;
       futurePredictions := futurePredictions s;
       futureDates := futureDates s |}).

Definition setTimeLeft (t : option JS.number) : M unit :=
  modify_app (fun s =>
    {| data := data s; error := error s; isTraining := isTraining s;
       progress := progress s; timeLeft := t;
       testPredictions := testPredictions s; testMape := testMape s;
       futurePeriods := futurePeriods s;
       futurePredictions := futurePredictions s;
       futureDates := futureDates s |}).

Definition setTestPredictions (l : list JS.number) : M unit :=
  modify_app (fun s =>
    {| data := data s; error := error s; isTraining := isTraining s;
       progress := progress s; timeLeft := timeLeft s;
       testPredictions := l; testMape := testMape s;
       futurePeriods := futurePeriods s;
       futurePredictions := futurePredictions s;
       futureDates := futureDates s |}).

Definition setTestMape (m : option JS.number) : M unit :=
  modify_app (fun s =>
    {| data := data s; error := error s; isTraining := isTraining s;
       progress := progress s; timeLeft := timeLeft s;
       testPredictions := testPredictions s; testMape := m;
       futurePeriods := futurePeriods s;
       futurePredictions := futurePredictions s;
       futureDates := futureDates s |}).

Definition setFuturePredictions (l : list JS.number) : M unit :=
  modify_app (fun s =>
    {| data := data s; error := error s; isTraining := isTraining s;
       progress := progress s; timeLeft := timeLeft s;
       testPredictions := testPredictions s; testMape := testMape s;
       futurePeriods := futurePeriods s;
       futurePredictions := l;
       futureDates := futureDates s |}).

Definition setFutureDates (l : list string) : M unit :=
  modify_app (fun s =>
    {| data := data s; error := error s; isTraining := isTraining s;
       progress := progress s; timeLeft := timeLeft s;
       testPredictions := testPredictions s; testMape := testMape s;
       futurePeriods := futurePeriods s;
       futurePredictions := futurePredictions s;
       futureDates := l |}).

(** *** Training and evaluating one configuration *)

(** One prediction of [model] from one window: the window becomes a
    tensor of shape [1, windowSize, 1], and the first value of the
    predicted tensor is read back. *)
Definition predictWindow (model : ModelId) (window : list JS.number)
  (windowSize : Z) : M JS.number :=
  x <- tf.tensor3d [map (fun v => [v]) window] 1 windowSize 1 ;;
  pred <- tf.predict model x ;;
  ret (tf.dataSync_first pred).

(** The loop over the test split, written twice in the source with
    different names (in [trainAndEvaluate] and after the sweep in
    [handleTrain]): for [i] from [windowSize] to the end, predict from
    [testValues.slice(i - windowSize, i)]. *)
Definition predictOnTest (model : ModelId) (testValues : list JS.number)
  (windowSize : Z) : M (list JS.number) :=
  for_rangeM windowSize (JS.length testValues)
    (fun i predicted =>
       let window := JS.slice testValues (i - windowSize) i in
       val <- predictWindow model window windowSize ;;
       ret (JS.push predicted val))
    [].

(** [trainAndEvaluate(trainData, testData, windowSize, lstmUnits, epochs)],
    returning [{ model, mape }]. *)
Definition trainAndEvaluate (H : Host) (trainData testData : list TimeSeriesData)
  (windowSize lstmUnits epochs : Z) : M (ModelId * JS.number) :=
  let trainValues := map value trainData in
  let '(X, Y) := createSequences trainValues windowSize in
  let X3D := map (fun seq => map (fun val => [val]) seq) X in
  tensorX <- tf.tensor3d X3D (JS.length X3D) windowSize 1 ;;
  tensorY <- tf.tensor2d Y (JS.length Y) 1 ;;
  model <- tf.sequential_lstm_dense H lstmUnits windowSize ;;
  tf.fit H model tensorX tensorY epochs ;;
  let testValues := map value testData in
  predicted <- predictOnTest model testValues windowSize ;;
  let actual := JS.slice_from testValues windowSize in
  let mape := computeMape actual predicted in
  ret (model, mape).

(** *** The sweep over the configurations *)

(** The variables the sweep assigns. *)
Record SweepVars := {
  bestMape : JS.number;
  bestModel : option ModelId;
  bestWindowSize : Z;
  combosProcessed : Z
}.

(** The comparison of a candidate with the best so far: the [if] of the
    loop body. *)
Definition keepBest (w : Z) (model : ModelId) (mape : JS.number) (v : SweepVars)
  : M SweepVars :=
  if (mape <? bestMape v)%float then
    match bestModel v with
    | Some best => tf.dispose best
    | None => ret tt
    end ;;
    ret {| bestMape := mape; bestModel := Some model; bestWindowSize := w;
           combosProcessed := combosProcessed v |}
  else
    tf.dispose model ;;
    ret v.

(** The body of the inner loop, for window size [w] and [u] units. *)
Definition sweepBody (H : Host) (trainData testData : list TimeSeriesData)
  (totalCombos : Z) (startTime : JS.number) (w u : Z) (v : SweepVars)
  : M SweepVars :=
  ' (model, mape) <- trainAndEvaluate H trainData testData w u 1000 ;;
  v <- keepBest w model mape v ;;
  let combosProcessed := combosProcessed v + 1 in
  let fraction := (JS.of_int combosProcessed / JS.of_int totalCombos)%float in
  setProgress (JS.Math_round (fraction * 100)%float) ;;
  t <- now H ;;
  let elapsed := (t - startTime)%float in
  let avgPerCombo := (elapsed / JS.of_int combosProcessed)%float in
  let combosLeft := totalCombos - combosProcessed in
  let estRemaining := (avgPerCombo * JS.of_int combosLeft)%float in
  setTimeLeft (Some (estRemaining / 1000)%float) ;;
  ret {| bestMape := bestMape v; bestModel := bestModel v;
         bestWindowSize := bestWindowSize v;
         combosProcessed := combosProcessed |}.

Definition sweep (H : Host) (trainData testData : list TimeSeriesData)
  (windowSizes lstmUnitsArray : list Z) (startTime : JS.number)
  : M SweepVars :=
  let totalCombos := JS.length windowSizes * JS.length lstmUnitsArray in
  for_of windowSizes
    (fun w v =>
       for_of lstmUnitsArray
         (fun u v => sweepBody H trainData testData totalCombos startTime w u v)
         v)
    {| bestMape := JS.Infinity; bestModel := None; bestWindowSize := 3;
       combosProcessed := 0 |}.

(** The loop of the future forecasts: the variables are [currentWindow]
    and [futureForecasts]. *)
Definition forecastFuture (model : ModelId) (fullValues : list JS.number)
  (windowSize periods : Z) : M (list JS.number * list JS.number) :=
  for_rangeM 0 periods
    (fun i '(currentWindow, futureForecasts) =>
       val <- predictWindow model currentWindow windowSize ;;
       ret (JS.slice_from currentWindow 1 ++ [val],
            JS.push futureForecasts val))
    (JS.slice_from fullValues (- windowSize), []).

(** The message ['No se pudo entrenar ningun modelo.'], whose [u] carries
    an acute accent (character 250). *)
Definition noModelMessage : string :=
  ("No se pudo entrenar ning" ++ String (ascii_of_nat 250) "n modelo.")%string.

(** [handleTrain()]. The loop of the forecasts, [i < futurePeriods] from 0,
    and the loop of the dates, [i <= periods] from 1, run up to the limits
    of the number [futurePeriods]. *)
Definition handleTrain (H : Host) : M unit :=
  s <- get_app ;;
  let data := data s in
  let futurePeriods := futurePeriods s in
  if JS.length data <? 20 then
    setError (Some "Se necesitan al menos 20 datos para entrenar."%string)
  else
    setError None ;;
    setIsTraining true ;;
    setProgress 0 ;;
    setTimeLeft None ;;
    setTestPredictions [] ;;
    setTestMape None ;;
    setFuturePredictions [] ;;
    setFutureDates [] ;;
    let splitIndex :=
      JS.Math_floor (JS.of_int (JS.length data) * 0x1.999999999999ap-1)%float in
    let trainData := JS.slice data 0 splitIndex in
    let testData := JS.slice_from data splitIndex in
    startTime <- now H ;;
    v <- sweep H trainData testData [3; 5] [32; 64] startTime ;;
    match bestModel v with
    | None =>
        setError (Some noModelMessage) ;;
        setIsTraining false
    | Some bestModel =>
        let bestWindowSize := bestWindowSize v in
        let testValues := map value testData in
        predictionsOnTest <- predictOnTest bestModel testValues bestWindowSize ;;
        let actualTest := JS.slice_from testValues bestWindowSize in
        let finalMape := computeMape actualTest predictionsOnTest in
        setTestMape (Some finalMape) ;;
        setTestPredictions predictionsOnTest ;;
        let fullValues := map value data in
        ' (_, futureForecasts) <-
          forecastFuture bestModel fullValues bestWindowSize
            (JS.limit_lt futurePeriods) ;;
        setFuturePredictions futureForecasts ;;
        match JS.index data (JS.length data - 1) with
        | None => throw "TypeError: cannot read properties of undefined"
        | Some last =>
            let lastDate := date last in
            let futureDts :=
              generateFutureDates H lastDate (JS.limit_le futurePeriods) in
            setFutureDates futureDts ;;
            setIsTraining false
        end
    end.

(** *** Reading the file *)

(** The character LF. *)
Definition newline : string := String (ascii_of_nat 10) EmptyString.

(** What [parseCSV] computes from the text of the file: the lines, trimmed,
    those that are empty left out, each split on the delimiter into
    trimmed fields. *)
Definition parseCSV_rows (text delimiter : string) : list (list string) :=
  map (fun r => map JS.trim (JS.split r delimiter))
      (filter (fun r => 0 <? Z.of_nat (String.length r))
              (map JS.trim (JS.split text newline))).

(** A file as [parseCSV] sees it: the reader gives its text, or fails. *)
Inductive File :=
| Readable (text : string)
| Unreadable.

(** [parseCSV(file, delimiter)]: the promise resolves with the rows or is
    rejected with the event of the reader, which carries no message. *)
Definition parseCSV (file : File) (delimiter : string)
  : option (list (list string)) :=
  match file with
  | Readable text => Some (parseCSV_rows text delimiter)
  | Unreadable => None
  end.

(** *** The data of the charts *)

(** A point of the chart of the test split: [predicted] is [null] ([None])
    or what was read from [testPredictions], a number or [undefined]. *)
Record TestChartPoint := {
  chartDate : string;
  real : JS.number;
  predicted : option (option JS.number)
}.

(** [testChartData], computed at each rendering from [data] and
    [testPredictions]. In the loop [i] is below the length of [testArray],
    so [testArray[i]] is defined. *)
Definition testChartData (s : AppState) : list TestChartPoint :=
  if (0 <? JS.length (data s)) && (0 <? JS.length (testPredictions s)) then
    let splitIndex :=
      JS.Math_floor (JS.of_int (JS.length (data s)) * 0x1.999999999999ap-1)%float in
    let testArray := JS.slice_from (data s) splitIndex in
    let bestWindowSize := JS.length testArray - JS.length (testPredictions s) in
    JS.for_range 0 (JS.length testArray)
      (fun i testChartData =>
         match JS.index testArray i with
         | Some d =>
             if i <? bestWindowSize then
               JS.push testChartData
                 {| chartDate := date d; real := value d; predicted := None |}
             else
               let predIndex := i - bestWindowSize in
               JS.push testChartData
                 {| chartDate := date d; real := value d;
                    predicted := Some (JS.index (testPredictions s) predIndex) |}
         | None => testChartData
         end)
      []
  else [].

(** A point of the chart of the forecasts: [predicted] is a number or
    [undefined]. *)
Record FutureChartPoint := {
  futureDate : string;
  forecast : option JS.number
}.

Fixpoint map_indexed {A B : Type} (f : A -> Z -> B) (l : list A) (i : Z) : list B :=
  match l with
  | [] => []
  | x :: rest => f x i :: map_indexed f rest (i + 1)
  end.

(** [futureChartData], computed at each rendering. *)
Definition futureChartData (s : AppState) : list FutureChartPoint :=
  if (0 <? JS.length (futurePredictions s))
     && (JS.length (futureDates s) =? JS.length (futurePredictions s))
  then
    map_indexed
      (fun dt i => {| futureDate := dt;
                      forecast := JS.index (futurePredictions s) i |})
      (futureDates s) 0
  else [].

End App.

(** ** [models/timeSeriesModel.ts] *)

Module TimeSeriesModelTs.

(** [computeMape(actual, predicted)] of this file. *)
Definition computeMape (actual predicted : list JS.number) : JS.number :=
  if (JS.length actual =? 0) || negb (JS.length actual =? JS.length predicted)
  then JS.NaN
  else
    let sumPercentErrors :=
      JS.for_range 0 (JS.length actual)
        (fun i sumPercentErrors =>
           if JS.strict_eq (App.num_at actual i) 0%float
           then sumPercentErrors
           else
             let percentError :=
               JS.Math_abs ((App.num_at actual i - App.num_at predicted i)
                            / App.num_at actual i)%float in
             (sumPercentErrors + percentError)%float)
        0%float in
    (sumPercentErrors / JS.of_int (JS.length actual) * 100)%float.

(** [createSequences(values, windowSize)] of this file. *)
Definition createSequences (vals : list JS.number) (windowSize : Z)
  : list (list JS.number) * list (option JS.number) :=
  JS.for_range 0 (JS.length vals - windowSize)
    (fun i '(X, Y) =>
       let window := JS.slice vals i (i + windowSize) in
       let label := JS.index vals (i + windowSize) in
       (JS.push X window, JS.push Y label))
    ([], []).

(** [class TimeSeriesModel]: its only field is [model], [null] until
    [train] has built one. *)
Record TimeSeriesModel := {
  model : option ModelId
}.

(** [new TimeSeriesModel()]. *)
Definition new : TimeSeriesModel := {| model := None |}.

(** [train(data, epochs)], returning the object after the call. The
    optional callback only observes the loss of each epoch and is left
    out. An error can only be raised while the tensors are built, before
    [this.model] is assigned. *)
Definition train (H : Host) (this : TimeSeriesModel) (data : list TimeSeriesData)
  (epochs : Z) : M TimeSeriesModel :=
  let valuesArray := map value data in
  let windowSize := 3 in
  let '(X, Y) := createSequences valuesArray windowSize in
  let X3D := map (fun window => map (fun val => [val]) window) X in
  tensorX <- tf.tensor3d X3D (JS.length X3D) windowSize 1 ;;
  tensorY <- tf.tensor2d Y (JS.length Y) 1 ;;
  m <- tf.sequential_lstm_dense H 64 windowSize ;;
  let this := {| model := Some m |} in
  tf.fit H m tensorX tensorY epochs ;;
  ret this.

(** The warning ['Modelo no entrenado. Retornando arreglo vacio.'], whose
    last [i] carries an acute accent (character 237). *)
Definition notTrainedWarning : string :=
  ("Modelo no entrenado. Retornando arreglo vac"
   ++ String (ascii_of_nat 237) "o.")%string.

(** [predict(data, futurePeriods)]. *)
Definition predict (this : TimeSeriesModel) (data : list TimeSeriesData)
  (futurePeriods : Z) : M (list JS.number) :=
  match model this with
  | None =>
      console_warn notTrainedWarning ;;
      ret []
  | Some m =>
      let windowSize := 3 in
      let valuesArray := map value data in
      ' (_, predictions) <-
        for_rangeM 0 futurePeriods
          (fun i '(currentWindow, predictions) =>
             let X3D := map (fun val => [val]) currentWindow in
             tensorX <- tf.tensor3d [X3D] 1 windowSize 1 ;;
             predTensor <- tf.predict m tensorX ;;
             let predValue := tf.dataSync_first predTensor in
             ret (JS.slice_from currentWindow 1 ++ [predValue],
                  JS.push predictions predValue))
          (JS.slice_from valuesArray (- windowSize), []) ;;
      ret predictions
  end.

(** [calculateMapeOnTraining(data)]. *)
Definition calculateMapeOnTraining (this : TimeSeriesModel)
  (data : list TimeSeriesData) : M JS.number :=
  match model this with
  | None => ret JS.NaN
  | Some m =>
      let windowSize := 3 in
      let valuesArray := map value data in
      ' (predicted, actual) <-
        for_rangeM windowSize (JS.length valuesArray)
          (fun i '(predicted, actual) =>
             let window := JS.slice valuesArray (i - windowSize) i in
             let X3D := map (fun val => [val]) window in
             tensorX <- tf.tensor3d [X3D] 1 windowSize 1 ;;
             predTensor <- tf.predict m tensorX ;;
             let predValue := tf.dataSync_first predTensor in
             ret (JS.push predicted predValue,
                  JS.push actual (App.num_at valuesArray i)))
          ([], []) ;;
      ret (computeMape actual predicted)
  end.

End TimeSeriesModelTs.

(** ** A reference host

    Used to run the program on concrete inputs: UTC, a [Date.parse] that
    accepts the date-only form [YYYY-MM-DD] of the date-time string format
    (the one form every engine has to accept) and nothing else, a clock
    that advances by a second at each reading, and networks given by the
    caller. *)

Module Reference.

Definition digits_value (cs : list ascii) : option Z :=
  fold_left
    (fun acc c =>
       match acc, JS.digit_of c with
       | Some a, Some d => Some (10 * a + d)
       | _, _ => None
       end)
    cs (Some 0).

Definition days_in_month (y m : Z) : Z :=
  JS.MakeDay y (m + 1) 1 - JS.MakeDay y m 1.

(** [Date.parse] restricted to [YYYY-MM-DD], read as UTC midnight. *)
Definition parse_date_only (s : string) : option Z :=
  match list_ascii_of_string s with
  | [y1; y2; y3; y4; s1; m1; m2; s2; d1; d2] =>
      if (JS.char_code s1 =? 45) && (JS.char_code s2 =? 45) then
        match digits_value [y1; y2; y3; y4], digits_value [m1; m2],
              digits_value [d1; d2] with
        | Some y, Some m, Some d =>
            if (1 <=? m) && (m <=? 12) && (1 <=? d)
               && (d <=? days_in_month y (m - 1))
            then Some (JS.MakeDay y (m - 1) d * JS.msPerDay)
            else None
        | _, _, _ => None
        end
      else None
  | _ => None
  end.

Definition host
  (initial : ModelId -> Z -> Z -> list JS.number -> JS.number)
  (trained : ModelId -> Z -> Z -> Tensor -> Tensor -> Z -> list JS.number -> JS.number)
  : Host :=
  {| LocalTZA := 0;
     Date_parse := parse_date_only;
     performance_now := fun k => JS.of_int (1000 * Z.of_nat k);
     initial_net := initial;
     trained_net := trained |}.

(** A host whose first four trained models answer 100 and whose later
    models answer [NaN], as a training that diverges does. *)
Definition diverging_host : Host :=
  host (fun _ _ _ _ => 0%float)
       (fun id _ _ _ _ _ _ => if (id <? 4)%nat then 100%float else nan).

(** A host whose trained models answer 5 on a window that ends with 3 and
    12 on any other window. *)
Definition two_answers_host : Host :=
  host (fun _ _ _ _ => 0%float)
       (fun _ _ _ _ _ _ window =>
          match window with
          | [_; _; c] => if (c =? 3)%float then 5%float else 12%float
          | _ => nan
          end).

(** Points with the given values, all on the same day. *)
Definition points (vals : list JS.number) : list TimeSeriesData :=
  map (fun v => {| date := "2024-01-01"; value := v |}) vals.

(** A world with no data, no model and nothing displayed. *)
Definition empty_world : World :=
  {| app := {| data := []; error := None; isTraining := false; progress := 0;
               timeLeft := None; testPredictions := []; testMape := None;
               futurePeriods := 5%float; futurePredictions := [];
               futureDates := [] |};
     models := []; events := []; clock := 0; console := [] |}.

(** [calculateMapeOnTraining(data)] on a model just trained on [data]:
    the result, [None] if an error was raised. *)
Definition inSampleMape (H : Host) (series : list TimeSeriesData)
  : option JS.number :=
  match TimeSeriesModelTs.train H TimeSeriesModelTs.new series 10 empty_world with
  | (Normal this, w) =>
      match TimeSeriesModelTs.calculateMapeOnTraining this series w with
      | (Normal mape, _) => Some mape
      | (Throw _, _) => None
      end
  | (Throw _, _) => None
  end.

(** A host whose networks always answer [x]. *)
Definition constant_host (x : JS.number) : Host :=
  host (fun _ _ _ _ => x) (fun _ _ _ _ _ _ _ => x).

(** The series [value[i] = 100 + 2 * i] for [n] indices from [first], with
    daily dates, index 0 being 2024-01-01. *)
Definition linear_series (first n : nat) : list TimeSeriesData :=
  map (fun k =>
         {| date := App.toISODate 0 (Some ((19723 + Z.of_nat k) * JS.msPerDay));
            value := JS.of_int (100 + 2 * Z.of_nat k) |})
      (seq first n).

(** The world before any training: the first [n] points of the series are
    loaded, nothing is displayed, no model exists. *)
Definition initial_world (n : nat) (periods : Z) : World :=
  {| app := {| data := linear_series 0 n; error := None; isTraining := false;
               progress := 0; timeLeft := None; testPredictions := [];
               testMape := None; futurePeriods := JS.of_int periods;
               futurePredictions := []; futureDates := [] |};
     models := []; events := []; clock := 0; console := [] |}.

(** The same world when the user has typed [periods] in the field of the
    periods, any number. *)
Definition world_asking (n : nat) (periods : JS.number) : World :=
  {| app := {| data := linear_series 0 n; error := None; isTraining := false;
               progress := 0; timeLeft := None; testPredictions := [];
               testMape := None; futurePeriods := periods;
               futurePredictions := []; futureDates := [] |};
     models := []; events := []; clock := 0; console := [] |}.

End Reference.

(** ** Vocabulary of the specification *)

(** [lo, lo+1, ..., lo+n-1]: the values a counting loop gives its index. *)
Definition zrange (lo : Z) (n : nat) : list Z :=
  map (fun k => lo + Z.of_nat k) (seq 0 n).

(** [values[i .. i+W)], by position. *)
Definition window_at {A : Type} (l : list A) (i W : Z) : list A :=
  firstn (Z.to_nat W) (skipn (Z.to_nat i) l).

(** The last [W] elements. *)
Definition last_n {A : Type} (l : list A) (W : Z) : list A :=
  skipn (List.length l - Z.to_nat W) l.

(** The percentage error in the words of the specification: over the
    indices whose actual value is not zero, in order, the mean of
    [|actual - predicted| / |actual|], times 100; undefined when the
    lengths differ, the sequences are empty or no index is valid. *)
Definition relative_error (a p : JS.number) : JS.number :=
  (abs (a - p) / abs a)%float.

Definition valid_terms (actual predicted : list JS.number) : list JS.number :=
  map (fun '(a, p) => relative_error a p)
      (filter (fun '(a, _) => negb (a =? 0)%float) (combine actual predicted)).

Definition sum_in_order (terms : list JS.number) : JS.number :=
  fold_left PrimFloat.add terms 0%float.

Definition percentage_error (actual predicted : list JS.number) : JS.number :=
  let terms := valid_terms actual predicted in
  if negb (List.length actual =? List.length predicted)%nat
     || (List.length actual =? 0)%nat
     || (List.length terms =? 0)%nat
  then nan
  else (100 * (sum_in_order terms / JS.of_int (Z.of_nat (List.length terms))))%float.

(** The accumulation of the loop of [App.computeMape], over the pairs. *)
Definition accumulate (acc : JS.number * Z) (ap : JS.number * JS.number) : JS.number * Z :=
  let '(sum, count) := acc in
  let '(a, p) := ap in
  if JS.strict_neq a 0%float
  then ((sum + JS.Math_abs ((a - p) / a))%float, count + 1)
  else (sum, count).

(** The accumulation of the loop of [computeMape] in [timeSeriesModel.ts]. *)
Definition accumulate_sum (sum : JS.number) (ap : JS.number * JS.number) : JS.number :=
  let '(a, p) := ap in
  if JS.strict_eq a 0%float then sum
  else (sum + JS.Math_abs ((a - p) / a))%float.

(** The numeric parts of a raw date, as (year, month, day) under the
    format: [None] when there are fewer than three parts, the format is
    not one of the three, or one of the first three parts has no leading
    integer. *)
Definition date_fields (dateStr dateFormat : string) : option (Z * Z * Z) :=
  let parts := JS.split_separators dateStr in
  let positions :=
    if String.eqb dateFormat "Y/M/D" then Some (0, 1, 2)
    else if String.eqb dateFormat "D/M/Y" then Some (2, 1, 0)
    else if String.eqb dateFormat "M/D/Y" then Some (2, 0, 1)
    else None in
  if JS.length parts <? 3 then None
  else
    match positions with
    | Some (iy, im, id) =>
        match App.parseInt_part parts iy, App.parseInt_part parts im,
              App.parseInt_part parts id with
        | Some y, Some m, Some d => Some (y, m, d)
        | _, _, _ => None
        end
    | None => None
    end.

(** The forecasts of [n] autoregressive steps of [f] from the window [cw]. *)
Fixpoint autoregress (f : list JS.number -> JS.number) (n : nat)
  (cw : list JS.number) : list JS.number :=
  match n with
  | O => []
  | S n' => let v := f cw in v :: autoregress f n' (tl cw ++ [v])
  end.

(** The window after [n] autoregressive steps. *)
Fixpoint autoregress_window (f : list JS.number -> JS.number) (n : nat)
  (cw : list JS.number) : list JS.number :=
  match n with
  | O => cw
  | S n' => autoregress_window f n' (tl cw ++ [f cw])
  end.

(** [w] with other models and events. *)
Definition with_models (w : World) (ms : list LayersModel) (evs : list Event)
  : World :=
  {| app := app w; models := ms; events := evs;
     clock := clock w; console := console w |}.

(** The tensors [trainAndEvaluate] and [train] build from the training
    values. *)
Definition trainingInputs (trainData : list TimeSeriesData) (W : Z) : Tensor :=
  let X := fst (App.createSequences (map value trainData) W) in
  let X3D := map (fun seq => map (fun val : JS.number => [val]) seq) X in
  {| shape := [JS.length X3D; W; 1]; values := List.concat (List.concat X3D) |}.

Definition trainingLabels (trainData : list TimeSeriesData) (W : Z) : Tensor :=
  let Y := snd (App.createSequences (map value trainData) W) in
  {| shape := [JS.length Y; 1]; values := skipn (Z.to_nat W) (map value trainData) |}.

(** The model [trainAndEvaluate] returns when it is the [id]-th built. *)
Definition trainedModel (H : Host) (id : ModelId) (W u : Z)
  (trainData : list TimeSeriesData) (epochs : Z) : LayersModel :=
  {| inputLength := W; units := u;
     net := trained_net H id W u (trainingInputs trainData W)
              (trainingLabels trainData W) epochs;
     isDisposed := false |}.

(** The predictions of a model over the test values: for each index from
    the window size on, from the window of test values before it. *)
Definition testPredictionsOf (m : LayersModel) (testValues : list JS.number)
  : list JS.number :=
  map (fun i => net m (window_at testValues (i - inputLength m) (inputLength m)))
      (zrange (inputLength m) (Z.to_nat (JS.length testValues - inputLength m))).

(** The test error of a model. *)
Definition testError (m : LayersModel) (testData : list TimeSeriesData) : JS.number :=
  let testValues := map value testData in
  App.computeMape (JS.slice_from testValues (inputLength m))
    (testPredictionsOf m testValues).

(** A model after [dispose]. *)
Definition disposedModel (m : LayersModel) : LayersModel :=
  {| inputLength := inputLength m; units := units m; net := net m;
     isDisposed := true |}.

(** *** The sweep, as a choice among candidates *)

(** A candidate of the sweep: its window size, its model, its test error. *)
Definition Candidate : Type := Z * ModelId * JS.number.

(** What the sweep retains: the best error, the best model and its window
    size. *)
Definition Choice : Type := JS.number * option ModelId * Z.

Definition choice_of (v : App.SweepVars) : Choice :=
  (App.bestMape v, App.bestModel v, App.bestWindowSize v).

Definition initialChoice : Choice := (JS.Infinity, None, 3).

Definition chosenModel (acc : Choice) : option ModelId := snd (fst acc).

Definition chosenError (acc : Choice) : JS.number := fst (fst acc).

(** The comparison of the loop body. *)
Definition choose (acc : Choice) (c : Candidate) : Choice :=
  let '(W, id, e) := c in
  if (e <? chosenError acc)%float then (e, Some id, W) else acc.

(** The events of one iteration: the candidate is built, then the loser of
    the comparison is disposed. *)
Definition iterationEvents (acc : Choice) (c : Candidate) : list Event :=
  let '(W, id, e) := c in
  Created id
  :: (if (e <? chosenError acc)%float
      then match chosenModel acc with
           | Some b => [Disposed b]
           | None => []
           end
      else [Disposed id]).

(** The events of the sweep, one list for each iteration. *)
Fixpoint sweepEvents (acc : Choice) (cs : list Candidate) : list (list Event) :=
  match cs with
  | [] => []
  | c :: rest => iterationEvents acc c :: sweepEvents (choose acc c) rest
  end.

(** The candidates of the configurations, when the first model built is
    the [id]-th. *)
Fixpoint candidates (H : Host) (trainData testData : list TimeSeriesData)
  (id : ModelId) (configs : list (Z * Z)) : list Candidate :=
  match configs with
  | [] => []
  | (W, u) :: rest =>
      (W, id, testError (trainedModel H id W u trainData 1000) testData)
      :: candidates H trainData testData (S id) rest
  end.

(** The configurations in the order of the two nested loops. *)
Definition configurations (windowSizes lstmUnitsArray : list Z) : list (Z * Z) :=
  flat_map (fun w => map (fun u => (w, u)) lstmUnitsArray) windowSizes.

(** The models held after a sequence of events: built and not disposed. *)
Definition applyEvent (held : list ModelId) (e : Event) : list ModelId :=
  match e with
  | Created m => held ++ [m]
  | Disposed m => remove Nat.eq_dec m held
  end.

Definition heldAfter (evs : list Event) : list ModelId :=
  fold_left applyEvent evs [].

Definition option_list {A : Type} (o : option A) : list A :=
  match o with
  | Some a => [a]
  | None => []
  end.

(** The state variables other than the progress and the time left are the
    same. *)
Definition sameResults (s s' : AppState) : Prop :=
  data s' = data s /\ error s' = error s /\ isTraining s' = isTraining s /\
  testPredictions s' = testPredictions s /\ testMape s' = testMape s /\
  futurePeriods s' = futurePeriods s /\
  futurePredictions s' = futurePredictions s /\ futureDates s' = futureDates s.

(** What holds between the start of the sweep, in world [w0], and the
    point where the configurations [done] have been processed. *)
Record SweepInv (H : Host) (trainData testData : list TimeSeriesData)
  (w0 : World) (done : list (Z * Z)) (v : App.SweepVars) (w : World) : Prop := {
  inv_app : sameResults (app w0) (app w);
  inv_console : console w = console w0;
  inv_models :
    List.length (models w) = (List.length (models w0) + List.length done)%nat;
  inv_events :
    events w
    = events w0
      ++ List.concat
           (sweepEvents initialChoice
              (candidates H trainData testData (List.length (models w0)) done));
  inv_choice :
    choice_of v
    = fold_left choose
        (candidates H trainData testData (List.length (models w0)) done)
        initialChoice;
  inv_old :
    forall k, (k < List.length (models w0))%nat ->
      nth_error (models w) k = nth_error (models w0) k;
  inv_none : App.bestModel v = None -> App.bestMape v = JS.Infinity;
  inv_best :
    forall b, App.bestModel v = Some b ->
      exists W u,
        In (W, u) done /\ App.bestWindowSize v = W /\
        App.bestMape v
        = testError (trainedModel H b W u trainData 1000) testData /\
        (App.bestMape v <? JS.Infinity)%float = true /\
        nth_error (models w) b = Some (trainedModel H b W u trainData 1000)
}.

Definition candidateId (c : Candidate) : ModelId := snd (fst c).

Definition candidateError (c : Candidate) : JS.number := snd c.

(** The models held after the events [evs], starting from [held]. *)
Definition heldFrom (held : list ModelId) (evs : list Event) : list ModelId :=
  fold_left applyEvent evs held.

(** Two errors are identical: the same number, or equal for [===]. *)
Definition sameError (x y : JS.number) : Prop :=
  x = y \/ JS.strict_eq x y = true.

(** *** The pipeline *)

(** The state once [handleTrain] has reset it, before the sweep. *)
Definition clearedState (s : AppState) : AppState :=
  {| data := data s; error := None; isTraining := true; progress := 0;
     timeLeft := None; testPredictions := []; testMape := None;
     futurePeriods := futurePeriods s; futurePredictions := [];
     futureDates := [] |}.

(** The world in which the sweep starts: the state is reset and the clock
    has been read once. *)
Definition sweepStart (w : World) : World :=
  {| app := clearedState (app w); models := models w; events := events w;
     clock := Datatypes.S (clock w); console := console w |}.

(** The chronological split: the first [floor(0.8 * length)] points train,
    the others test. *)
Definition splitIndex (series : list TimeSeriesData) : Z :=
  JS.Math_floor (JS.of_int (JS.length series) * 0x1.999999999999ap-1)%float.

Definition trainSplit (series : list TimeSeriesData) : list TimeSeriesData :=
  JS.slice series 0 (splitIndex series).

Definition testSplit (series : list TimeSeriesData) : list TimeSeriesData :=
  JS.slice_from series (splitIndex series).

(** The state with the error message of a failed check, all else kept. *)
Definition withError (msg : string) (s : AppState) : AppState :=
  {| data := data s; error := Some msg; isTraining := isTraining s;
     progress := progress s; timeLeft := timeLeft s;
     testPredictions := testPredictions s; testMape := testMape s;
     futurePeriods := futurePeriods s;
     futurePredictions := futurePredictions s;
     futureDates := futureDates s |}.

(** *** Tables and their text *)

(** The characters of a string contain [c]. *)
Fixpoint has_char (c : ascii) (s : string) : Prop :=
  match s with
  | EmptyString => False
  | String a rest => a = c \/ has_char c rest
  end.

(** The first and the last character are not white space (the empty
    string qualifies). *)
Definition starts_clean (s : string) : bool :=
  match s with
  | EmptyString => true
  | String a _ => negb (JS.is_white_space a)
  end.

Fixpoint ends_clean (s : string) : bool :=
  match s with
  | EmptyString => true
  | String a EmptyString => negb (JS.is_white_space a)
  | String _ rest => ends_clean rest
  end.

(** The text of a table: the fields of a row joined by the delimiter [c],
    the rows joined by line feeds. *)
Definition csv_text (c : ascii) (rows : list (list string)) : string :=
  String.concat App.newline
    (map (String.concat (String c EmptyString)) rows).

(** A row that [csv_text] writes and [parseCSV] reads back: it has a
    field, is not the single empty field (its line would be blank), and
    its fields are trimmed and hold neither the delimiter nor a line
    feed. *)
Definition plain_row (c : ascii) (row : list string) : Prop :=
  row <> [] /\ row <> [EmptyString] /\
  forall f, In f row ->
    JS.trim f = f /\ ~ has_char c f /\ ~ has_char (ascii_of_nat 10) f.

(** *** Signs *)

(** The number is [NaN] or its sign bit is clear. *)
Definition sign_clear (x : spec_float) : Prop :=
  match x with
  | S754_nan => True
  | S754_zero s | S754_infinity s | S754_finite s _ _ => s = false
  end.

(** *** Calendar days *)

(** The year of the era, the month and the day of the month of the
    [doe]-th day of an era of 400 years, which starts on a first of March:
    what [civil_of_day] computes once the era is set apart. *)
Definition civil_of_doe (doe : Z) : Z * Z * Z :=
  let yoe := (doe - doe / 1460 + doe / 36524 - doe / 146096) / 365 in
  let doy := doe - (365 * yoe + yoe / 4 - yoe / 100) in
  let mp := (5 * doy + 2) / 153 in
  let d := doy - (153 * mp + 2) / 5 + 1 in
  let m := if mp <? 10 then mp + 2 else mp - 10 in
  (yoe, m, d).

(** The fields of the [doe]-th day of an era are in range and count back to
    [doe]. *)
Definition doe_round_trip (doe : Z) : bool :=
  let '(yoe, m, d) := civil_of_doe doe in
  let mp := if m <? 2 then m + 10 else m - 2 in
  (0 <=? yoe) && (yoe <=? 399) && (0 <=? m) && (m <=? 11)
  && (1 <=? d) && (d <=? 31)
  && (yoe * 365 + yoe / 4 - yoe / 100 + (153 * mp + 2) / 5 + d - 1 =? doe).

Definition era_round_trip (lo hi : Z) : bool :=
  JS.for_range lo hi (fun doe ok => ok && doe_round_trip doe) true.

(** The day number of a time in the zone of offset [tza]. *)
Definition local_day (tza t : Z) : Z := (t + tza) / JS.msPerDay.

(** The text [YYYY-MM-DD] of a day number. *)
Definition iso_of_day (z : Z) : string :=
  App.toISODate 0 (Some (z * JS.msPerDay)).

(** *** The split index *)


(** * Properties *)

Unset Implicit Arguments.

(** ** Counting loops and arrays *)

Section Loops.

Lemma zrange_S (lo : Z) (n : nat) : zrange lo (S n) = lo :: zrange (lo + 1) n.
Proof.
  unfold zrange. simpl. f_equal; [ lia | ].
  rewrite <- seq_shift, map_map. apply map_ext. intros k. lia.
Qed.

Lemma zrange_length (lo : Z) (n : nat) : List.length (zrange lo n) = n.
Proof. unfold zrange. now rewrite length_map, length_seq. Qed.

Lemma zrange_nth (lo : Z) (n k : nat) :
  (k < n)%nat -> nth_error (zrange lo n) k = Some (lo + Z.of_nat k).
Proof.
  intros Hk. unfold zrange.
  rewrite nth_error_map, nth_error_seq.
  destruct (Nat.ltb_spec k n); [ reflexivity | lia ].
Qed.

Lemma zrange_In (lo : Z) (n : nat) (i : Z) :
  In i (zrange lo n) <-> lo <= i < lo + Z.of_nat n.
Proof.
  unfold zrange. rewrite in_map_iff. split.
  - intros (k & <- & Hk). apply in_seq in Hk. lia.
  - intros Hi. exists (Z.to_nat (i - lo)). split; [ lia | ].
    apply in_seq. lia.
Qed.

Lemma for_loop_fold {S : Type} (body : Z -> S -> S) (n : nat) :
  forall (i : Z) (s : S),
    JS.for_loop n i body s = fold_left (fun acc k => body k acc) (zrange i n) s.
Proof.
  induction n as [| n IH]; intros i s; [ reflexivity | ].
  rewrite zrange_S. simpl. apply IH.
Qed.

(** A loop that only pushes, on two arrays at once. *)
Lemma for_loop_push2 {A B : Type} (f : Z -> A) (g : Z -> B) (n : nat) :
  forall (i : Z) (X : list A) (Y : list B),
    JS.for_loop n i (fun i '(X, Y) => (JS.push X (f i), JS.push Y (g i))) (X, Y)
    = (X ++ map f (zrange i n), Y ++ map g (zrange i n)).
Proof.
  induction n as [| n IH]; intros i X Y.
  - simpl. now rewrite !app_nil_r.
  - rewrite zrange_S. simpl. rewrite IH. unfold JS.push.
    now rewrite <- !app_assoc.
Qed.

End Loops.

Section Arrays.

Context {A : Type}.

Lemma slice_window (l : list A) (i W : Z) :
  0 <= i -> 0 <= W -> i + W <= JS.length l ->
  JS.slice l i (i + W) = window_at l i W.
Proof.
  intros Hi HW Hle. unfold JS.slice, JS.clamp_index, window_at.
  destruct (Z.ltb_spec i 0); [ lia | ].
  destruct (Z.ltb_spec (i + W) 0); [ lia | ].
  rewrite !Z.min_l by lia. f_equal. lia.
Qed.

Lemma window_at_length (l : list A) (i W : Z) :
  0 <= i -> 0 <= W -> i + W <= JS.length l ->
  JS.length (window_at l i W) = W.
Proof.
  intros Hi HW Hle. unfold window_at, JS.length in *.
  rewrite length_firstn, length_skipn. lia.
Qed.

Lemma index_nth_error (l : list A) (i : Z) :
  0 <= i -> JS.index l i = nth_error l (Z.to_nat i).
Proof.
  intros Hi. unfold JS.index. destruct (Z.ltb_spec i 0); [ lia | reflexivity ].
Qed.

Lemma nth_error_from (w : nat) :
  forall l : list A,
    map (fun k => nth_error l (k + w)) (seq 0 (List.length l - w))
    = map Some (skipn w l).
Proof.
  induction w as [| w IH]; intros l.
  - rewrite Nat.sub_0_r. simpl.
    induction l as [| a l IHl]; [ reflexivity | ].
    simpl. f_equal.
    rewrite <- seq_shift, map_map. rewrite <- IHl.
    apply map_ext. intros k. now rewrite !Nat.add_0_r.
  - destruct l as [| a l]; [ reflexivity | ].
    simpl. rewrite <- IH. apply map_ext. intros k.
    now rewrite Nat.add_succ_r.
Qed.

End Arrays.

(** ** Windowing *)

Lemma App_createSequences_eq (vals : list JS.number) (W : Z) :
  App.createSequences vals W
  = (map (fun i => JS.slice vals i (i + W))
         (zrange 0 (Z.to_nat (JS.length vals - W))),
     map (fun i => JS.index vals (i + W))
         (zrange 0 (Z.to_nat (JS.length vals - W)))).
Proof.
  unfold App.createSequences, JS.for_range.
  rewrite Z.sub_0_r.
  apply (for_loop_push2 (fun i => JS.slice vals i (i + W))
                        (fun i => JS.index vals (i + W))).
Qed.

Lemma createSequences_same (vals : list JS.number) (W : Z) :
  TimeSeriesModelTs.createSequences vals W = App.createSequences vals W.
Proof. reflexivity. Qed.

(** The labels are the values from [W] on, none undefined, whatever the
    length. *)
Lemma createSequences_labels (vals : list JS.number) (W : Z) :
  0 <= W ->
  snd (App.createSequences vals W) = map Some (skipn (Z.to_nat W) vals).
Proof.
  intros HW. rewrite App_createSequences_eq. cbn [snd].
  unfold zrange. rewrite map_map, <- nth_error_from.
  replace (Z.to_nat (JS.length vals - W))
    with (List.length vals - Z.to_nat W)%nat by (unfold JS.length; lia).
  apply map_ext_in. intros k Hk. apply in_seq in Hk.
  rewrite index_nth_error by lia. f_equal. lia.
Qed.

(** Every window has [W] values. *)
Lemma createSequences_rows (vals : list JS.number) (W : Z) :
  0 <= W ->
  forall row, In row (fst (App.createSequences vals W)) -> JS.length row = W.
Proof.
  intros HW row Hin. rewrite App_createSequences_eq in Hin. cbn [fst] in Hin.
  apply in_map_iff in Hin. destruct Hin as (i & <- & Hi).
  apply zrange_In in Hi.
  rewrite slice_window by lia. apply window_at_length; lia.
Qed.

(** C3. For values of length [L] and a window size [W] (not negative):
    when [W < L] the builder returns exactly [L - W] windows, the [i]-th
    being [values[i .. i+W)], of length [W], and the labels are
    [values[W:]], none of them undefined; when [L <= W] it returns empty
    windows and labels. The builder of [timeSeriesModel.ts] is the same
    function. *)
Theorem createSequences_windows (vals : list JS.number) (W : Z) (HW : 0 <= W) :
  let L := JS.length vals in
  TimeSeriesModelTs.createSequences vals W = App.createSequences vals W /\
  (W < L ->
     JS.length (fst (App.createSequences vals W)) = L - W /\
     (forall i, 0 <= i < L - W ->
        JS.index (fst (App.createSequences vals W)) i = Some (window_at vals i W) /\
        JS.length (window_at vals i W) = W) /\
     snd (App.createSequences vals W) = map Some (skipn (Z.to_nat W) vals)) /\
  (L <= W -> App.createSequences vals W = ([], [])).
Proof.
  intros L. split; [ reflexivity | ].
  rewrite App_createSequences_eq. fold L. simpl fst; simpl snd. split.
  - intros HL. split; [ | split ].
    + unfold JS.length at 1. rewrite length_map, zrange_length. lia.
    + intros i Hi. split.
      * rewrite index_nth_error by lia.
        rewrite nth_error_map, zrange_nth by lia. simpl.
        rewrite Z2Nat.id by lia.
        f_equal. apply slice_window; unfold L in *; lia.
      * apply window_at_length; unfold L in *; lia.
    + rewrite <- (createSequences_labels vals W HW).
      now rewrite App_createSequences_eq.
  - intros HL. replace (Z.to_nat (L - W)) with O by lia. reflexivity.
Qed.

Lemma createSequences_windows_witness :
  0 <= 3 /\
  snd (App.createSequences [1; 2; 3; 4; 5]%float 3)
  = map Some (skipn (Z.to_nat 3) [1; 2; 3; 4; 5]%float).
Proof.
  split; [ lia | ].
  apply (createSequences_windows [1; 2; 3; 4; 5]%float 3); [ lia | reflexivity ].
Defined.

(** ** Binary64 facts *)

Section FloatFacts.

Lemma SFabs_round_aux (s : bool) (m e : Z) (l : location) :
  SFabs (binary_round_aux prec emax s m e l) = binary_round_aux prec emax false m e l.
Proof.
  unfold binary_round_aux.
  destruct (shr_fexp prec emax m e l) as [mrs' e'].
  destruct (shr_fexp prec emax _ e' loc_Exact) as [mrs'' e''].
  destruct (shr_m mrs'') as [| p | p]; try reflexivity.
  destruct (e'' <=? emax - prec); reflexivity.
Qed.

Lemma abs_div (x y : float) : abs (x / y) = (abs x / abs y)%float.
Proof.
  apply Prim2SF_inj.
  rewrite abs_spec, !div_spec, !abs_spec.
  destruct (Prim2SF x) as [sx | sx | | sx mx ex], (Prim2SF y) as [sy | sy | | sy my ey];
    try reflexivity.
  unfold SF64div, SFdiv, SFabs.
  destruct (SFdiv_core_binary prec emax (Z.pos mx) ex (Z.pos my) ey) as [[mz ez] lz].
  apply SFabs_round_aux.
Qed.

Lemma mul_comm (x y : float) : (x * y = y * x)%float.
Proof.
  apply Prim2SF_inj. rewrite !mul_spec.
  destruct (Prim2SF x) as [sx | sx | | sx mx ex], (Prim2SF y) as [sy | sy | | sy my ey];
    unfold SF64mul, SFmul; try reflexivity; try (now rewrite xorb_comm).
  now rewrite xorb_comm, Pos.mul_comm, Z.add_comm.
Qed.

End FloatFacts.

Section FloatOrder.

Lemma SFltb_irrefl (x : spec_float) : SFltb x x = false.
Proof.
  unfold SFltb, SFcompare.
  destruct x as [s | s | | s m e]; try reflexivity.
  - destruct s; reflexivity.
  - rewrite Z.compare_refl. rewrite Pos.compare_cont_refl.
    destruct s; reflexivity.
Qed.

Lemma ltb_irrefl (x : float) : (x <? x)%float = false.
Proof. rewrite ltb_spec. apply SFltb_irrefl. Qed.

Ltac order_cases :=
  repeat match goal with
         | H : context [Z.compare ?a ?b] |- _ =>
             destruct (Z.compare_spec a b); try discriminate H
         | |- context [Z.compare ?a ?b] =>
             destruct (Z.compare_spec a b)
         | H : context [Pos.compare_cont Eq ?a ?b] |- _ =>
             change (Pos.compare_cont Eq a b) with (Pos.compare a b) in H;
             destruct (Pos.compare_spec a b); try discriminate H
         | |- context [Pos.compare_cont Eq ?a ?b] =>
             change (Pos.compare_cont Eq a b) with (Pos.compare a b);
             destruct (Pos.compare_spec a b)
         end.

Lemma SFltb_trans (x y z : spec_float) :
  SFltb x y = true -> SFltb y z = true -> SFltb x z = true.
Proof.
  unfold SFltb, SFcompare.
  destruct x as [sx | sx | | sx mx ex], y as [sy | sy | | sy my ey],
           z as [sz | sz | | sz mz ez];
    try discriminate; try (destruct sx, sy, sz; (discriminate || reflexivity)).
  all: try (destruct sx, sy; (discriminate || reflexivity)).
  all: try (destruct sy, sz; (discriminate || reflexivity)).
  all: try (destruct sx, sz; (discriminate || reflexivity)).
  destruct sx, sy, sz; try discriminate; try reflexivity; intros H1 H2;
    order_cases; subst; try reflexivity; try lia.
Qed.

Lemma ltb_trans (x y z : float) :
  (x <? y)%float = true -> (y <? z)%float = true -> (x <? z)%float = true.
Proof. rewrite !ltb_spec. apply SFltb_trans. Qed.

Lemma SFltb_eqb_compat (x y z : spec_float) :
  SFeqb x y = true -> SFltb y z = true -> SFltb x z = true.
Proof.
  unfold SFltb, SFeqb, SFcompare.
  destruct x as [sx | sx | | sx mx ex], y as [sy | sy | | sy my ey],
           z as [sz | sz | | sz mz ez];
    try discriminate; try (destruct sx, sy, sz; (discriminate || reflexivity)).
  all: try (destruct sx, sy; (discriminate || reflexivity)).
  all: try (destruct sy, sz; (discriminate || reflexivity)).
  all: try (destruct sx, sz; (discriminate || reflexivity)).
  destruct sx, sy, sz; try discriminate; try reflexivity; intros H1 H2;
    order_cases; subst; try reflexivity; try lia.
Qed.

Lemma sameError_ltb (x y z : JS.number) :
  sameError x y -> (y <? z)%float = true -> (x <? z)%float = true.
Proof.
  intros [-> | Heq] Hlt; [ exact Hlt | ].
  unfold JS.strict_eq in Heq. rewrite eqb_spec in Heq. rewrite ltb_spec in *.
  now apply (SFltb_eqb_compat _ _ _ Heq).
Qed.

Lemma SFeqb_refl_false (x : spec_float) : SFeqb x x = false -> x = S754_nan.
Proof.
  unfold SFeqb, SFcompare.
  destruct x as [s | s | | s m e]; try reflexivity; try discriminate.
  - destruct s; discriminate.
  - rewrite Z.compare_refl, Pos.compare_cont_refl. destruct s; discriminate.
Qed.

(** [NaN], the only number with [x !== x], is below nothing. *)
Lemma nan_not_below (x y : JS.number) :
  JS.strict_eq x x = false -> (x <? y)%float = false.
Proof.
  unfold JS.strict_eq. rewrite eqb_spec, ltb_spec. intros Hx.
  apply SFeqb_refl_false in Hx. now rewrite Hx.
Qed.

End FloatOrder.

(** ** Integers as numbers *)

Section Integers.

Lemma iter_xO_value (q k : positive) :
  Z.pos (Pos.iter xO q k) = Z.pos q * 2 ^ Z.pos k.
Proof.
  induction k as [| k IH] using Pos.peano_ind.
  - cbn. lia.
  - rewrite Pos.iter_succ, Pos2Z.inj_xO, IH, Pos2Z.inj_succ, Z.pow_succ_r by lia.
    ring.
Qed.

Lemma iter_xO_digits (q k : positive) :
  Z.pos (digits2_pos (Pos.iter xO q k)) = Z.pos (digits2_pos q) + Z.pos k.
Proof.
  induction k as [| k IH] using Pos.peano_ind.
  - cbn. lia.
  - rewrite Pos.iter_succ. cbn [digits2_pos].
    rewrite Pos2Z.inj_succ, IH, Pos2Z.inj_succ. lia.
Qed.

Lemma digits2_pos_lower (q : positive) :
  2 ^ (Z.pos (digits2_pos q) - 1) <= Z.pos q.
Proof.
  induction q as [q IH | q IH |]; cbn [digits2_pos].
  - rewrite Pos2Z.inj_succ.
    replace (Z.succ (Z.pos (digits2_pos q)) - 1)
      with (Z.succ (Z.pos (digits2_pos q) - 1)) by lia.
    rewrite Z.pow_succ_r by lia. lia.
  - rewrite Pos2Z.inj_succ.
    replace (Z.succ (Z.pos (digits2_pos q)) - 1)
      with (Z.succ (Z.pos (digits2_pos q) - 1)) by lia.
    rewrite Z.pow_succ_r by lia. lia.
  - cbn. lia.
Qed.

Lemma digits2_pos_bound (q : positive) :
  Z.pos q < 2 ^ 53 -> Z.pos (digits2_pos q) <= 53.
Proof.
  intros Hq. destruct (Z.le_gt_cases (Z.pos (digits2_pos q)) 53) as [Hle | Hgt];
    [ exact Hle | exfalso ].
  pose proof (digits2_pos_lower q) as Hlow.
  assert (2 ^ 53 <= 2 ^ (Z.pos (digits2_pos q) - 1))
    by (apply Z.pow_le_mono_r; lia).
  lia.
Qed.

(** A mantissa of 53 digits is kept as it is. *)
Lemma round_aux_exact (m : positive) (e : Z) :
  Z.pos (digits2_pos m) = 53 -> -1074 <= e <= 971 ->
  binary_round_aux prec emax false (Z.pos m) e loc_Exact = S754_finite false m e.
Proof.
  intros Hd He.
  assert (Hshift : fexp prec emax (Zdigits2 (Z.pos m) + e) - e = 0).
  { unfold fexp, SpecFloat.emin, prec, emax. cbn [Zdigits2]. rewrite Hd. lia. }
  unfold binary_round_aux, shr_fexp.
  rewrite Hshift. cbn [shr shr_record_of_loc shr_m loc_of_shr_record round_nearest_even].
  rewrite Hshift. cbn [shr shr_record_of_loc shr_m].
  unfold prec, emax. destruct (Z.leb_spec e (1024 - 53)); [ reflexivity | lia ].
Qed.

(** The number of a positive integer below [2^53] holds its value. *)
Lemma binary_round_integer (q : positive) :
  Z.pos q < 2 ^ 53 ->
  exists m e,
    binary_round prec emax false q 0 = S754_finite false m e /\
    -52 <= e <= 0 /\ Z.pos m = Z.pos q * 2 ^ (- e).
Proof.
  intros Hq. pose proof (digits2_pos_bound q Hq) as Hd.
  unfold binary_round.
  assert (Hfexp : fexp prec emax (Z.pos (digits2_pos q) + 0)
                  = Z.pos (digits2_pos q) - 53).
  { unfold fexp, SpecFloat.emin, prec, emax. lia. }
  rewrite Hfexp. unfold shl_align.
  destruct (Z.pos (digits2_pos q) - 53 - 0) as [| k | k] eqn:Hk; [ | lia | ].
  - exists q, 0. split; [ | split; [ lia | cbn; lia ] ].
    apply round_aux_exact; lia.
  - exists (Pos.iter xO q k), (Z.pos (digits2_pos q) - 53).
    split; [ | split; [ lia | ] ].
    + apply round_aux_exact; [ | lia ].
      rewrite iter_xO_digits. lia.
    + rewrite iter_xO_value. do 2 f_equal. lia.
Qed.

Lemma of_int_finite (p : Z) :
  0 < p < 2 ^ 53 ->
  exists m e,
    Prim2SF (JS.of_int p) = S754_finite false m e /\
    -52 <= e <= 0 /\ Z.pos m = p * 2 ^ (- e).
Proof.
  intros Hp. unfold JS.of_int.
  destruct (Z.ltb_spec p 0); [ lia | ].
  rewrite of_uint63_spec.
  change (Uint63Axioms.to_Z (Uint63.of_Z p)) with (Uint63.to_Z (Uint63.of_Z p)).
  rewrite Uint63.of_Z_spec.
  rewrite Z.mod_small by (split; [ lia | ]; apply Z.lt_trans with (2 ^ 53); [ lia | reflexivity ]).
  destruct p as [| q | q]; [ lia | | lia ].
  apply binary_round_integer. lia.
Qed.

Lemma of_int_limits (p : Z) :
  0 <= p < 2 ^ 53 ->
  JS.limit_lt (JS.of_int p) = p /\ JS.limit_le (JS.of_int p) = p.
Proof.
  intros Hp. destruct (Z.eq_dec p 0) as [-> | Hne]; [ split; reflexivity | ].
  destruct (of_int_finite p ltac:(lia)) as (m & e & HSF & He & Hm).
  unfold JS.limit_lt, JS.limit_le. rewrite HSF.
  destruct (Z.leb_spec 0 e).
  - assert (e = 0) by lia. subst e. cbn in Hm. split; lia.
  - rewrite Hm. split.
    + rewrite <- Z.mul_opp_l, Z.div_mul by (apply Z.pow_nonzero; lia). lia.
    + apply Z.div_mul. apply Z.pow_nonzero; lia.
Qed.

End Integers.


(** ** The percentage error *)

Section Mape.

Lemma num_at_nth (l : list JS.number) (k : nat) :
  App.num_at l (Z.of_nat k) = nth k l JS.NaN.
Proof.
  unfold App.num_at, JS.index.
  destruct (Z.ltb_spec (Z.of_nat k) 0); [ lia | ].
  rewrite Nat2Z.id.
  revert k H. induction l as [| a l IH]; intros [| k] H; simpl; try reflexivity.
  apply IH. lia.
Qed.

Lemma combine_by_nth (l1 : list JS.number) :
  forall l2 : list JS.number,
    List.length l1 = List.length l2 ->
    map (fun k => (nth k l1 JS.NaN, nth k l2 JS.NaN)) (seq 0 (List.length l1))
    = combine l1 l2.
Proof.
  induction l1 as [| a l1 IH]; intros [| b l2] Hlen; simpl in *; try discriminate;
    [ reflexivity | ].
  f_equal. rewrite <- seq_shift, map_map. apply IH. lia.
Qed.

Lemma pairs_by_index (l1 l2 : list JS.number) :
  List.length l1 = List.length l2 ->
  map (fun i => (App.num_at l1 i, App.num_at l2 i)) (zrange 0 (List.length l1))
  = combine l1 l2.
Proof.
  intros Hlen. unfold zrange. rewrite map_map.
  rewrite <- (combine_by_nth l1 l2 Hlen).
  apply map_ext. intros k.
  change (0 + Z.of_nat k) with (Z.of_nat k).
  now rewrite !num_at_nth.
Qed.

Lemma fold_left_through {A B C : Type} (f : A -> B) (g : C -> B -> C)
  (h : C -> A -> C) (l : list A) :
  (forall acc x, h acc x = g acc (f x)) ->
  forall c, fold_left h l c = fold_left g (map f l) c.
Proof.
  intros Hh. induction l as [| a l IH]; intros c; simpl; [ reflexivity | ].
  rewrite Hh. apply IH.
Qed.

Lemma accumulate_terms (pairs : list (JS.number * JS.number)) :
  forall (sum : JS.number) (count : Z),
    fold_left accumulate pairs (sum, count)
    = (fold_left PrimFloat.add
         (map (fun '(a, p) => relative_error a p)
              (filter (fun '(a, _) => negb (a =? 0)%float) pairs)) sum,
       count + Z.of_nat (List.length
              (filter (fun '(a, _) => negb (a =? 0)%float) pairs))).
Proof.
  induction pairs as [| [a p] pairs IH]; intros sum count; simpl.
  - f_equal. lia.
  - unfold JS.strict_neq. destruct (a =? 0)%float; simpl.
    + apply IH.
    + rewrite IH. unfold JS.Math_abs, relative_error. rewrite abs_div.
      f_equal. lia.
Qed.

Lemma App_computeMape_loop (actual predicted : list JS.number) :
  List.length actual = List.length predicted ->
  JS.for_range 0 (JS.length actual)
        (fun i '(sum, count) =>
           if JS.strict_neq (App.num_at actual i) 0%float
           then ((sum + JS.Math_abs ((App.num_at actual i - App.num_at predicted i)
                                     / App.num_at actual i))%float,
                 count + 1)
           else (sum, count))
        (0%float, 0)
  = (sum_in_order (valid_terms actual predicted),
     Z.of_nat (List.length (valid_terms actual predicted))).
Proof.
  intros Hlen. unfold JS.for_range, JS.length.
  rewrite Z.sub_0_r, Nat2Z.id, for_loop_fold.
  rewrite (fold_left_through
             (fun i => (App.num_at actual i, App.num_at predicted i)) accumulate)
    by (intros [s c] i; reflexivity).
  rewrite pairs_by_index by assumption.
  rewrite accumulate_terms. unfold sum_in_order, valid_terms.
  now rewrite length_map.
Qed.

(** [computeMape] of [App.tsx], the function the pipeline uses, is the
    percentage error of the specification, for all inputs. *)
Theorem App_computeMape_spec (actual predicted : list JS.number) :
  App.computeMape actual predicted = percentage_error actual predicted.
Proof.
  unfold App.computeMape, percentage_error, JS.length.
  destruct (Nat.eqb_spec (List.length actual) (List.length predicted)) as [Hlen | Hlen].
  - destruct (Z.eqb_spec (Z.of_nat (List.length actual)) (Z.of_nat (List.length predicted))); [ | lia ].
    simpl negb. rewrite !orb_false_l.
    destruct (Nat.eqb_spec (List.length actual) 0) as [H0 | H0].
    + destruct (Z.eqb_spec (Z.of_nat (List.length actual)) 0); [ reflexivity | lia ].
    + destruct (Z.eqb_spec (Z.of_nat (List.length actual)) 0); [ lia | ].
      pose proof (App_computeMape_loop actual predicted Hlen) as Hloop.
      unfold JS.length in Hloop. rewrite Hloop. simpl orb.
      destruct (Nat.eqb_spec (List.length (valid_terms actual predicted)) 0) as [Hv | Hv].
      * rewrite Hv. reflexivity.
      * destruct (Z.eqb_spec (Z.of_nat (List.length (valid_terms actual predicted))) 0); [ lia | ].
        apply mul_comm.
  - destruct (Z.eqb_spec (Z.of_nat (List.length actual)) (Z.of_nat (List.length predicted))); [ lia | ].
    reflexivity.
Qed.

End Mape.

Section ModelMape.

Lemma accumulate_sum_terms (pairs : list (JS.number * JS.number)) :
  forall sum : JS.number,
    fold_left accumulate_sum pairs sum
    = fold_left PrimFloat.add
        (map (fun '(a, p) => relative_error a p)
             (filter (fun '(a, _) => negb (a =? 0)%float) pairs)) sum.
Proof.
  induction pairs as [| [a p] pairs IH]; intros sum; simpl; [ reflexivity | ].
  unfold JS.strict_eq. destruct (a =? 0)%float; simpl.
  - apply IH.
  - rewrite IH. unfold JS.Math_abs, relative_error. now rewrite abs_div.
Qed.

(** What [computeMape] of [timeSeriesModel.ts] computes: the sum runs over
    the valid indices, the divisor is the whole length. *)
Lemma Model_computeMape_eq (actual predicted : list JS.number) :
  TimeSeriesModelTs.computeMape actual predicted
  = if (List.length actual =? 0)%nat
       || negb (List.length actual =? List.length predicted)%nat
    then nan
    else (sum_in_order (valid_terms actual predicted)
          / JS.of_int (Z.of_nat (List.length actual)) * 100)%float.
Proof.
  unfold TimeSeriesModelTs.computeMape, JS.length.
  destruct (Nat.eqb_spec (List.length actual) 0) as [H0 | H0];
    destruct (Z.eqb_spec (Z.of_nat (List.length actual)) 0); try lia;
    [ reflexivity | ].
  destruct (Nat.eqb_spec (List.length actual) (List.length predicted)) as [Hlen | Hlen];
    destruct (Z.eqb_spec (Z.of_nat (List.length actual))
                         (Z.of_nat (List.length predicted))); try lia;
    [ | reflexivity ].
  simpl. do 2 f_equal.
  unfold JS.for_range. rewrite Z.sub_0_r, Nat2Z.id, for_loop_fold.
  rewrite (fold_left_through
             (fun i => (App.num_at actual i, App.num_at predicted i)) accumulate_sum)
    by (intros s i; reflexivity).
  rewrite pairs_by_index by assumption.
  apply accumulate_sum_terms.
Qed.

End ModelMape.

(** [computeMape] of [App.tsx] on the examples of the specification. *)
Lemma App_computeMape_example :
  App.computeMape [0; 10]%float [5; 12]%float = 20%float /\
  App.computeMape [0; 0]%float [5; 12]%float = nan /\
  App.computeMape []%float []%float = nan /\
  App.computeMape [1]%float [1; 2]%float = nan.
Proof. repeat split; vm_compute; reflexivity. Qed.

(** C1, for [computeMape] of [timeSeriesModel.ts]: the indices skipped
    because the actual value is zero are still counted in the divisor, and
    the result is 0 rather than [NaN] when every actual value is zero. On
    actual [0, 10] and predicted [5, 12] it returns 10, where the
    percentage error of the specification, and [computeMape] of [App.tsx],
    give 20. The class reaches these inputs: on the values 1, 2, 3, 0, 10
    and a model that predicts 5 then 12, [calculateMapeOnTraining] returns
    10. *)
Theorem Model_computeMape_counts_skipped_indices :
  TimeSeriesModelTs.computeMape [0; 10]%float [5; 12]%float = 10%float /\
  percentage_error [0; 10]%float [5; 12]%float = 20%float /\
  App.computeMape [0; 10]%float [5; 12]%float = 20%float /\
  TimeSeriesModelTs.computeMape [0; 0]%float [5; 12]%float = 0%float /\
  percentage_error [0; 0]%float [5; 12]%float = nan /\
  Reference.inSampleMape Reference.two_answers_host
    (Reference.points [1; 2; 3; 0; 10]%float) = Some 10%float.
Proof.
  assert (Hsum : sum_in_order (valid_terms [0; 10]%float [5; 12]%float)
                 = 0x1.999999999999ap-3%float) by (vm_compute; reflexivity).
  split.
  - rewrite Model_computeMape_eq, Hsum. vm_compute. reflexivity.
  - repeat split; vm_compute; reflexivity.
Qed.

(** ** Dates *)

Section Dates.

Lemma MakeDay_carry (year month date : Z) :
  JS.MakeDay year month date
  = JS.day_of_month_start (year + month / 12) (month mod 12) + date - 1.
Proof. reflexivity. Qed.

Lemma for_loop_push {A : Type} (f : Z -> A) (n : nat) :
  forall (i : Z) (acc : list A),
    JS.for_loop n i (fun i acc => JS.push acc (f i)) acc = acc ++ map f (zrange i n).
Proof.
  induction n as [| n IH]; intros i acc.
  - simpl. now rewrite app_nil_r.
  - rewrite zrange_S. simpl. rewrite IH. unfold JS.push.
    now rewrite <- app_assoc.
Qed.

End Dates.

(** C2, as the code has it. Date normalization rejects nothing for its
    range: it is invalid exactly when the raw date has no three numeric
    fields under the format, or when the time value leaves the range of
    [Date]. Otherwise, with a year from 0 to 99 read in the 1900s
    ([MakeFullYear]), the date is the first day of the month, with months
    beyond December carried into the following years ([(m - 1) / 12] years
    later, month [(m - 1) mod 12]), plus [d - 1] days, whatever [d]. *)
Theorem parseDateFromFormat_carries (tza : Z) (dateStr dateFormat : string) :
  App.parseDateFromFormat tza dateStr dateFormat
  = match date_fields dateStr dateFormat with
    | Some (y, m, d) =>
        JS.TimeClip
          ((JS.day_of_month_start (JS.MakeFullYear y + (m - 1) / 12) ((m - 1) mod 12)
            + d - 1) * JS.msPerDay - tza)
    | None => None
    end.
Proof.
  unfold App.parseDateFromFormat, date_fields.
  destruct (JS.length (JS.split_separators dateStr) <? 3); [ reflexivity | ].
  set (parts := JS.split_separators dateStr).
  destruct (String.eqb dateFormat "Y/M/D");
    [ | destruct (String.eqb dateFormat "D/M/Y");
        [ | destruct (String.eqb dateFormat "M/D/Y"); [ | reflexivity ] ] ].
  all: destruct (App.parseInt_part parts 0) as [a |],
                (App.parseInt_part parts 1) as [b |],
                (App.parseInt_part parts 2) as [c |]; try reflexivity.
  all: unfold JS.Date_of_fields, JS.add_int; rewrite MakeDay_carry;
    now replace (b + -1) with (b - 1) by lia || now replace (a + -1) with (a - 1) by lia.
Qed.

(** C2 fails as stated: ["13/13/2024"] is a valid date under each of the
    three formats, all of which read 13 in the month position. Under
    [D/M/Y] and [M/D/Y] it is 2025-01-13, month 13 of 2024. Under [Y/M/D]
    the year is 13, read as 1913, and the day is 2024: the date is
    1919-07-17. A year of two digits is read in the 1900s under every
    format: ["15/13/24"] under [D/M/Y] is 1925-01-15. *)
Lemma parseDateFromFormat_month_13_wraps :
  date_fields "13/13/2024" "D/M/Y" = Some (2024, 13, 13) /\
  App.parseDateFromFormat 0 "13/13/2024" "D/M/Y" = Some 1736726400000 /\
  App.toISODate 0 (App.parseDateFromFormat 0 "13/13/2024" "D/M/Y") = "2025-01-13"%string /\
  date_fields "13/13/2024" "M/D/Y" = Some (2024, 13, 13) /\
  App.toISODate 0 (App.parseDateFromFormat 0 "13/13/2024" "M/D/Y") = "2025-01-13"%string /\
  App.parseDateFromFormat 0 "13/13/2024" "D/M/Y" <> JS.Date_invalid /\
  date_fields "13/13/2024" "Y/M/D" = Some (13, 13, 2024) /\
  App.toISODate 0 (App.parseDateFromFormat 0 "13/13/2024" "Y/M/D") = "1919-07-17"%string /\
  App.parseDateFromFormat 0 "13/13/2024" "Y/M/D" <> JS.Date_invalid /\
  App.parseDateFromFormat 0 "13/13/2024" "M/D/Y" <> JS.Date_invalid /\
  date_fields "15/13/24" "D/M/Y" = Some (24, 13, 15) /\
  App.toISODate 0 (App.parseDateFromFormat 0 "15/13/24" "D/M/Y") = "1925-01-15"%string.
Proof.
  repeat split; try (vm_compute; reflexivity); vm_compute; discriminate.
Qed.

(** The examples of the specification for the dates, on a host in UTC. *)
Lemma date_examples :
  App.toISODate 0 (App.parseDateFromFormat 0 "2024/03/15" "Y/M/D")
  = "2024-03-15"%string /\
  App.toISODate 0 (App.parseDateFromFormat 0 "15/03/2024" "D/M/Y")
  = "2024-03-15"%string /\
  App.parseDateFromFormat 0 "15/03" "D/M/Y" = JS.Date_invalid /\
  App.parseDateFromFormat 0 "15/marzo/2024" "D/M/Y" = JS.Date_invalid /\
  App.generateFutureDates (Reference.constant_host 0%float) "2024-03-15" 3
  = ["2024-03-16"; "2024-03-17"; "2024-03-18"]%string.
Proof. repeat split; vm_compute; reflexivity. Qed.

(** C7, as the code has it. When the anchor date is invalid or cannot be
    parsed, the future dates are the labels ["Futuro +1"], ...,
    ["Futuro +n"]. *)
Theorem generateFutureDates_fallback (H : Host) (lastDateStr : string) (n : Z)
  (Hinvalid : JS.Date_of_time (Date_parse H lastDateStr) = None) :
  App.generateFutureDates H lastDateStr n
  = map (fun i => ("Futuro +" ++ JS.string_of_int i)%string) (zrange 1 (Z.to_nat n))
  /\ JS.length (App.generateFutureDates H lastDateStr n) = Z.max 0 n.
Proof.
  assert (Heq : App.generateFutureDates H lastDateStr n
       = map (fun i => ("Futuro +" ++ JS.string_of_int i)%string) (zrange 1 (Z.to_nat n))).
  { unfold App.generateFutureDates, JS.getTime. rewrite Hinvalid.
    unfold JS.for_range. rewrite for_loop_push. simpl app.
    now replace (n + 1 - 1) with n by lia. }
  split; [ exact Heq | ].
  rewrite Heq. unfold JS.length. rewrite length_map, zrange_length. lia.
Qed.

Lemma generateFutureDates_fallback_witness :
  JS.Date_of_time (Date_parse (Reference.constant_host 0%float) "not-a-date") = None /\
  App.generateFutureDates (Reference.constant_host 0%float) "not-a-date" 2
  = ["Futuro +1"; "Futuro +2"]%string.
Proof.
  split; [ reflexivity | ].
  apply (generateFutureDates_fallback (Reference.constant_host 0%float) "not-a-date" 2).
  reflexivity.
Defined.

(** C7 fails as stated: the labels are not ["Future +1"], ["Future +2"]. *)
Lemma generateFutureDates_labels_are_Futuro :
  App.generateFutureDates (Reference.constant_host 0%float) "not-a-date" 2
  = ["Futuro +1"; "Futuro +2"]%string /\
  App.generateFutureDates (Reference.constant_host 0%float) "not-a-date" 2
  <> ["Future +1"; "Future +2"]%string.
Proof. split; [ reflexivity | vm_compute; discriminate ]. Qed.

(** ** Running the backend *)

Section Monad.

Lemma bind_normal {A B : Type} (c : M A) (k : A -> M B) (w w' : World) (a : A) :
  c w = (Normal a, w') -> bind c k w = k a w'.
Proof. intros Hc. unfold bind. now rewrite Hc. Qed.

Lemma bind_throw {A B : Type} (c : M A) (k : A -> M B) (w w' : World) (msg : string) :
  c w = (Throw msg, w') -> bind c k w = (Throw msg, w').
Proof. intros Hc. unfold bind. now rewrite Hc. Qed.

(** A loop whose body pushes one value and leaves the world alone. *)
Lemma for_loopM_push {A : Type} (body : Z -> list A -> M (list A)) (g : Z -> A)
  (w : World) (n : nat) :
  forall (lo : Z) (acc : list A),
    (forall i acc', lo <= i < lo + Z.of_nat n ->
       body i acc' w = (Normal (JS.push acc' (g i)), w)) ->
    for_loopM n lo body acc w = (Normal (acc ++ map g (zrange lo n)), w).
Proof.
  induction n as [| n IH]; intros lo acc Hbody.
  - simpl. now rewrite app_nil_r.
  - rewrite zrange_S. simpl.
    rewrite (bind_normal _ _ w w (JS.push acc (g lo))) by (apply Hbody; lia).
    rewrite IH by (intros i acc' Hi; apply Hbody; lia).
    unfold JS.push. now rewrite <- app_assoc.
Qed.

End Monad.

Section Backend.

Lemma length_map_Z {A B : Type} (f : A -> B) (l : list A) :
  JS.length (map f l) = JS.length l.
Proof. unfold JS.length. now rewrite length_map. Qed.

Lemma concat_singletons {A : Type} (l : list A) :
  List.concat (map (fun v => [v]) l) = l.
Proof. induction l as [| a l IH]; simpl; [ reflexivity | now rewrite IH ]. Qed.

Lemma forallb_singletons (l : list JS.number) :
  forallb (fun cell : list JS.number => JS.length cell =? 1) (map (fun v => [v]) l) = true.
Proof. induction l as [| a l IH]; simpl; [ reflexivity | exact IH ]. Qed.

(** One window as a tensor of shape [1, W, 1]. *)
(** An array whose first row has a cell is checked against the shape. *)
Lemma tensor3d_nested (row : list (list JS.number))
  (rows : list (list (list JS.number))) (a b c : Z) (w : World) :
  row <> [] ->
  tf.tensor3d (row :: rows) a b c w
  = (if (JS.length (row :: rows) =? a)
        && forallb (fun row =>
                      (JS.length row =? b)
                      && forallb (fun cell : list JS.number => JS.length cell =? c) row)
             (row :: rows)
     then ret {| shape := [a; b; c];
                 values := List.concat (List.concat (row :: rows)) |}
     else throw "tensor3d: the values do not match the shape") w.
Proof. intros Hrow. destruct row; [ contradiction | reflexivity ]. Qed.

Lemma singletons_not_nil (window : list JS.number) :
  1 <= JS.length window -> map (fun v : JS.number => [v]) window <> [].
Proof. destruct window; [ cbn; lia | discriminate ]. Qed.

Lemma tensor3d_window (window : list JS.number) (W : Z) (w : World) :
  JS.length window = W -> 1 <= W ->
  tf.tensor3d [map (fun v => [v]) window] 1 W 1 w
  = (Normal {| shape := [1; W; 1]; values := window |}, w).
Proof.
  intros Hlen HW.
  rewrite tensor3d_nested by (apply singletons_not_nil; lia).
  cbn [forallb].
  rewrite length_map_Z, Hlen, Z.eqb_refl, forallb_singletons.
  change (JS.length [map (fun v : JS.number => [v]) window] =? 1) with true.
  rewrite ?Z.eqb_refl. cbn [andb List.concat]. unfold ret.
  now rewrite app_nil_r, concat_singletons.
Qed.

Lemma tensor3d_window_mismatch (window : list JS.number) (W : Z) (w : World) :
  JS.length window <> W ->
  exists msg, tf.tensor3d [map (fun v => [v]) window] 1 W 1 w = (Throw msg, w).
Proof.
  intros Hlen.
  destruct window as [| v0 rest] eqn:Hwin; [ eexists; reflexivity | ].
  rewrite <- Hwin in *.
  rewrite tensor3d_nested by (rewrite Hwin; discriminate).
  cbn [forallb].
  rewrite length_map_Z.
  destruct (Z.eqb_spec (JS.length window) W); [ contradiction | ].
  cbn [andb]. rewrite andb_false_r. eexists. reflexivity.
Qed.

Lemma lookup_live (id : ModelId) (m : LayersModel) (w : World) :
  nth_error (models w) id = Some m -> isDisposed m = false ->
  tf.lookup id w = (Normal m, w).
Proof.
  intros Hnth Hlive. unfold tf.lookup, bind, tf.get_world.
  now rewrite Hnth, Hlive.
Qed.

Lemma predict_run (id : ModelId) (m : LayersModel) (window : list JS.number)
  (w : World) :
  nth_error (models w) id = Some m -> isDisposed m = false ->
  tf.predict id {| shape := [1; inputLength m; 1]; values := window |} w
  = (Normal {| shape := [1; 1]; values := [net m window] |}, w).
Proof.
  intros Hnth Hlive. unfold tf.predict.
  rewrite (bind_normal _ _ w w m) by (now apply lookup_live).
  cbn [shape values]. now rewrite Z.eqb_refl.
Qed.

Lemma predictWindow_run (id : ModelId) (m : LayersModel) (window : list JS.number)
  (w : World) :
  nth_error (models w) id = Some m -> isDisposed m = false ->
  JS.length window = inputLength m -> 1 <= inputLength m ->
  App.predictWindow id window (inputLength m) w = (Normal (net m window), w).
Proof.
  intros Hnth Hlive Hlen HW. unfold App.predictWindow.
  rewrite (bind_normal _ _ _ _ _ (tensor3d_window window _ w Hlen HW)).
  rewrite (bind_normal _ _ _ _ _ (predict_run id m window w Hnth Hlive)).
  reflexivity.
Qed.

Lemma slice_back (l : list JS.number) (i W : Z) :
  0 <= W -> W <= i <= JS.length l ->
  JS.slice l (i - W) i = window_at l (i - W) W.
Proof.
  intros HW Hi.
  replace (JS.slice l (i - W) i) with (JS.slice l (i - W) (i - W + W)) by (f_equal; lia).
  apply slice_window; lia.
Qed.

Lemma predictOnTest_run (id : ModelId) (m : LayersModel) (tv : list JS.number)
  (w : World) :
  nth_error (models w) id = Some m -> isDisposed m = false ->
  1 <= inputLength m ->
  App.predictOnTest id tv (inputLength m) w
  = (Normal (map (fun i => net m (window_at tv (i - inputLength m) (inputLength m)))
                 (zrange (inputLength m) (Z.to_nat (JS.length tv - inputLength m)))),
     w).
Proof.
  intros Hnth Hlive HW. unfold App.predictOnTest, for_rangeM.
  rewrite (for_loopM_push _
             (fun i => net m (window_at tv (i - inputLength m) (inputLength m)))).
  - reflexivity.
  - intros i acc Hi.
    assert (Hin : inputLength m <= i <= JS.length tv) by lia.
    rewrite slice_back by lia.
    rewrite (bind_normal _ _ w w (net m (window_at tv (i - inputLength m) (inputLength m)))).
    + reflexivity.
    + apply predictWindow_run; try assumption.
      apply window_at_length; lia.
Qed.

End Backend.

(** ** The forecasting loop *)

Section Forecast.

Lemma slice_from_1 {A : Type} (l : list A) : JS.slice_from l 1 = tl l.
Proof.
  destruct l as [| a l]; [ reflexivity | ].
  unfold JS.slice_from, JS.slice, JS.clamp_index.
  set (len := JS.length (a :: l)).
  assert (Hlen : len = Z.of_nat (List.length l) + 1)
    by (unfold len, JS.length; cbn [List.length]; lia).
  change (1 <? 0) with false. cbv iota.
  destruct (Z.ltb_spec len 0); [ lia | ].
  replace (Z.min 1 len) with 1 by lia.
  replace (Z.min len len) with len by lia.
  change (Z.to_nat 1) with 1%nat. cbn [skipn tl].
  apply firstn_all2. lia.
Qed.

Lemma slice_from_last {A : Type} (l : list A) (W : Z) :
  0 < W -> JS.slice_from l (- W) = last_n l W.
Proof.
  intros HW. unfold JS.slice_from, JS.slice, JS.clamp_index, last_n.
  set (len := JS.length l).
  assert (Hlen : len = Z.of_nat (List.length l)) by reflexivity.
  destruct (Z.ltb_spec (- W) 0); [ | lia ].
  destruct (Z.ltb_spec len 0); [ lia | ].
  replace (Z.min len len) with len by lia.
  replace (Z.to_nat (Z.max (len + - W) 0))
    with (List.length l - Z.to_nat W)%nat by lia.
  apply firstn_all2. rewrite length_skipn. lia.
Qed.

Lemma last_n_length {A : Type} (l : list A) (W : Z) :
  0 <= W <= JS.length l -> JS.length (last_n l W) = W.
Proof.
  intros HW. unfold last_n, JS.length in *. rewrite length_skipn. lia.
Qed.

Lemma tl_skipn {A : Type} (n : nat) :
  forall l : list A, tl (skipn n l) = skipn (S n) l.
Proof.
  induction n as [| n IH]; intros [| a l]; try reflexivity.
  simpl skipn at 1. rewrite IH. reflexivity.
Qed.

Lemma last_n_snoc {A : Type} (base : list A) (v : A) (W : Z) :
  1 <= W <= JS.length base ->
  tl (last_n base W) ++ [v] = last_n (base ++ [v]) W.
Proof.
  intros HW. unfold last_n, JS.length in *.
  rewrite tl_skipn, length_app. cbn [List.length].
  replace (List.length base + 1 - Z.to_nat W)%nat
    with (S (List.length base - Z.to_nat W)) by lia.
  rewrite skipn_app.
  replace (S (List.length base - Z.to_nat W) - List.length base)%nat with O by lia.
  reflexivity.
Qed.

Lemma autoregress_length (f : list JS.number -> JS.number) (n : nat) :
  forall cw, List.length (autoregress f n cw) = n.
Proof. induction n as [| n IH]; intros cw; simpl; [ reflexivity | now rewrite IH ]. Qed.

(** Each forecast is made from the last [W] values of the series extended
    by the forecasts before it. *)
Lemma autoregress_nth (f : list JS.number -> JS.number) (W : Z) (n : nat) :
  forall (base : list JS.number) (k : nat),
    1 <= W <= JS.length base -> (k < n)%nat ->
    nth_error (autoregress f n (last_n base W)) k
    = Some (f (last_n (base ++ firstn k (autoregress f n (last_n base W))) W)).
Proof.
  induction n as [| n IH]; intros base k HW Hk; [ lia | ].
  destruct k as [| k]; simpl.
  - now rewrite app_nil_r.
  - rewrite last_n_snoc by assumption.
    rewrite IH.
    + now rewrite <- app_assoc.
    + unfold JS.length in *. rewrite length_app. cbn [List.length]. lia.
    + lia.
Qed.

Lemma forecast_loop (id : ModelId) (m : LayersModel) (w : World) (n : nat) :
  nth_error (models w) id = Some m -> isDisposed m = false ->
  1 <= inputLength m ->
  forall (lo : Z) (cw ff : list JS.number),
    JS.length cw = inputLength m ->
    for_loopM n lo
      (fun (_ : Z) '(currentWindow, futureForecasts) =>
         val <- App.predictWindow id currentWindow (inputLength m) ;;
         ret (JS.slice_from currentWindow 1 ++ [val],
              JS.push futureForecasts val))
      (cw, ff) w
    = (Normal (autoregress_window (net m) n cw, ff ++ autoregress (net m) n cw), w).
Proof.
  intros Hnth Hlive HW.
  induction n as [| n IH]; intros lo cw ff Hlen.
  - simpl. now rewrite app_nil_r.
  - cbn [for_loopM].
    rewrite (bind_normal _ _ w w
               (tl cw ++ [net m cw], JS.push ff (net m cw))).
    + rewrite IH.
      * cbn [autoregress autoregress_window]. unfold JS.push.
        now rewrite <- app_assoc.
      * unfold JS.length in *. rewrite length_app. cbn [List.length].
        destruct cw as [| a cw]; cbn [List.length tl] in *; lia.
    + rewrite (bind_normal _ _ w w (net m cw))
        by (now apply predictWindow_run).
      now rewrite slice_from_1.
Qed.

Lemma forecastFuture_run (id : ModelId) (m : LayersModel) (w : World)
  (fullValues : list JS.number) (periods : Z) :
  nth_error (models w) id = Some m -> isDisposed m = false ->
  1 <= inputLength m <= JS.length fullValues ->
  App.forecastFuture id fullValues (inputLength m) periods w
  = (Normal (autoregress_window (net m) (Z.to_nat periods)
               (last_n fullValues (inputLength m)),
             autoregress (net m) (Z.to_nat periods)
               (last_n fullValues (inputLength m))), w).
Proof.
  intros Hnth Hlive HW. unfold App.forecastFuture, for_rangeM.
  rewrite slice_from_last by lia. rewrite Z.sub_0_r.
  rewrite (forecast_loop id m w _ Hnth Hlive) by (try apply last_n_length; lia).
  reflexivity.
Qed.

End Forecast.

(** ** Training one configuration *)

Section Training.

Lemma all_defined_Some (l : list JS.number) : tf.all_defined (map Some l) = Some l.
Proof. induction l as [| a l IH]; simpl; [ reflexivity | now rewrite IH ]. Qed.

Lemma tensor3d_rows (X : list (list JS.number)) (W : Z) (w : World) :
  1 <= W ->
  (forall row, In row X -> JS.length row = W) ->
  tf.tensor3d (map (fun seq => map (fun val : JS.number => [val]) seq) X)
    (JS.length (map (fun seq => map (fun val : JS.number => [val]) seq) X)) W 1 w
  = (Normal {| shape := [JS.length (map (fun seq => map (fun val : JS.number => [val]) seq) X); W; 1];
               values := List.concat (List.concat
                 (map (fun seq => map (fun val : JS.number => [val]) seq) X)) |}, w).
Proof.
  intros HW Hrows.
  destruct X as [| row0 X0] eqn:HX.
  { unfold tf.tensor3d. cbn [map].
    change (JS.length (@nil (list (list JS.number)))) with 0.
    destruct (Z.leb_spec 0 W); [ reflexivity | lia ]. }
  rewrite <- HX in *.
  assert (Hfirst : map (fun val : JS.number => [val]) row0 <> []).
  { apply singletons_not_nil. rewrite (Hrows row0); [ lia | ].
    rewrite HX. now left. }
  rewrite HX at 1. cbn [map]. rewrite tensor3d_nested by exact Hfirst.
  change (map (fun val : JS.number => [val]) row0
          :: map (fun seq => map (fun val : JS.number => [val]) seq) X0)
    with (map (fun seq => map (fun val : JS.number => [val]) seq) (row0 :: X0)).
  rewrite <- HX.
  rewrite Z.eqb_refl. cbn [andb].
  replace (forallb _ _) with true; [ reflexivity | ].
  symmetry. apply forallb_forall. intros row3 Hin.
  apply in_map_iff in Hin. destruct Hin as (row & <- & Hrow).
  rewrite length_map_Z, (Hrows row Hrow), Z.eqb_refl.
  apply forallb_singletons.
Qed.

Lemma tensor2d_labels (l : list JS.number) (w : World) :
  tf.tensor2d (map Some l) (JS.length (map Some l)) 1 w
  = (Normal {| shape := [JS.length (map Some l); 1]; values := l |}, w).
Proof.
  unfold tf.tensor2d. rewrite all_defined_Some, length_map_Z.
  rewrite Z.mul_1_r, Z.eqb_refl. reflexivity.
Qed.

Lemma replace_last {A : Type} (l : list A) (x y : A) :
  tf.replace (l ++ [x]) (List.length l) y = l ++ [y].
Proof. induction l as [| a l IH]; simpl; [ reflexivity | now rewrite IH ]. Qed.

Lemma replace_length {A : Type} (l : list A) :
  forall (n : nat) (x : A), List.length (tf.replace l n x) = List.length l.
Proof.
  induction l as [| a l IH]; intros [| n] x; simpl; try reflexivity.
  now rewrite IH.
Qed.

Lemma replace_nth_other {A : Type} (l : list A) :
  forall (n k : nat) (x : A), n <> k ->
    nth_error (tf.replace l n x) k = nth_error l k.
Proof.
  induction l as [| a l IH]; intros [| n] [| k] x Hne; simpl; try reflexivity;
    try contradiction.
  apply IH. lia.
Qed.

Lemma replace_nth_same {A : Type} (l : list A) :
  forall (n : nat) (x : A), (n < List.length l)%nat ->
    nth_error (tf.replace l n x) n = Some x.
Proof.
  induction l as [| a l IH]; intros [| n] x Hn; simpl in *; try lia; try reflexivity.
  apply IH. lia.
Qed.

Lemma nth_error_last {A : Type} (l : list A) (x : A) :
  nth_error (l ++ [x]) (List.length l) = Some x.
Proof. rewrite nth_error_app2 by lia. now rewrite Nat.sub_diag. Qed.

(** Building the model: it is the next in the list, and one event. *)
Lemma sequential_run (H : Host) (u W : Z) (w : World) :
  tf.sequential_lstm_dense H u W w
  = (Normal (List.length (models w)),
     with_models w
       (models w ++ [{| inputLength := W; units := u;
                        net := initial_net H (List.length (models w)) W u;
                        isDisposed := false |}])
       (events w ++ [Created (List.length (models w))])).
Proof. reflexivity. Qed.

Lemma dispose_run (id : ModelId) (m : LayersModel) (w : World) :
  nth_error (models w) id = Some m -> isDisposed m = false ->
  tf.dispose id w
  = (Normal tt,
     with_models w (tf.replace (models w) id (disposedModel m))
       (events w ++ [Disposed id])).
Proof.
  intros Hnth Hlive. unfold tf.dispose.
  rewrite (bind_normal _ _ w w m) by (now apply lookup_live).
  reflexivity.
Qed.

(** [trainAndEvaluate] never fails on a window size of at least 1: it
    builds one model, the next in the list, trains it, and returns it
    with its test error. *)
Lemma trainAndEvaluate_run (H : Host) (trainData testData : list TimeSeriesData)
  (W u epochs : Z) (w : World) :
  1 <= W ->
  App.trainAndEvaluate H trainData testData W u epochs w
  = (Normal (List.length (models w),
             testError (trainedModel H (List.length (models w)) W u trainData epochs)
               testData),
     with_models w
       (models w ++ [trainedModel H (List.length (models w)) W u trainData epochs])
       (events w ++ [Created (List.length (models w))])).
Proof.
  intros HW. unfold App.trainAndEvaluate.
  pose proof (createSequences_labels (map value trainData) W ltac:(lia)) as HY.
  pose proof (createSequences_rows (map value trainData) W ltac:(lia)) as HX.
  unfold trainedModel, trainingInputs, trainingLabels.
  destruct (App.createSequences (map value trainData) W) as [X Y].
  cbn [fst snd] in *. subst Y.
  rewrite (bind_normal _ _ _ _ _ (tensor3d_rows X W w HW HX)).
  rewrite (bind_normal _ _ _ _ _ (tensor2d_labels _ w)).
  rewrite (bind_normal _ _ _ _ _ (sequential_run H u W w)).
  set (id := List.length (models w)).
  set (tX := {| shape := _ :: _; values := List.concat _ |}).
  set (tY := {| shape := [_; 1]; values := _ |}).
  set (m0 := {| inputLength := W; units := u; net := initial_net H id W u;
                isDisposed := false |}).
  set (w1 := with_models w (models w ++ [m0]) (events w ++ [Created id])).
  set (m1 := {| inputLength := W; units := u; net := trained_net H id W u tX tY epochs;
                isDisposed := false |}).
  assert (Hfit : tf.fit H id tX tY epochs w1
                 = (Normal tt, with_models w (models w ++ [m1]) (events w ++ [Created id]))).
  { unfold tf.fit.
    rewrite (bind_normal _ _ w1 w1 m0)
      by (apply lookup_live; [ apply nth_error_last | reflexivity ]).
    cbn [shape tX inputLength m0]. rewrite Z.eqb_refl.
    unfold bind, tf.get_world, tf.set_models, with_models, w1. cbn.
    unfold id. rewrite replace_last. reflexivity. }
  rewrite (bind_normal _ _ _ _ _ Hfit).
  set (w2 := with_models w (models w ++ [m1]) (events w ++ [Created id])).
  assert (Hpred := predictOnTest_run id m1 (map value testData) w2).
  cbn [inputLength m1] in Hpred.
  rewrite (bind_normal _ _ _ _ _ (Hpred (nth_error_last _ _) eq_refl HW)).
  reflexivity.
Qed.

End Training.

(** ** The choice among candidates *)

Section ChoiceFacts.

Lemma candidates_ids (H : Host) (trainData testData : list TimeSeriesData)
  (configs : list (Z * Z)) :
  forall id : ModelId,
    map candidateId (candidates H trainData testData id configs)
    = seq id (List.length configs).
Proof.
  induction configs as [| [W u] configs IH]; intros id; [ reflexivity | ].
  cbn [candidates map List.length seq]. now rewrite IH.
Qed.

Lemma candidates_length (H : Host) (trainData testData : list TimeSeriesData)
  (configs : list (Z * Z)) (id : ModelId) :
  List.length (candidates H trainData testData id configs) = List.length configs.
Proof.
  rewrite <- (length_map candidateId), candidates_ids. apply length_seq.
Qed.

(** The best error never increases, in the sense that nothing seen so far
    is below it. *)
Lemma choose_bound (cs : list Candidate) :
  forall (acc : Choice) (x : JS.number),
    (x <? chosenError acc)%float = false ->
    (x <? chosenError (fold_left choose cs acc))%float = false.
Proof.
  induction cs as [| [[W id] e] cs IH]; intros acc x Hx; [ exact Hx | ].
  cbn [fold_left]. apply IH. unfold choose.
  destruct (e <? chosenError acc)%float eqn:Hlt; [ | exact Hx ].
  cbn [chosenError fst].
  destruct (x <? e)%float eqn:Hxe; [ | reflexivity ].
  rewrite (ltb_trans x e (chosenError acc) Hxe Hlt) in Hx. discriminate.
Qed.

Lemma choose_seen (acc : Choice) (c : Candidate) :
  (candidateError c <? chosenError (choose acc c))%float = false.
Proof.
  destruct c as [[W id] e]. unfold choose. cbn [candidateError snd].
  destruct (e <? chosenError acc)%float eqn:Hlt; [ apply ltb_irrefl | exact Hlt ].
Qed.

(** A model that is not among the candidates is chosen at the end only if
    it was chosen at the start. *)
Lemma choose_model_from (cs : list Candidate) :
  forall (acc : Choice) (b : ModelId),
    chosenModel (fold_left choose cs acc) = Some b ->
    chosenModel acc = Some b \/ In b (map candidateId cs).
Proof.
  induction cs as [| [[W id] e] cs IH]; intros acc b Hb; [ now left | ].
  cbn [fold_left] in Hb. destruct (IH _ _ Hb) as [Hc | Hin].
  - unfold choose in Hc. destruct (e <? chosenError acc)%float.
    + right. left. cbn in Hc. cbn. congruence.
    + now left.
  - right. now right.
Qed.

End ChoiceFacts.

(** ** The sweep *)

Section Sweep.

Variable H : Host.
Variables trainData testData : list TimeSeriesData.

Lemma candidates_app (configs : list (Z * Z)) :
  forall (id : ModelId) (W u : Z),
    candidates H trainData testData id (configs ++ [(W, u)])
    = candidates H trainData testData id configs
      ++ [(W, (id + List.length configs)%nat,
           testError (trainedModel H (id + List.length configs)%nat W u trainData 1000)
             testData)].
Proof.
  induction configs as [| [W' u'] configs IH]; intros id W u; simpl.
  - now rewrite Nat.add_0_r.
  - rewrite IH. now rewrite Nat.add_succ_r.
Qed.

Lemma sweepEvents_app (cs : list Candidate) :
  forall (acc : Choice) (c : Candidate),
    sweepEvents acc (cs ++ [c])
    = sweepEvents acc cs ++ [iterationEvents (fold_left choose cs acc) c].
Proof.
  induction cs as [| c' cs IH]; intros acc c; simpl; [ reflexivity | ].
  now rewrite IH.
Qed.

(** The comparison: the outcome is [choose], the events are those of the
    iteration after the creation, and the model retained is untouched. *)
Lemma keepBest_run (W : Z) (id : ModelId) (e : JS.number) (v : App.SweepVars)
  (w : World) (m : LayersModel) :
  nth_error (models w) id = Some m -> isDisposed m = false ->
  (forall b, App.bestModel v = Some b ->
     b <> id /\ exists mb, nth_error (models w) b = Some mb /\ isDisposed mb = false) ->
  exists v' w',
    App.keepBest W id e v w = (Normal v', w') /\
    choice_of v' = choose (choice_of v) (W, id, e) /\
    App.combosProcessed v' = App.combosProcessed v /\
    app w' = app w /\ console w' = console w /\
    List.length (models w') = List.length (models w) /\
    events w' = events w ++ tl (iterationEvents (choice_of v) (W, id, e)) /\
    (forall b, App.bestModel v' = Some b ->
       nth_error (models w') b = nth_error (models w) b) /\
    (forall k, k <> id -> App.bestModel v <> Some k ->
       nth_error (models w') k = nth_error (models w) k).
Proof.
  intros Hid Hlive Hbest. unfold App.keepBest, choose, iterationEvents.
  unfold choice_of, chosenError, chosenModel. cbn [fst snd].
  destruct (e <? App.bestMape v)%float.
  - destruct (App.bestModel v) as [b |] eqn:Hb.
    + destruct (Hbest b eq_refl) as (Hne & mb & Hnb & Hlb).
      rewrite (bind_normal _ _ _ _ _ (dispose_run b mb w Hnb Hlb)).
      do 2 eexists. split; [ reflexivity | ].
      cbn. repeat split.
      * apply replace_length.
      * intros b' Hb'. injection Hb' as <-. now apply replace_nth_other.
      * intros k _ Hk. apply replace_nth_other. congruence.
    + do 2 eexists. split; [ reflexivity | ].
      cbn. repeat split.
      now rewrite app_nil_r.
  - rewrite (bind_normal _ _ _ _ _ (dispose_run id m w Hid Hlive)).
    do 2 eexists. split; [ reflexivity | ].
    cbn. repeat split.
    + apply replace_length.
    + intros b Hb. destruct (Hbest b Hb) as (Hne & _).
      apply replace_nth_other. congruence.
    + intros k Hk _. apply replace_nth_other. congruence.
Qed.

Lemma sweepBody_run (w0 : World) (done : list (Z * Z)) (v : App.SweepVars)
  (w : World) (totalCombos : Z) (startTime : JS.number) (W u : Z) :
  SweepInv H trainData testData w0 done v w -> 1 <= W ->
  exists v' w',
    App.sweepBody H trainData testData totalCombos startTime W u v w
    = (Normal v', w') /\
    SweepInv H trainData testData w0 (done ++ [(W, u)]) v' w'.
Proof.
  intros [Iapp Icon Imod Iev Ich Iold Inone Ibest] HW.
  unfold App.sweepBody.
  rewrite (bind_normal _ _ _ _ _ (trainAndEvaluate_run H trainData testData W u 1000 w HW)).
  set (id := List.length (models w)).
  set (m := trainedModel H id W u trainData 1000).
  set (e := testError m testData).
  set (w1 := with_models w (models w ++ [m]) (events w ++ [Created id])).
  destruct (keepBest_run W id e v w1 m)
    as (v1 & w2 & Hrun & Hch & Hcp & Happ & Hcon & Hlen & Hev & Hkeep & Hothers).
  { apply nth_error_last. }
  { reflexivity. }
  { intros b Hb. destruct (Ibest b Hb) as (Wb & ub & _ & _ & _ & _ & Hnb).
    assert (b < id)%nat by (apply nth_error_Some; unfold id; congruence).
    split; [ lia | ].
    exists (trainedModel H b Wb ub trainData 1000). split; [ | reflexivity ].
    unfold w1. cbn [models with_models]. rewrite nth_error_app1 by assumption.
    exact Hnb. }
  rewrite (bind_normal _ _ _ _ _ Hrun).
  cbv [bind App.setProgress App.setTimeLeft modify_app now ret].
  do 2 eexists. split; [ reflexivity | ].
  assert (Hid : id = (List.length (models w0) + List.length done)%nat) by exact Imod.
  assert (Hcands :
    candidates H trainData testData (List.length (models w0)) (done ++ [(W, u)])
    = candidates H trainData testData (List.length (models w0)) done ++ [(W, id, e)]).
  { rewrite candidates_app. unfold e, m. now rewrite <- Hid. }
  constructor; cbn [app models events console clock
                    App.bestModel App.bestMape App.bestWindowSize App.combosProcessed].
  - rewrite Happ. unfold w1. cbn [app with_models].
    destruct Iapp as (? & ? & ? & ? & ? & ? & ? & ?).
    unfold sameResults. cbn. repeat split; assumption.
  - rewrite Hcon. exact Icon.
  - rewrite Hlen. unfold w1. cbn [models with_models].
    rewrite !length_app. cbn [List.length]. lia.
  - rewrite Hev. unfold w1. cbn [events with_models].
    rewrite Hcands, sweepEvents_app, concat_app, Iev, <- Ich.
    cbn [List.concat]. rewrite app_nil_r, <- !app_assoc.
    reflexivity.
  - rewrite Hcands, fold_left_app, <- Ich. cbn [fold_left].
    exact Hch.
  - intros k Hk.
    assert (Hkid : (k < id)%nat) by lia.
    rewrite Hothers.
    + unfold w1. cbn [models with_models].
      rewrite nth_error_app1 by exact Hkid. now apply Iold.
    + lia.
    + intros Hbk. destruct (Ibest k Hbk) as (Wk & uk & Hin & _).
      change (App.bestModel v) with (chosenModel (choice_of v)) in Hbk.
      rewrite Ich in Hbk.
      apply choose_model_from in Hbk. destruct Hbk as [Hbk | Hbk];
        [ discriminate Hbk | ].
      rewrite candidates_ids in Hbk. apply in_seq in Hbk. lia.
  - intros Hnone.
    pose proof (f_equal chosenModel Hch) as Hch'.
    change (chosenModel (choice_of v1)) with (App.bestModel v1) in Hch'.
    pose proof (f_equal chosenError Hch) as He.
    change (chosenError (choice_of v1)) with (App.bestMape v1) in He.
    rewrite Hnone in Hch'. unfold choose in Hch', He.
    destruct (e <? chosenError (choice_of v))%float; [ discriminate Hch' | ].
    rewrite He. apply Inone. symmetry. exact Hch'.
  - intros b Hb. rewrite (Hkeep b Hb).
    pose proof (f_equal chosenModel Hch) as Hch'.
    change (chosenModel (choice_of v1)) with (App.bestModel v1) in Hch'.
    pose proof (f_equal (@snd _ _) Hch) as Hw.
    change (snd (choice_of v1)) with (App.bestWindowSize v1) in Hw.
    pose proof (f_equal chosenError Hch) as He.
    change (chosenError (choice_of v1)) with (App.bestMape v1) in He.
    rewrite Hb in Hch'. unfold choose, chosenModel in Hch', Hw.
    unfold choose in He.
    destruct (e <? chosenError (choice_of v))%float eqn:Hlt.
    + cbn [fst snd] in Hch', Hw. injection Hch' as ->.
      change (chosenError (e, Some id, W)) with e in He.
      exists W, u. split; [ apply in_or_app; right; left; reflexivity | ].
      split; [ rewrite Hw; reflexivity | ].
      split; [ exact He | ].
      split.
      * rewrite He. change (chosenError (choice_of v)) with (App.bestMape v) in Hlt.
        destruct (App.bestModel v) as [b0 |] eqn:Hb0.
        -- destruct (Ibest b0 eq_refl) as (_ & _ & _ & _ & _ & Hfin & _).
           exact (ltb_trans _ _ _ Hlt Hfin).
        -- rewrite (Inone eq_refl) in Hlt. exact Hlt.
      * unfold w1. cbn [models with_models]. apply nth_error_last.
    + cbn [choice_of fst snd] in Hch', Hw. symmetry in Hch'.
      change (chosenError (choice_of v)) with (App.bestMape v) in He.
      destruct (Ibest b Hch') as (Wb & ub & Hin & HWb & Herr & Hfin & Hnb).
      exists Wb, ub. split; [ apply in_or_app; now left | ].
      split; [ rewrite Hw; exact HWb | ].
      split; [ rewrite He; exact Herr | ].
      split; [ rewrite He; exact Hfin | ].
      unfold w1. cbn [models with_models].
      rewrite nth_error_app1; [ exact Hnb | ].
      apply nth_error_Some. congruence.
Qed.

End Sweep.

Section SweepRun.

Variable H : Host.
Variables trainData testData : list TimeSeriesData.

Lemma for_of_app {A S : Type} (body : A -> S -> M S) (l1 l2 : list A) :
  forall (s : S) (w : World),
    for_of (l1 ++ l2) body s w = bind (for_of l1 body s) (for_of l2 body) w.
Proof.
  induction l1 as [| a l1 IH]; intros s w; [ reflexivity | ].
  simpl. unfold bind in *.
  destruct (body a s w) as [[s' | msg] w']; [ | reflexivity ].
  apply IH.
Qed.

Lemma for_of_map {A B S : Type} (f : A -> B) (body : B -> S -> M S) (l : list A) :
  forall (s : S) (w : World),
    for_of (map f l) body s w = for_of l (fun a => body (f a)) s w.
Proof.
  induction l as [| a l IH]; intros s w; [ reflexivity | ].
  simpl. unfold bind.
  destruct (body (f a) s w) as [[s' | msg] w']; [ apply IH | reflexivity ].
Qed.

(** Two nested loops are one loop over the configurations. *)
Lemma for_of_nested {S : Type} (body : Z -> Z -> S -> M S) (ws us : list Z) :
  forall (s : S) (w : World),
    for_of ws (fun w v => for_of us (fun u v => body w u v) v) s w
    = for_of (configurations ws us) (fun c v => body (fst c) (snd c) v) s w.
Proof.
  induction ws as [| a ws IH]; intros s w; [ reflexivity | ].
  unfold configurations. simpl. rewrite for_of_app.
  unfold bind. rewrite for_of_map. simpl.
  destruct (for_of us (fun u v => body a u v) s w) as [[s' | msg] w'];
    [ apply IH | reflexivity ].
Qed.

Lemma sweep_configs_run (w0 : World) (totalCombos : Z) (startTime : JS.number)
  (rest : list (Z * Z)) :
  forall (done : list (Z * Z)) (v : App.SweepVars) (w : World),
    SweepInv H trainData testData w0 done v w ->
    (forall c, In c rest -> 1 <= fst c) ->
    exists v' w',
      for_of rest
        (fun c v => App.sweepBody H trainData testData totalCombos startTime
                      (fst c) (snd c) v) v w
      = (Normal v', w') /\
      SweepInv H trainData testData w0 (done ++ rest) v' w'.
Proof.
  induction rest as [| [W u] rest IH]; intros done v w Inv Hpos.
  - exists v, w. rewrite app_nil_r. split; [ reflexivity | exact Inv ].
  - destruct (sweepBody_run H trainData testData w0 done v w totalCombos startTime W u Inv)
      as (v1 & w1 & Hrun & Inv1).
    { apply (Hpos (W, u)). now left. }
    destruct (IH (done ++ [(W, u)]) v1 w1 Inv1) as (v' & w' & Hrest & Inv').
    { intros c Hc. apply Hpos. now right. }
    exists v', w'. cbn [for_of fst snd].
    rewrite (bind_normal _ _ _ _ _ Hrun).
    split; [ exact Hrest | ]. now rewrite <- app_assoc in Inv'.
Qed.

Lemma configurations_windows (ws us : list Z) (c : Z * Z) :
  In c (configurations ws us) -> In (fst c) ws.
Proof.
  unfold configurations. intros Hc. apply in_flat_map in Hc.
  destruct Hc as (w & Hw & Hc). apply in_map_iff in Hc.
  destruct Hc as (u & <- & _). exact Hw.
Qed.

(** The sweep never fails on window sizes that are not negative, and ends
    in a state that satisfies the invariant for all the configurations. *)
Lemma sweep_run (ws us : list Z) (startTime : JS.number) (w : World) :
  Forall (fun W => 1 <= W) ws ->
  exists v w',
    App.sweep H trainData testData ws us startTime w = (Normal v, w') /\
    SweepInv H trainData testData w (configurations ws us) v w'.
Proof.
  intros Hws. unfold App.sweep. rewrite for_of_nested.
  apply (sweep_configs_run w _ startTime (configurations ws us) []).
  - constructor; try reflexivity.
    + unfold sameResults. repeat split.
    + cbn. lia.
    + cbn. now rewrite app_nil_r.
    + intros b Hb. discriminate Hb.
  - intros c Hc. apply configurations_windows in Hc.
    rewrite Forall_forall in Hws. now apply Hws.
Qed.

End SweepRun.

Section Choice.

(** A candidate whose error is not below the best so far is never
    retained, when no later candidate shares its model. *)
Lemma choose_skips (cs : list Candidate) (acc : Choice) (c : Candidate) :
  (candidateError c <? chosenError acc)%float = false ->
  chosenModel acc <> Some (candidateId c) ->
  ~ In (candidateId c) (map candidateId cs) ->
  chosenModel (fold_left choose (c :: cs) acc) <> Some (candidateId c).
Proof.
  intros Hlt Hacc Hnotin Hb. cbn [fold_left] in Hb.
  apply choose_model_from in Hb. destruct Hb as [Hb | Hin]; [ | contradiction ].
  destruct c as [[W id] e]. unfold choose in Hb. cbn [candidateError snd] in Hlt.
  rewrite Hlt in Hb. contradiction.
Qed.

(** First seen wins: of two candidates with identical errors, the later
    one is not retained. *)
Lemma first_seen_wins (cs : list Candidate) (acc : Choice) (i j : nat)
  (ci cj : Candidate) :
  NoDup (map candidateId cs) ->
  (forall c, In c cs -> chosenModel acc <> Some (candidateId c)) ->
  (i < j)%nat -> nth_error cs i = Some ci -> nth_error cs j = Some cj ->
  sameError (candidateError ci) (candidateError cj) ->
  chosenModel (fold_left choose cs acc) <> Some (candidateId cj).
Proof.
  intros Hnd Hfresh Hij Hi Hj Herr.
  destruct (nth_error_split cs j Hj) as (before & after & -> & Hlen).
  rewrite fold_left_app.
  rewrite map_app in Hnd. cbn [map] in Hnd.
  apply NoDup_remove in Hnd. destruct Hnd as (Hnd & Hnotin).
  apply choose_skips.
  - (* the error of [ci], seen before, is not below the best *)
    assert (Hib : nth_error before i = Some ci).
    { rewrite nth_error_app1 in Hi by lia. exact Hi. }
    destruct (nth_error_split before i Hib) as (b1 & b2 & -> & _).
    rewrite fold_left_app. cbn [fold_left].
    pose proof (choose_bound b2 _ _ (choose_seen (fold_left choose b1 acc) ci)) as Hci.
    destruct (candidateError cj <? _)%float eqn:Hcj; [ | reflexivity ].
    rewrite (sameError_ltb _ _ _ Herr Hcj) in Hci. discriminate.
  - intros Hb. apply choose_model_from in Hb. destruct Hb as [Hb | Hin].
    + apply (Hfresh cj); [ apply in_or_app; right; now left | exact Hb ].
    + apply Hnotin. apply in_or_app. now left.
  - intros Hin. apply Hnotin. apply in_or_app. now right.
Qed.

(** Candidates that are not below the best error change nothing. *)
Lemma choose_stays (after : list Candidate) :
  forall acc : Choice,
    (forall c, In c after -> (candidateError c <? chosenError acc)%float = false) ->
    fold_left choose after acc = acc.
Proof.
  induction after as [| [[W id] e] after IH]; intros acc Hafter; [ reflexivity | ].
  cbn [fold_left].
  assert (Hc : choose acc (W, id, e) = acc).
  { pose proof (Hafter (W, id, e) (or_introl eq_refl)) as He.
    cbn [candidateError snd] in He. unfold choose. now rewrite He. }
  rewrite Hc. apply IH. intros c Hin. apply Hafter. now right.
Qed.

(** An error that is below every candidate that is a number, and below
    the best error, stays below the best error. *)
Lemma choose_above (before : list Candidate) (x : JS.number) :
  forall acc : Choice,
    (x <? chosenError acc)%float = true ->
    (forall c, In c before ->
       (x <? candidateError c)%float = true
       \/ JS.strict_eq (candidateError c) (candidateError c) = false) ->
    (x <? chosenError (fold_left choose before acc))%float = true.
Proof.
  induction before as [| [[W id] e] before IH]; intros acc Hacc Hbefore;
    [ exact Hacc | ].
  cbn [fold_left]. apply IH; [ | intros c Hin; apply Hbefore; now right ].
  unfold choose. destruct (e <? chosenError acc)%float eqn:Hlt; [ | exact Hacc ].
  cbn [chosenError fst].
  destruct (Hbefore (W, id, e) (or_introl eq_refl)) as [Hx | Hnan]; [ exact Hx | ].
  cbn [candidateError snd] in Hnan.
  rewrite (nan_not_below e _ Hnan) in Hlt. discriminate.
Qed.

(** The first candidate at the minimum is the one retained. *)
Lemma first_minimum_wins (before after : list Candidate) (ci : Candidate)
  (acc : Choice) :
  (candidateError ci <? chosenError acc)%float = true ->
  (forall c, In c before ->
     (candidateError ci <? candidateError c)%float = true
     \/ JS.strict_eq (candidateError c) (candidateError c) = false) ->
  (forall c, In c after ->
     (candidateError c <? candidateError ci)%float = false) ->
  fold_left choose (before ++ ci :: after) acc
  = (candidateError ci, Some (candidateId ci), fst (fst ci)).
Proof.
  intros Hacc Hbefore Hafter.
  rewrite fold_left_app. cbn [fold_left].
  pose proof (choose_above before _ acc Hacc Hbefore) as Hi.
  destruct ci as [[W id] e]. cbn [candidateError candidateId fst snd] in *.
  assert (Hc : choose (fold_left choose before acc) (W, id, e) = (e, Some id, W)).
  { unfold choose at 1. now rewrite Hi. }
  rewrite Hc. apply choose_stays. exact Hafter.
Qed.

End Choice.

(** ** The selection of the best model *)

Section Selection.

(** The comparison replaces the best model exactly when the error of the
    candidate is strictly below the best error. *)
Lemma keepBest_replaces_iff (W : Z) (id : ModelId) (e : JS.number)
  (v v' : App.SweepVars) (w w' : World) :
  App.keepBest W id e v w = (Normal v', w') ->
  App.bestModel v <> Some id ->
  (App.bestModel v' = Some id <-> (e <? App.bestMape v)%float = true).
Proof.
  unfold App.keepBest. intros Hrun Hne.
  destruct (e <? App.bestMape v)%float.
  - assert (Hv : App.bestModel v' = Some id); [ | now split ].
    unfold bind in Hrun.
    destruct (App.bestModel v) as [b |].
    + destruct (tf.dispose b w) as [[[] | msg] w1]; [ | discriminate ].
      injection Hrun as <- _. reflexivity.
    + cbn in Hrun. injection Hrun as <- _. reflexivity.
  - unfold bind in Hrun.
    destruct (tf.dispose id w) as [[[] | msg] w1]; [ | discriminate ].
    injection Hrun as <- _. split; [ contradiction | discriminate ].
Qed.

End Selection.

(** C4. In the sweep a candidate replaces the best model exactly when its
    test error is strictly below the best error so far. The sweep always
    completes, and what it retains is the choice among its candidates, in
    order. Of two configurations with identical test errors, the model of
    the later one is not the one retained; and the first configuration
    whose error is a minimum (nothing after it is strictly below it,
    everything before it is strictly above it or is [NaN]) is the one
    retained. *)
Theorem sweep_strictly_better_first_seen_wins (H : Host)
  (trainData testData : list TimeSeriesData) (ws us : list Z)
  (startTime : JS.number) (w : World)
  (Hws : Forall (fun W => 1 <= W) ws) :
  (forall W id e v v' w1 w1',
     App.keepBest W id e v w1 = (Normal v', w1') ->
     App.bestModel v <> Some id ->
     (App.bestModel v' = Some id <-> (e <? App.bestMape v)%float = true)) /\
  exists v w',
    App.sweep H trainData testData ws us startTime w = (Normal v, w') /\
    choice_of v
    = fold_left choose
        (candidates H trainData testData (List.length (models w))
           (configurations ws us))
        initialChoice /\
    (forall i j ci cj,
       (i < j)%nat ->
       nth_error (candidates H trainData testData (List.length (models w))
                    (configurations ws us)) i = Some ci ->
       nth_error (candidates H trainData testData (List.length (models w))
                    (configurations ws us)) j = Some cj ->
       sameError (candidateError ci) (candidateError cj) ->
       App.bestModel v <> Some (candidateId cj)) /\
    (forall before ci after,
       candidates H trainData testData (List.length (models w))
         (configurations ws us) = before ++ ci :: after ->
       (candidateError ci <? JS.Infinity)%float = true ->
       (forall c, In c before ->
          (candidateError ci <? candidateError c)%float = true
          \/ JS.strict_eq (candidateError c) (candidateError c) = false) ->
       (forall c, In c after ->
          (candidateError c <? candidateError ci)%float = false) ->
       App.bestModel v = Some (candidateId ci) /\
       App.bestMape v = candidateError ci).
Proof.
  split; [ intros W id e v v' w1 w1'; apply keepBest_replaces_iff | ].
  destruct (sweep_run H trainData testData ws us startTime w Hws)
    as (v & w' & Hrun & Inv).
  exists v, w'. split; [ exact Hrun | ].
  split; [ apply (inv_choice Inv) | ].
  split.
  - intros i j ci cj Hij Hi Hj Herr.
    change (App.bestModel v) with (chosenModel (choice_of v)).
    rewrite (inv_choice Inv).
    apply (first_seen_wins _ _ i j ci cj); try assumption.
    + rewrite candidates_ids. apply seq_NoDup.
    + intros c _. discriminate.
  - intros before ci after Hcs Hfinite Hbefore Hafter.
    change (App.bestModel v) with (chosenModel (choice_of v)).
    change (App.bestMape v) with (chosenError (choice_of v)).
    rewrite (inv_choice Inv), Hcs.
    rewrite (first_minimum_wins before after ci initialChoice Hfinite Hbefore Hafter).
    split; reflexivity.
Qed.

Lemma sweep_strictly_better_first_seen_wins_witness :
  Forall (fun W => 1 <= W) [3; 5] /\
  exists v w',
    App.sweep (Reference.constant_host 100%float) (Reference.linear_series 0 24) (Reference.linear_series 24 6)
      [3; 5] [32; 64] 0%float (Reference.initial_world 30 5) = (Normal v, w') /\
    App.bestModel v = Some 0%nat.
Proof.
  split; [ repeat constructor; lia | ].
  destruct (sweep_strictly_better_first_seen_wins
              (Reference.constant_host 100%float) (Reference.linear_series 0 24)
              (Reference.linear_series 24 6) [3; 5] [32; 64] 0%float (Reference.initial_world 30 5))
    as (_ & v & w' & Hrun & Hchoice & _).
  - repeat constructor; lia.
  - exists v, w'. split; [ exact Hrun | ].
    change (App.bestModel v) with (chosenModel (choice_of v)).
    rewrite Hchoice. vm_compute. reflexivity.
Defined.

(** ** The models held during the sweep *)

Section Held.

Lemma heldFrom_app (held : list ModelId) (a b : list Event) :
  heldFrom held (a ++ b) = heldFrom (heldFrom held a) b.
Proof. apply fold_left_app. Qed.

Lemma remove_only (b : ModelId) : remove Nat.eq_dec b [b] = [].
Proof. cbn. destruct (Nat.eq_dec b b); [ reflexivity | contradiction ]. Qed.

Lemma remove_first (b id : ModelId) :
  b <> id -> remove Nat.eq_dec b [b; id] = [id].
Proof.
  intros Hne. cbn.
  destruct (Nat.eq_dec b b); [ | contradiction ].
  destruct (Nat.eq_dec b id); [ contradiction | reflexivity ].
Qed.

Lemma remove_second (b id : ModelId) :
  b <> id -> remove Nat.eq_dec id [b; id] = [b].
Proof.
  intros Hne. cbn.
  destruct (Nat.eq_dec id b); [ congruence | ].
  destruct (Nat.eq_dec id id); [ reflexivity | contradiction ].
Qed.

(** After an iteration the models held are the best model, alone. *)
Lemma iteration_held (acc : Choice) (c : Candidate) :
  chosenModel acc <> Some (candidateId c) ->
  heldFrom (option_list (chosenModel acc)) (iterationEvents acc c)
  = option_list (chosenModel (choose acc c)).
Proof.
  destruct c as [[W id] e]. unfold iterationEvents, choose, heldFrom.
  cbn [candidateId fst snd]. intros Hne.
  destruct (e <? chosenError acc)%float.
  - destruct (chosenModel acc) as [b |]; cbn [fold_left applyEvent option_list List.app].
    + assert (b <> id) by congruence. now rewrite remove_first.
    + reflexivity.
  - destruct (chosenModel acc) as [b |]; cbn [fold_left applyEvent option_list List.app].
    + assert (b <> id) by congruence. now rewrite remove_second.
    + now rewrite remove_only.
Qed.

(** Within an iteration the models held are among the best model and the
    candidate. *)
Lemma iteration_prefix (acc : Choice) (c : Candidate) (p q : list Event) :
  chosenModel acc <> Some (candidateId c) ->
  iterationEvents acc c = p ++ q ->
  incl (heldFrom (option_list (chosenModel acc)) p)
       (option_list (chosenModel acc) ++ [candidateId c]) /\
  (List.length (heldFrom (option_list (chosenModel acc)) p) <= 2)%nat.
Proof.
  intros Hne Hpq.
  assert (Hcases : p = [] \/ p = [Created (candidateId c)] \/ p = iterationEvents acc c).
  { destruct c as [[W id] e]. unfold iterationEvents in *. cbn [candidateId fst snd].
    destruct p as [| e1 p]; [ now left | right ].
    injection Hpq as <- Hpq.
    destruct p as [| e2 p]; [ now left | right ].
    destruct (e <? chosenError acc)%float; [ destruct (chosenModel acc) | ].
    all: try discriminate Hpq.
    all: injection Hpq as <- Hpq; destruct p; [ reflexivity | discriminate Hpq ]. }
  destruct Hcases as [-> | [-> | ->]].
  - cbn. split; [ apply incl_appl, incl_refl | ].
    destruct (chosenModel acc); cbn; lia.
  - cbn. split; [ apply incl_refl | ].
    destruct (chosenModel acc); cbn; lia.
  - rewrite iteration_held by assumption.
    destruct c as [[W id] e]. unfold choose. cbn [candidateId fst snd].
    destruct (e <? chosenError acc)%float; cbn [chosenModel fst snd option_list].
    + split; [ apply incl_appr, incl_refl | cbn; lia ].
    + split; [ apply incl_appl, incl_refl | ].
      destruct (chosenModel acc); cbn; lia.
Qed.

Lemma choose_model_step (acc : Choice) (c : Candidate) :
  chosenModel (choose acc c) = chosenModel acc
  \/ chosenModel (choose acc c) = Some (candidateId c).
Proof.
  destruct c as [[W id] e]. unfold choose.
  destruct (e <? chosenError acc)%float; [ now right | now left ].
Qed.

(** After the sweep the models held are the best model, alone. *)
Lemma sweep_held (cs : list Candidate) :
  forall acc : Choice,
    NoDup (map candidateId cs) ->
    (forall c, In c cs -> chosenModel acc <> Some (candidateId c)) ->
    heldFrom (option_list (chosenModel acc)) (List.concat (sweepEvents acc cs))
    = option_list (chosenModel (fold_left choose cs acc)).
Proof.
  induction cs as [| c cs IH]; intros acc Hnd Hfresh; [ reflexivity | ].
  cbn [sweepEvents List.concat fold_left]. rewrite heldFrom_app.
  rewrite iteration_held by (apply Hfresh; now left).
  cbn [map] in Hnd. apply NoDup_cons_iff in Hnd. destruct Hnd as (Hnotin & Hnd).
  apply IH; [ exact Hnd | ].
  intros c' Hc'. destruct (choose_model_step acc c) as [-> | ->].
  - apply Hfresh. now right.
  - intros Heq. apply Hnotin. injection Heq as ->. now apply in_map.
Qed.

Lemma sweepEvents_length (cs : list Candidate) :
  forall acc : Choice, List.length (sweepEvents acc cs) = List.length cs.
Proof.
  induction cs as [| c cs IH]; intros acc; [ reflexivity | ].
  cbn [sweepEvents List.length]. now rewrite IH.
Qed.

Lemma sweepEvents_firstn (cs : list Candidate) :
  forall (acc : Choice) (k : nat),
    firstn k (sweepEvents acc cs) = sweepEvents acc (firstn k cs).
Proof.
  induction cs as [| c cs IH]; intros acc [| k]; try reflexivity.
  cbn [sweepEvents firstn]. now rewrite IH.
Qed.

Lemma sweepEvents_nth (cs : list Candidate) :
  forall (acc : Choice) (k : nat) (c : Candidate),
    nth_error cs k = Some c ->
    nth_error (sweepEvents acc cs) k
    = Some (iterationEvents (fold_left choose (firstn k cs) acc) c).
Proof.
  induction cs as [| c' cs IH]; intros acc [| k] c Hc; try discriminate.
  - injection Hc as ->. reflexivity.
  - cbn [sweepEvents nth_error firstn fold_left]. now apply IH.
Qed.

Lemma firstn_incl {A : Type} (k : nat) (l : list A) (x : A) :
  In x (firstn k l) -> In x l.
Proof.
  intros Hin. rewrite <- (firstn_skipn k l). apply in_or_app. now left.
Qed.

Lemma firstn_fresh (cs : list Candidate) (k : nat) :
  NoDup (map candidateId cs) -> NoDup (map candidateId (firstn k cs)).
Proof.
  intros Hnd. rewrite <- (firstn_skipn k cs), map_app in Hnd.
  now apply NoDup_app_remove_r in Hnd.
Qed.

(** During the sweep: at an iteration boundary the best model is held
    alone; within an iteration, the best model and the candidate. *)
Lemma sweep_points (cs : list Candidate) (acc : Choice) :
  NoDup (map candidateId cs) ->
  (forall c, In c cs -> chosenModel acc <> Some (candidateId c)) ->
  (forall k, (k <= List.length cs)%nat ->
     heldFrom (option_list (chosenModel acc))
       (List.concat (firstn k (sweepEvents acc cs)))
     = option_list (chosenModel (fold_left choose (firstn k cs) acc))) /\
  (forall k seg c p q,
     nth_error (sweepEvents acc cs) k = Some seg -> nth_error cs k = Some c ->
     seg = p ++ q ->
     incl (heldFrom (option_list (chosenModel acc))
             (List.concat (firstn k (sweepEvents acc cs)) ++ p))
          (option_list (chosenModel (fold_left choose (firstn k cs) acc))
           ++ [candidateId c]) /\
     (List.length (heldFrom (option_list (chosenModel acc))
                     (List.concat (firstn k (sweepEvents acc cs)) ++ p)) <= 2)%nat).
Proof.
  intros Hnd Hfresh.
  assert (Hboundary : forall k,
     heldFrom (option_list (chosenModel acc))
       (List.concat (firstn k (sweepEvents acc cs)))
     = option_list (chosenModel (fold_left choose (firstn k cs) acc))).
  { intros k. rewrite sweepEvents_firstn. apply sweep_held.
    - now apply firstn_fresh.
    - intros c Hc. apply Hfresh. eapply firstn_incl. eassumption. }
  split; [ intros k _; apply Hboundary | ].
  intros k seg c p q Hseg Hc Hpq.
  rewrite heldFrom_app, Hboundary.
  rewrite (sweepEvents_nth cs acc k c Hc) in Hseg. injection Hseg as <-.
  apply (iteration_prefix _ c p q); [ | exact Hpq ].
  (* the candidate is fresh for the choice among the candidates before it *)
  intros Heq. apply choose_model_from in Heq.
  destruct Heq as [Heq | Hin].
  - apply (Hfresh c); [ eapply nth_error_In; eassumption | exact Heq ].
  - destruct (nth_error_split cs k Hc) as (before & after & Hcs & Hlen).
    subst cs k. rewrite firstn_app, Nat.sub_diag in Hin.
    rewrite firstn_all, firstn_O, app_nil_r in Hin.
    rewrite map_app in Hnd. cbn [map] in Hnd.
    apply NoDup_remove_2 in Hnd. apply Hnd. apply in_or_app. now left.
Qed.

End Held.

(** C8. The sweep always completes. Its events are those of its
    iterations, one list for each configuration, and, counting the models
    built during the sweep and not yet disposed: at every point within an
    iteration the models held are among the best model so far and the
    candidate of the iteration, so at most two; when an iteration ends the
    best model is held alone, so the loser has been released before the
    next configuration; and at the end only the best model is held. *)
Theorem sweep_releases_losers (H : Host)
  (trainData testData : list TimeSeriesData) (ws us : list Z)
  (startTime : JS.number) (w : World)
  (Hws : Forall (fun W => 1 <= W) ws) :
  exists v w',
    App.sweep H trainData testData ws us startTime w = (Normal v, w') /\
    let cs := candidates H trainData testData (List.length (models w))
                (configurations ws us) in
    let segs := sweepEvents initialChoice cs in
    let best k := chosenModel (fold_left choose (firstn k cs) initialChoice) in
    events w' = events w ++ List.concat segs /\
    List.length segs = List.length (configurations ws us) /\
    (forall k seg c p q,
       nth_error segs k = Some seg -> nth_error cs k = Some c -> seg = p ++ q ->
       incl (heldAfter (List.concat (firstn k segs) ++ p))
            (option_list (best k) ++ [candidateId c]) /\
       (List.length (heldAfter (List.concat (firstn k segs) ++ p)) <= 2)%nat) /\
    (forall k, (k <= List.length segs)%nat ->
       heldAfter (List.concat (firstn k segs)) = option_list (best k)) /\
    heldAfter (List.concat segs) = option_list (App.bestModel v).
Proof.
  destruct (sweep_run H trainData testData ws us startTime w Hws)
    as (v & w' & Hrun & Inv).
  exists v, w'. split; [ exact Hrun | ].
  cbv zeta.
  set (cs := candidates H trainData testData (List.length (models w))
               (configurations ws us)).
  assert (Hnd : NoDup (map candidateId cs))
    by (unfold cs; rewrite candidates_ids; apply seq_NoDup).
  assert (Hfresh : forall c, In c cs -> chosenModel initialChoice <> Some (candidateId c))
    by (intros c _; discriminate).
  destruct (sweep_points cs initialChoice Hnd Hfresh) as (Hboundary & Hwithin).
  split; [ apply (inv_events Inv) | ].
  split; [ unfold cs; now rewrite sweepEvents_length, candidates_length | ].
  split; [ exact Hwithin | ].
  split.
  - intros k Hk. apply Hboundary. now rewrite sweepEvents_length in Hk.
  - change (App.bestModel v) with (chosenModel (choice_of v)).
    rewrite (inv_choice Inv). fold cs.
    apply (sweep_held cs initialChoice Hnd Hfresh).
Qed.

Lemma sweep_releases_losers_witness :
  Forall (fun W => 1 <= W) [3; 5] /\
  exists v w',
    App.sweep (Reference.constant_host 100%float)
      (Reference.linear_series 0 24) (Reference.linear_series 24 6)
      [3; 5] [32; 64] 0%float (Reference.initial_world 30 5) = (Normal v, w') /\
    heldAfter (events w') = option_list (App.bestModel v).
Proof.
  split; [ repeat constructor; lia | ].
  destruct (sweep_releases_losers
              (Reference.constant_host 100%float) (Reference.linear_series 0 24)
              (Reference.linear_series 24 6) [3; 5] [32; 64] 0%float
              (Reference.initial_world 30 5))
    as (v & w' & Hrun & Hev & _ & _ & _ & Hend).
  - repeat constructor; lia.
  - exists v, w'. split; [ exact Hrun | ].
    rewrite Hev. exact Hend.
Defined.

(** ** The pipeline *)

Section Pipeline.

Variable H : Host.

Lemma modify_app_run (f : AppState -> AppState) (w : World) :
  modify_app f w
  = (Normal tt,
     {| app := f (app w); models := models w; events := events w;
        clock := clock w; console := console w |}).
Proof. reflexivity. Qed.

(** A run on fewer than 20 points only sets the error message. *)
Lemma handleTrain_short (w : World) :
  JS.length (data (app w)) < 20 ->
  App.handleTrain H w
  = (Normal tt,
     {| app := withError "Se necesitan al menos 20 datos para entrenar." (app w);
        models := models w; events := events w; clock := clock w;
        console := console w |}).
Proof.
  intros Hlen. unfold App.handleTrain.
  unfold bind at 1. cbn [get_app]. cbv zeta.
  destruct (Z.ltb_spec (JS.length (data (app w))) 20); [ | lia ].
  reflexivity.
Qed.

Lemma handleTrain_sweep (w : World) :
  20 <= JS.length (data (app w)) ->
  App.handleTrain H w
  = bind
      (App.sweep H (trainSplit (data (app w))) (testSplit (data (app w)))
         [3; 5] [32; 64] (performance_now H (clock w)))
      (fun v =>
         match App.bestModel v with
         | None =>
             App.setError (Some App.noModelMessage) ;;
             App.setIsTraining false
         | Some bestModel =>
             let bestWindowSize := App.bestWindowSize v in
             let testValues := map value (testSplit (data (app w))) in
             predictionsOnTest <-
               App.predictOnTest bestModel testValues bestWindowSize ;;
             let actualTest := JS.slice_from testValues bestWindowSize in
             let finalMape := App.computeMape actualTest predictionsOnTest in
             App.setTestMape (Some finalMape) ;;
             App.setTestPredictions predictionsOnTest ;;
             let fullValues := map value (data (app w)) in
             ' (_, futureForecasts) <-
               App.forecastFuture bestModel fullValues bestWindowSize
                 (JS.limit_lt (futurePeriods (app w))) ;;
             App.setFuturePredictions futureForecasts ;;
             match JS.index (data (app w)) (JS.length (data (app w)) - 1) with
             | None => throw "TypeError: cannot read properties of undefined"
             | Some last =>
                 let lastDate := date last in
                 let futureDts :=
                   App.generateFutureDates H lastDate
                     (JS.limit_le (futurePeriods (app w))) in
                 App.setFutureDates futureDts ;;
                 App.setIsTraining false
             end
         end)
      (sweepStart w).
Proof.
  intros Hlen. unfold App.handleTrain.
  unfold bind at 1. cbn [get_app]. cbv zeta.
  destruct (Z.ltb_spec (JS.length (data (app w))) 20); [ lia | ].
  reflexivity.
Qed.

End Pipeline.

Section PipelineRun.

Variable H : Host.

Lemma grid_windows (W u : Z) :
  In (W, u) (configurations [3; 5] [32; 64]) -> W = 3 \/ W = 5.
Proof.
  cbn. intros [Hc | [Hc | [Hc | [Hc | []]]]]; injection Hc as <- _; auto.
Qed.

Lemma index_last (series : list TimeSeriesData) :
  0 < JS.length series ->
  exists last, JS.index series (JS.length series - 1) = Some last.
Proof.
  intros Hlen. rewrite index_nth_error by lia.
  destruct (nth_error series (Z.to_nat (JS.length series - 1))) as [last |] eqn:Hn.
  - now exists last.
  - apply nth_error_None in Hn. unfold JS.length in *. lia.
Qed.

(** A run on at least 20 points, in the model: the sweep of the four
    configurations completes, then either no model was retained and the
    message says so, or the model retained, which is the trained model of
    a configuration of the grid and whose test error is the best error of
    the sweep, gives the test predictions, the test error, the forecasts
    and the dates. (With the bound [Infinity] for the periods the loops of
    the code do not end; the properties of the forecasts leave it out.) *)
Lemma handleTrain_run (w : World) :
  20 <= JS.length (data (app w)) ->
  let series := data (app w) in
  exists v w1 w',
    App.sweep H (trainSplit series) (testSplit series) [3; 5] [32; 64]
      (performance_now H (clock w)) (sweepStart w) = (Normal v, w1) /\
    SweepInv H (trainSplit series) (testSplit series) (sweepStart w)
      (configurations [3; 5] [32; 64]) v w1 /\
    App.handleTrain H w = (Normal tt, w') /\
    models w' = models w1 /\ events w' = events w1 /\
    data (app w') = series /\ futurePeriods (app w') = futurePeriods (app w) /\
    isTraining (app w') = false /\
    match App.bestModel v with
    | None =>
        error (app w') = Some App.noModelMessage /\
        testPredictions (app w') = [] /\ testMape (app w') = None /\
        futurePredictions (app w') = [] /\ futureDates (app w') = []
    | Some b =>
        exists m u last,
          In (App.bestWindowSize v, u) (configurations [3; 5] [32; 64]) /\
          m = trainedModel H b (App.bestWindowSize v) u (trainSplit series) 1000 /\
          nth_error (models w') b = Some m /\ isDisposed m = false /\
          inputLength m = App.bestWindowSize v /\
          (inputLength m = 3 \/ inputLength m = 5) /\
          App.bestMape v = testError m (testSplit series) /\
          (App.bestMape v <? JS.Infinity)%float = true /\
          JS.index series (JS.length series - 1) = Some last /\
          error (app w') = None /\
          testPredictions (app w')
          = testPredictionsOf m (map value (testSplit series)) /\
          testMape (app w')
          = Some (App.computeMape
                    (JS.slice_from (map value (testSplit series)) (inputLength m))
                    (testPredictionsOf m (map value (testSplit series)))) /\
          futurePredictions (app w')
          = autoregress (net m)
              (Z.to_nat (JS.limit_lt (futurePeriods (app w))))
              (last_n (map value series) (inputLength m)) /\
          futureDates (app w')
          = App.generateFutureDates H (date last)
              (JS.limit_le (futurePeriods (app w)))
    end.
Proof.
  intros Hlen series.
  assert (Hseries : 20 <= JS.length series) by exact Hlen.
  destruct (sweep_run H (trainSplit series) (testSplit series) [3; 5] [32; 64]
              (performance_now H (clock w)) (sweepStart w))
    as (v & w1 & Hrun & Inv); [ repeat constructor; lia | ].
  exists v, w1.
  destruct (App.handleTrain H w) as [r w'] eqn:Hh.
  rewrite handleTrain_sweep in Hh by exact Hlen.
  fold series in Hh. rewrite (bind_normal _ _ _ _ _ Hrun) in Hh.
  pose proof Inv as [Iapp _ _ _ _ _ _ Ibest].
  destruct Iapp as (Hdata & Herr & Htr & Htp & Htm & Hfp & Hfps & Hfd).
  cbn [sweepStart clearedState app data error isTraining testPredictions testMape
       futurePeriods futurePredictions futureDates] in Hdata, Herr, Htr, Htp, Htm, Hfp, Hfps, Hfd.
  destruct (App.bestModel v) as [b |] eqn:Hbest.
  - (* a model was retained *)
    destruct (Ibest b eq_refl) as (W & u & Hin & HbW & Hmape & Hfin & Hnth).
    set (m := trainedModel H b W u (trainSplit series) 1000) in *.
    assert (HW : inputLength m = 3 \/ inputLength m = 5) by (apply (grid_windows W u Hin)).
    destruct (index_last series) as (last & Hlast); [ lia | ].
    cbv zeta in Hh. rewrite HbW in Hh. change W with (inputLength m) in Hh.
    rewrite (bind_normal _ _ _ _ _
               (predictOnTest_run b m (map value (testSplit series)) w1 Hnth eq_refl
                  ltac:(lia))) in Hh.
    unfold App.setTestMape, App.setTestPredictions, App.setFuturePredictions,
      App.setFutureDates, App.setIsTraining in Hh.
    rewrite (bind_normal _ _ _ _ _ (modify_app_run _ _)) in Hh.
    rewrite (bind_normal _ _ _ _ _ (modify_app_run _ _)) in Hh.
    match type of Hh with
    | bind (App.forecastFuture _ _ _ _) _ ?wX = _ =>
        rewrite (bind_normal _ _ _ _ _
                   (forecastFuture_run b m wX (map value series)
                      (JS.limit_lt (futurePeriods (app w)))
                      Hnth eq_refl
                      ltac:(unfold JS.length in *; rewrite length_map; lia))) in Hh
    end.
    rewrite (bind_normal _ _ _ _ _ (modify_app_run _ _)) in Hh.
    rewrite Hlast in Hh. cbv zeta in Hh.
    rewrite (bind_normal _ _ _ _ _ (modify_app_run _ _)) in Hh.
    rewrite modify_app_run in Hh.
    injection Hh as <- <-.
    exists {| app := {| data := data (app w1); error := error (app w1);
                        isTraining := false; progress := progress (app w1);
                        timeLeft := timeLeft (app w1);
                        testPredictions := testPredictionsOf m (map value (testSplit series));
                        testMape := Some (App.computeMape
                          (JS.slice_from (map value (testSplit series)) (inputLength m))
                          (testPredictionsOf m (map value (testSplit series))));
                        futurePeriods := futurePeriods (app w1);
                        futurePredictions :=
                          autoregress (net m)
                            (Z.to_nat (JS.limit_lt (futurePeriods (app w))))
                            (last_n (map value series) (inputLength m));
                        futureDates :=
                          App.generateFutureDates H (date last)
                            (JS.limit_le (futurePeriods (app w))) |};
              models := models w1; events := events w1; clock := clock w1;
              console := console w1 |}.
    split; [ exact Hrun | ]. split; [ exact Inv | ].
    split; [ reflexivity | ].
    cbn [app models events data error isTraining testPredictions testMape
         futurePeriods futurePredictions futureDates].
    repeat split; try assumption.
    exists m, u, last. rewrite HbW.
    repeat split; try assumption.
  - (* no model was retained *)
    unfold App.setError, App.setIsTraining in Hh.
    rewrite (bind_normal _ _ _ _ _ (modify_app_run _ _)) in Hh.
    rewrite modify_app_run in Hh.
    injection Hh as <- <-.
    eexists. split; [ exact Hrun | ]. split; [ exact Inv | ].
    split; [ reflexivity | ].
    cbn [app models events data error isTraining testPredictions testMape
         futurePeriods futurePredictions futureDates].
    repeat split; assumption.
Qed.

End PipelineRun.

(** ** The outcomes of a run *)

Section Outcomes.

Lemma slice_from_skipn {A : Type} (l : list A) (W : Z) :
  0 <= W -> JS.slice_from l W = skipn (Z.to_nat W) l.
Proof.
  intros HW. unfold JS.slice_from, JS.slice, JS.clamp_index.
  set (len := JS.length l).
  assert (Hlen : len = Z.of_nat (List.length l)) by reflexivity.
  destruct (Z.ltb_spec W 0); [ lia | ].
  destruct (Z.ltb_spec len 0); [ lia | ].
  replace (Z.min len len) with len by lia.
  destruct (Z.le_gt_cases W len) as [Hle | Hgt].
  - rewrite Z.min_l by lia. apply firstn_all2. rewrite length_skipn. lia.
  - rewrite Z.min_r by lia. rewrite !skipn_all2 by lia. apply firstn_nil.
Qed.

Lemma testPredictionsOf_length (m : LayersModel) (tv : list JS.number) :
  JS.length (testPredictionsOf m tv) = Z.max 0 (JS.length tv - inputLength m).
Proof.
  unfold testPredictionsOf, JS.length. rewrite length_map, zrange_length.
  unfold JS.length. lia.
Qed.

Lemma testPredictionsOf_index (m : LayersModel) (tv : list JS.number) (i : Z) :
  inputLength m <= i < JS.length tv ->
  JS.index (testPredictionsOf m tv) (i - inputLength m)
  = Some (net m (window_at tv (i - inputLength m) (inputLength m))).
Proof.
  intros Hi. rewrite index_nth_error by lia.
  unfold testPredictionsOf. rewrite nth_error_map, zrange_nth by lia.
  cbn [option_map]. do 3 f_equal; lia.
Qed.

Lemma autoregress_index (f : list JS.number -> JS.number) (W n : Z)
  (base : list JS.number) (k : Z) :
  1 <= W <= JS.length base -> 0 <= k < n ->
  JS.index (autoregress f (Z.to_nat n) (last_n base W)) k
  = Some (f (last_n (base ++ firstn (Z.to_nat k)
                               (autoregress f (Z.to_nat n) (last_n base W))) W)).
Proof.
  intros HW Hk. rewrite index_nth_error by lia.
  apply autoregress_nth; [ exact HW | lia ].
Qed.

(** Without an actual value there is no error to report. *)
Lemma computeMape_nil (predicted : list JS.number) :
  App.computeMape [] predicted = JS.NaN.
Proof.
  unfold App.computeMape.
  change (JS.length (@nil JS.number)) with 0.
  destruct (negb (0 =? JS.length predicted)); reflexivity.
Qed.

(** An error below [Infinity] is the error of at least one prediction:
    the test split is longer than the window. *)
Lemma ranked_window_fits (m : LayersModel) (testData : list TimeSeriesData) :
  0 <= inputLength m ->
  (testError m testData <? JS.Infinity)%float = true ->
  inputLength m < JS.length (map value testData).
Proof.
  intros HW Hlt.
  destruct (Z.lt_ge_cases (inputLength m) (JS.length (map value testData)))
    as [Hfits | Hshort]; [ exact Hfits | exfalso ].
  unfold testError in Hlt. rewrite slice_from_skipn in Hlt by exact HW.
  rewrite skipn_all2 in Hlt by (unfold JS.length in Hshort; lia).
  rewrite computeMape_nil in Hlt. discriminate Hlt.
Qed.

(** No model is retained exactly when no candidate has an error below
    [Infinity]. *)
Lemma choose_keeps_model (cs : list Candidate) :
  forall acc : Choice,
    chosenModel acc <> None -> chosenModel (fold_left choose cs acc) <> None.
Proof.
  induction cs as [| c cs IH]; intros acc Hacc; [ exact Hacc | ].
  cbn [fold_left]. apply IH.
  destruct (choose_model_step acc c) as [Hsame | Hnew]; congruence.
Qed.

Lemma choose_none_iff (cs : list Candidate) :
  chosenModel (fold_left choose cs initialChoice) = None <->
  forall c, In c cs -> (candidateError c <? JS.Infinity)%float = false.
Proof.
  induction cs as [| [[W id] e] cs IH].
  - split; [ intros _ c [] | reflexivity ].
  - cbn [fold_left]. unfold choose at 2.
    change (chosenError initialChoice) with JS.Infinity.
    destruct (e <? JS.Infinity)%float eqn:He.
    + split.
      * intros Hnone. exfalso.
        revert Hnone. apply choose_keeps_model. discriminate.
      * intros Hall. specialize (Hall (W, id, e) (or_introl eq_refl)).
        cbn in Hall. congruence.
    + rewrite IH. split.
      * intros Hall c [<- | Hc]; [ exact He | now apply Hall ].
      * intros Hall c Hc. apply Hall. now right.
Qed.

End Outcomes.



Section ModelPredict.

(** The loop of [predict] in [timeSeriesModel.ts]. *)
Lemma model_predict_loop (id : ModelId) (m : LayersModel) (w : World) (n : nat) :
  nth_error (models w) id = Some m -> isDisposed m = false ->
  inputLength m = 3 ->
  forall (lo : Z) (cw ps : list JS.number),
    JS.length cw = 3 ->
    for_loopM n lo
      (fun (_ : Z) '(currentWindow, predictions) =>
         let X3D := map (fun val : JS.number => [val]) currentWindow in
         tensorX <- tf.tensor3d [X3D] 1 3 1 ;;
         predTensor <- tf.predict id tensorX ;;
         let predValue := tf.dataSync_first predTensor in
         ret (JS.slice_from currentWindow 1 ++ [predValue],
              JS.push predictions predValue))
      (cw, ps) w
    = (Normal (autoregress_window (net m) n cw, ps ++ autoregress (net m) n cw), w).
Proof.
  intros Hnth Hlive HW.
  induction n as [| n IH]; intros lo cw ps Hlen.
  - simpl. now rewrite app_nil_r.
  - cbn [for_loopM].
    rewrite (bind_normal _ _ w w
               (tl cw ++ [net m cw], JS.push ps (net m cw))).
    + rewrite IH.
      * cbn [autoregress autoregress_window]. unfold JS.push.
        now rewrite <- app_assoc.
      * unfold JS.length in *. rewrite length_app. cbn [List.length].
        destruct cw as [| a cw]; cbn [List.length tl] in *; lia.
    + cbv zeta.
      rewrite (bind_normal _ _ _ _ _ (tensor3d_window cw 3 w Hlen ltac:(lia))).
      rewrite <- HW.
      rewrite (bind_normal _ _ _ _ _ (predict_run id m cw w Hnth Hlive)).
      now rewrite slice_from_1.
Qed.

Lemma model_predict_run (id : ModelId) (m : LayersModel) (w : World)
  (series : list TimeSeriesData) (periods : Z) :
  nth_error (models w) id = Some m -> isDisposed m = false ->
  inputLength m = 3 -> 3 <= JS.length series ->
  TimeSeriesModelTs.predict {| TimeSeriesModelTs.model := Some id |} series periods w
  = (Normal (autoregress (net m) (Z.to_nat periods) (last_n (map value series) 3)), w).
Proof.
  intros Hnth Hlive HW Hlen. unfold TimeSeriesModelTs.predict.
  cbn [TimeSeriesModelTs.model]. cbv zeta. unfold for_rangeM.
  rewrite Z.sub_0_r.
  rewrite (slice_from_last (map value series) 3) by lia.
  rewrite (bind_normal _ _ _ _ _
             (model_predict_loop id m w _ Hnth Hlive HW 0
                (last_n (map value series) 3) []
                ltac:(apply last_n_length; unfold JS.length in *;
                      rewrite length_map; lia))).
  reflexivity.
Qed.

End ModelPredict.

(** C5. On a series of at least 20 points, with a number of periods that
    is not [Infinity], [handleTrain] runs the sweep and completes. When
    the sweep retains no model, the message says so and no forecast is
    displayed. When it retains a model, this is the trained model [m] of
    a configuration of the grid with the winning window size [W], and the
    state holds one forecast for every integer from 0 that is below
    [futurePeriods], which makes [futurePeriods] forecasts when this is
    an integer: the forecast of step [k] is the value of [m] on the
    last [W] values of the whole series followed by the forecasts of the
    steps before [k]. So the first window is the last [W] values of the
    series, and each forecast enters the windows of the next steps while
    the oldest value leaves. [predict] of [timeSeriesModel.ts] computes
    the same forecasts with [W = 3] from a trained model and a series of
    at least 3 points. *)
Theorem handleTrain_future_predictions (H : Host) (w : World)
  (Hlen : 20 <= JS.length (data (app w)))
  (Hperiods : JS.strict_eq (futurePeriods (app w)) JS.Infinity = false) :
  let series := data (app w) in
  let fullValues := map value series in
  let n := JS.limit_lt (futurePeriods (app w)) in
  (exists v w1 w',
     App.sweep H (trainSplit series) (testSplit series) [3; 5] [32; 64]
       (performance_now H (clock w)) (sweepStart w) = (Normal v, w1) /\
     App.handleTrain H w = (Normal tt, w') /\
     match App.bestModel v with
     | None =>
         error (app w') = Some App.noModelMessage /\
         futurePredictions (app w') = []
     | Some b =>
         let W := App.bestWindowSize v in
         exists u,
           let m := trainedModel H b W u (trainSplit series) 1000 in
           let forecasts := futurePredictions (app w') in
           In (W, u) (configurations [3; 5] [32; 64]) /\
           nth_error (models w') b = Some m /\ isDisposed m = false /\
           error (app w') = None /\
           JS.length forecasts = Z.max 0 n /\
           forall k, 0 <= k < n ->
             JS.index forecasts k
             = Some (net m (last_n (fullValues ++ firstn (Z.to_nat k) forecasts) W))
     end) /\
  (forall p, 0 <= p < 2 ^ 53 -> JS.limit_lt (JS.of_int p) = p) /\
  (forall id m w0 series periods,
     nth_error (models w0) id = Some m -> isDisposed m = false ->
     inputLength m = 3 -> 3 <= JS.length series -> 0 <= periods ->
     exists forecasts,
       TimeSeriesModelTs.predict {| TimeSeriesModelTs.model := Some id |}
         series periods w0 = (Normal forecasts, w0) /\
       JS.length forecasts = periods /\
       forall k, 0 <= k < periods ->
         JS.index forecasts k
         = Some (net m (last_n (map value series ++ firstn (Z.to_nat k) forecasts) 3))).
Proof.
  intros series fullValues n. subst fullValues series. split.
  - destruct (handleTrain_run H w Hlen)
      as (v & w1 & w' & Hsweep & _ & Hrun & _ & _ & _ & _ & _ & Hout).
    exists v, w1, w'. split; [ exact Hsweep | ]. split; [ exact Hrun | ].
    destruct (App.bestModel v) as [b |].
    + destruct Hout as (m & u & last & Hin & Hm & Hnth & Hlive & HW & Hgrid
                        & _ & _ & _ & Herr & _ & _ & Hfp & _).
      cbv zeta. exists u. rewrite <- Hm, <- HW.
      split; [ now rewrite HW | ].
      split; [ exact Hnth | ]. split; [ exact Hlive | ].
      split; [ exact Herr | ].
      rewrite Hfp. fold n.
      split.
      * unfold JS.length. rewrite autoregress_length. lia.
      * intros k Hk. apply autoregress_index; [ | exact Hk ].
        unfold JS.length in *. rewrite length_map. lia.
    + destruct Hout as (Herr & _ & _ & Hfp & _). split; assumption.
  - split; [ intros p Hp; now apply of_int_limits | ].
    intros id m w0 series periods Hnth Hlive HW Hseries Hp.
    eexists. split; [ now apply (model_predict_run id m w0 series periods) | ].
    split.
    + unfold JS.length. rewrite autoregress_length. lia.
    + intros k Hk. apply autoregress_index; [ | exact Hk ].
      unfold JS.length in *. rewrite length_map. lia.
Qed.

Lemma handleTrain_future_predictions_witness :
  20 <= JS.length (data (app (Reference.world_asking 30 2.5%float))) /\
  JS.strict_eq (futurePeriods (app (Reference.world_asking 30 2.5%float)))
    JS.Infinity = false /\
  exists w',
    App.handleTrain (Reference.constant_host 100%float)
      (Reference.world_asking 30 2.5%float)
    = (Normal tt, w') /\
    error (app w') = None /\
    futurePredictions (app w') = [100; 100; 100]%float /\
    futureDates (app w') = ["2024-01-31"; "2024-02-01"]%string.
Proof.
  split; [ vm_compute; discriminate | ].
  split; [ reflexivity | ].
  destruct (handleTrain_future_predictions (Reference.constant_host 100%float)
              (Reference.world_asking 30 2.5%float))
    as ((v & w1 & w' & _ & Hrun & _) & _).
  - vm_compute. discriminate.
  - reflexivity.
  - exists w'. split; [ exact Hrun | ].
    vm_compute in Hrun. injection Hrun as <-.
    repeat split.
Defined.

(** C10. [predict] on a model that has never been trained (the field
    [model] is still [null]) returns the empty list for every series and
    every number of periods: no error is raised, no model is built or
    used, and the only effect is a warning on the console. A new
    [TimeSeriesModel] is in that state. *)
Theorem predict_before_train_is_empty (series : list TimeSeriesData)
  (periods : Z) (w : World) :
  TimeSeriesModelTs.model TimeSeriesModelTs.new = None /\
  TimeSeriesModelTs.predict TimeSeriesModelTs.new series periods w
  = (Normal [],
     {| app := app w; models := models w; events := events w; clock := clock w;
        console := console w ++ [TimeSeriesModelTs.notTrainedWarning] |}) /\
  TimeSeriesModelTs.predict {| TimeSeriesModelTs.model := None |} series periods w
  = (Normal [],
     {| app := app w; models := models w; events := events w; clock := clock w;
        console := console w ++ [TimeSeriesModelTs.notTrainedWarning] |}).
Proof. repeat split. Qed.

(** C9, as the code has it. When the series has fewer than 20 points
    [handleTrain] only sets the error message: the results displayed are
    unchanged and no model is built. Otherwise it clears the results and
    runs one sweep of four models. The sweep retains no model exactly when
    no configuration has a test error below [Infinity]; [handleTrain] then
    completes with the message that no model could be trained and with
    the results left cleared: no test prediction, no test error, no
    future prediction, no future date. It has built the four models of
    the sweep and no other: there is no retry. When the sweep retains a
    model, the run ends without a message. *)
Theorem handleTrain_failure (H : Host) (w : World) :
  (JS.length (data (app w)) < 20 ->
     exists w',
       App.handleTrain H w = (Normal tt, w') /\
       app w' = withError "Se necesitan al menos 20 datos para entrenar." (app w) /\
       error (app w') = Some "Se necesitan al menos 20 datos para entrenar."%string /\
       testPredictions (app w') = testPredictions (app w) /\
       testMape (app w') = testMape (app w) /\
       futurePredictions (app w') = futurePredictions (app w) /\
       futureDates (app w') = futureDates (app w) /\
       models w' = models w /\ events w' = events w) /\
  (20 <= JS.length (data (app w)) ->
     let series := data (app w) in
     let cs := candidates H (trainSplit series) (testSplit series)
                 (List.length (models w)) (configurations [3; 5] [32; 64]) in
     exists v w1,
       App.sweep H (trainSplit series) (testSplit series) [3; 5] [32; 64]
         (performance_now H (clock w)) (sweepStart w) = (Normal v, w1) /\
       List.length (models w1) = (List.length (models w) + 4)%nat /\
       (App.bestModel v = None <->
        forall c, In c cs -> (candidateError c <? JS.Infinity)%float = false) /\
       (App.bestModel v = None ->
          exists w',
            App.handleTrain H w = (Normal tt, w') /\
            error (app w') = Some App.noModelMessage /\
            isTraining (app w') = false /\
            testPredictions (app w') = [] /\ testMape (app w') = None /\
            futurePredictions (app w') = [] /\ futureDates (app w') = [] /\
            data (app w') = series /\
            models w' = models w1 /\ events w' = events w1) /\
       (App.bestModel v <> None ->
          JS.strict_eq (futurePeriods (app w)) JS.Infinity = false ->
          exists w',
            App.handleTrain H w = (Normal tt, w') /\
            error (app w') = None /\ isTraining (app w') = false)).
Proof.
  split.
  - intros Hshort. eexists. split; [ apply (handleTrain_short H w Hshort) | ].
    cbn. repeat split.
  - intros Hlong series cs.
    destruct (handleTrain_run H w Hlong)
      as (v & w1 & w' & Hsweep & Inv & Hrun & Hmodels & Hevents & Hdata & _ & Htr & Hout).
    exists v, w1. split; [ exact Hsweep | ].
    destruct Inv as [_ _ Hcount _ Hchoice _ _ _].
    split; [ exact Hcount | ].
    split.
    + change (App.bestModel v) with (chosenModel (choice_of v)).
      rewrite Hchoice. apply choose_none_iff.
    + split.
      * intros Hnone. rewrite Hnone in Hout.
        destruct Hout as (Herr & Htp & Htm & Hfp & Hfd).
        exists w'. repeat split; assumption.
      * intros Hsome _. exists w'. split; [ exact Hrun | ].
        destruct (App.bestModel v) as [b |]; [ | contradiction ].
        destruct Hout as (m & u & last & _ & _ & _ & _ & _ & _ & _ & _ & _ & Herr & _).
        split; [ exact Herr | exact Htr ].
Qed.

(** C9 fails as stated. With one host whose first four models predict 100
    and whose later models predict [NaN], a first run on 30 points
    succeeds and displays its results; a second run on the same points
    fails, no model could be trained, and the results of the first run
    are no longer displayed. *)
Lemma handleTrain_failure_clears_results :
  let H := Reference.diverging_host in
  let w1 := snd (App.handleTrain H (Reference.initial_world 30 5)) in
  let w2 := snd (App.handleTrain H w1) in
  (error (app w1) = None /\
   testPredictions (app w1) = [100; 100; 100]%float /\
   futurePredictions (app w1) = [100; 100; 100; 100; 100]%float /\
   futureDates (app w1)
   = ["2024-01-31"; "2024-02-01"; "2024-02-02"; "2024-02-03"; "2024-02-04"]%string) /\
  (fst (App.handleTrain H w1) = Normal tt /\
   error (app w2) = Some App.noModelMessage /\
   testPredictions (app w2) = [] /\ testMape (app w2) = None /\
   futurePredictions (app w2) = [] /\ futureDates (app w2) = []).
Proof. vm_compute. repeat split. Qed.

Section Trim.

Lemma trim_start_clean (s : string) : starts_clean (JS.trim_start s) = true.
Proof.
  induction s as [| a s IH]; [ reflexivity | ].
  cbn [JS.trim_start]. destruct (JS.is_white_space a) eqn:Ha; [ exact IH | ].
  cbn [starts_clean]. now rewrite Ha.
Qed.

Lemma trim_start_fixed (s : string) :
  starts_clean s = true -> JS.trim_start s = s.
Proof.
  destruct s as [| a s]; [ reflexivity | ].
  cbn [starts_clean JS.trim_start]. intros Ha.
  destruct (JS.is_white_space a); [ discriminate | reflexivity ].
Qed.

Lemma trim_end_clean (s : string) : ends_clean (JS.trim_end s) = true.
Proof.
  induction s as [| a s IH]; [ reflexivity | ].
  cbn [JS.trim_end]. destruct (JS.trim_end s) as [| b kept] eqn:Hk.
  - destruct (JS.is_white_space a) eqn:Ha; [ reflexivity | ].
    cbn [ends_clean]. now rewrite Ha.
  - exact IH.
Qed.

Lemma trim_end_fixed (s : string) :
  ends_clean s = true -> JS.trim_end s = s.
Proof.
  induction s as [| a s IH]; [ reflexivity | ].
  destruct s as [| b s].
  - cbn. intros Ha. destruct (JS.is_white_space a); [ discriminate | reflexivity ].
  - intros Hs. cbn [JS.trim_end] in *. change (ends_clean (String a (String b s)))
      with (ends_clean (String b s)) in Hs.
    rewrite (IH Hs). reflexivity.
Qed.

(** Trimming the end keeps a first character that is not white space. *)
Lemma trim_end_starts (s : string) :
  starts_clean s = true -> starts_clean (JS.trim_end s) = true.
Proof.
  destruct s as [| a s]; [ reflexivity | ].
  cbn [starts_clean JS.trim_end]. intros Ha.
  destruct (JS.trim_end s); [ | exact Ha ].
  destruct (JS.is_white_space a) eqn:Hw; [ reflexivity | ].
  cbn [starts_clean]. now rewrite Hw.
Qed.

Lemma trim_fixed (s : string) :
  starts_clean s = true -> ends_clean s = true -> JS.trim s = s.
Proof.
  intros Hs He. unfold JS.trim. rewrite (trim_start_fixed s Hs).
  now apply trim_end_fixed.
Qed.

Lemma trim_clean (s : string) :
  starts_clean (JS.trim s) = true /\ ends_clean (JS.trim s) = true.
Proof.
  unfold JS.trim. split.
  - apply trim_end_starts, trim_start_clean.
  - apply trim_end_clean.
Qed.

Lemma trim_idempotent (s : string) : JS.trim (JS.trim s) = JS.trim s.
Proof. destruct (trim_clean s). now apply trim_fixed. Qed.

Lemma trimmed_clean (s : string) :
  JS.trim s = s -> starts_clean s = true /\ ends_clean s = true.
Proof. intros <-. apply trim_clean. Qed.

End Trim.

Section Split.

Lemma split_scan_nonempty (sep s : string) :
  forall (cur : string) (skip : nat), JS.split_scan sep s cur skip <> [].
Proof.
  induction s as [| a s IH]; intros cur skip; [ discriminate | ].
  cbn [JS.split_scan]. destruct skip as [| k]; [ | apply IH ].
  destruct (String.prefix sep (String a s)); [ discriminate | apply IH ].
Qed.

(** A string that is not empty always splits into at least one part. *)
Lemma split_nonempty (s sep : string) : s <> EmptyString -> JS.split s sep <> [].
Proof.
  intros Hs. unfold JS.split. destruct sep as [| c sep].
  - destruct s as [| a s]; [ contradiction | discriminate ].
  - apply split_scan_nonempty.
Qed.

End Split.

Section SplitChar.

Variable c : ascii.

Lemma prefix_char (x : ascii) (rest : string) :
  String.prefix (String c EmptyString) (String x rest)
  = if ascii_dec c x then true else false.
Proof. cbn. destruct (ascii_dec c x); [ now destruct rest | reflexivity ]. Qed.

Lemma append_assoc_char (cur : string) (a : ascii) (s : string) :
  ((cur ++ String a EmptyString) ++ s)%string = (cur ++ String a s)%string.
Proof. induction cur as [| b cur IH]; cbn; [ reflexivity | now rewrite IH ]. Qed.

Lemma append_empty (s : string) : (s ++ EmptyString)%string = s.
Proof. induction s as [| a s IH]; cbn; [ reflexivity | now rewrite IH ]. Qed.

(** A string without the separator is one part. *)
Lemma split_scan_char_free (s : string) :
  forall cur : string,
    ~ has_char c s ->
    JS.split_scan (String c EmptyString) s cur O = [(cur ++ s)%string].
Proof.
  induction s as [| a s IH]; intros cur Hfree.
  - cbn. now rewrite append_empty.
  - cbn [JS.split_scan]. rewrite prefix_char.
    destruct (ascii_dec c a) as [-> | Hne]; [ exfalso; apply Hfree; now left | ].
    rewrite IH by (intros Hs; apply Hfree; now right).
    now rewrite append_assoc_char.
Qed.

(** The first separator ends the first part. *)
Lemma split_scan_char_app (a b : string) :
  forall cur : string,
    ~ has_char c a ->
    JS.split_scan (String c EmptyString) (a ++ String c b) cur O
    = (cur ++ a)%string :: JS.split_scan (String c EmptyString) b EmptyString O.
Proof.
  induction a as [| x a IH]; intros cur Hfree.
  - cbn [append JS.split_scan]. rewrite prefix_char.
    destruct (ascii_dec c c); [ | contradiction ].
    cbn. now rewrite append_empty.
  - cbn [append JS.split_scan]. rewrite prefix_char.
    destruct (ascii_dec c x) as [-> | Hne]; [ exfalso; apply Hfree; now left | ].
    rewrite IH by (intros Hs; apply Hfree; now right).
    now rewrite append_assoc_char.
Qed.

(** Splitting what was joined gives the parts back. *)
Lemma split_concat (parts : list string) :
  parts <> [] ->
  (forall p, In p parts -> ~ has_char c p) ->
  JS.split (String.concat (String c EmptyString) parts) (String c EmptyString)
  = parts.
Proof.
  unfold JS.split.
  induction parts as [| p parts IH]; intros Hne Hfree; [ contradiction | ].
  destruct parts as [| q parts].
  - cbn [String.concat]. now rewrite split_scan_char_free by (apply Hfree; now left).
  - change (String.concat (String c EmptyString) (p :: q :: parts))
      with (p ++ String c (String.concat (String c EmptyString) (q :: parts)))%string.
    rewrite split_scan_char_app by (apply Hfree; now left).
    cbn [append]. f_equal. apply IH; [ discriminate | ].
    intros p' Hp'. apply Hfree. now right.
Qed.

Lemma has_char_append (x : ascii) (a b : string) :
  has_char x (a ++ b) -> has_char x a \/ has_char x b.
Proof.
  induction a as [| y a IH]; cbn; [ now right | ].
  intros [Hy | Hab]; [ now left; left | ].
  destruct (IH Hab); [ left; now right | now right ].
Qed.

Lemma has_char_concat (x : ascii) (parts : list string) :
  has_char x (String.concat (String c EmptyString) parts) ->
  x = c \/ exists p, In p parts /\ has_char x p.
Proof.
  induction parts as [| p parts IH]; [ contradiction | ].
  destruct parts as [| q parts].
  - cbn [String.concat]. intros Hp. right. exists p. split; [ now left | exact Hp ].
  - change (String.concat (String c EmptyString) (p :: q :: parts))
      with (p ++ String c (String.concat (String c EmptyString) (q :: parts)))%string.
    intros Hx. apply has_char_append in Hx. destruct Hx as [Hp | Hrest].
    + right. exists p. split; [ now left | exact Hp ].
    + cbn [has_char] in Hrest. destruct Hrest as [Hc | Hrest]; [ now left | ].
      destruct (IH Hrest) as [Hc | (p' & Hin & Hp')]; [ now left | ].
      right. exists p'. split; [ now right | exact Hp' ].
Qed.

Hypothesis Hc : JS.is_white_space c = false.

Lemma starts_clean_concat (row : list string) :
  (forall f, In f row -> starts_clean f = true) ->
  starts_clean (String.concat (String c EmptyString) row) = true.
Proof.
  intros Hrow. destruct row as [| f row]; [ reflexivity | ].
  destruct row as [| g row]; [ apply Hrow; now left | ].
  change (String.concat (String c EmptyString) (f :: g :: row))
    with (f ++ String c (String.concat (String c EmptyString) (g :: row)))%string.
  pose proof (Hrow f (or_introl eq_refl)) as Hf.
  destruct f as [| a f]; cbn; [ now rewrite Hc | exact Hf ].
Qed.

Lemma ends_clean_append (a b : string) :
  b <> EmptyString -> ends_clean (a ++ b) = ends_clean b.
Proof.
  intros Hb. induction a as [| x a IH]; [ reflexivity | ].
  cbn [append]. destruct (a ++ b)%string as [| y r] eqn:Hab.
  - destruct a; [ cbn in Hab; contradiction | discriminate ].
  - exact IH.
Qed.

Lemma ends_clean_concat (row : list string) :
  (forall f, In f row -> ends_clean f = true) ->
  ends_clean (String.concat (String c EmptyString) row) = true.
Proof.
  induction row as [| f row IH]; intros Hrow; [ reflexivity | ].
  destruct row as [| g row]; [ apply Hrow; now left | ].
  change (String.concat (String c EmptyString) (f :: g :: row))
    with (f ++ String c (String.concat (String c EmptyString) (g :: row)))%string.
  rewrite ends_clean_append by discriminate.
  assert (IH' := IH (fun f' Hf' => Hrow f' (or_intror Hf'))).
  destruct (String.concat (String c EmptyString) (g :: row)); [ | exact IH' ].
  cbn. now rewrite Hc.
Qed.

Lemma concat_not_blank (row : list string) :
  row <> [] -> row <> [EmptyString] ->
  String.concat (String c EmptyString) row <> EmptyString.
Proof.
  intros Hne Hone. destruct row as [| f row]; [ contradiction | ].
  destruct row as [| g row].
  - cbn. intros ->. contradiction.
  - change (String.concat (String c EmptyString) (f :: g :: row))
      with (f ++ String c (String.concat (String c EmptyString) (g :: row)))%string.
    destruct f; discriminate.
Qed.

End SplitChar.

Section ParseCsv.

Lemma filter_length_bound {A : Type} (f : A -> bool) (l : list A) :
  (List.length (filter f l) <= List.length l)%nat.
Proof.
  induction l as [| a l IH]; cbn; [ lia | ].
  destruct (f a); cbn; lia.
Qed.

Lemma filter_all {A : Type} (f : A -> bool) (l : list A) :
  (forall x, In x l -> f x = true) -> filter f l = l.
Proof.
  induction l as [| a l IH]; intros Hall; cbn; [ reflexivity | ].
  rewrite (Hall a (or_introl eq_refl)). f_equal. apply IH.
  intros x Hx. apply Hall. now right.
Qed.

Lemma map_fixed {A : Type} (f : A -> A) (l : list A) :
  (forall x, In x l -> f x = x) -> map f l = l.
Proof.
  induction l as [| a l IH]; intros Hall; cbn; [ reflexivity | ].
  rewrite (Hall a (or_introl eq_refl)). f_equal. apply IH.
  intros x Hx. apply Hall. now right.
Qed.

End ParseCsv.

(** X1. Whatever the text and the delimiter, every row [parseCSV] returns
    has at least one field, every field is trimmed, and there are at most
    as many rows as lines. *)
Theorem parseCSV_rows_trimmed (text delimiter : string) :
  (forall row, In row (App.parseCSV_rows text delimiter) ->
     row <> [] /\ forall f, In f row -> JS.trim f = f) /\
  (List.length (App.parseCSV_rows text delimiter)
   <= List.length (JS.split text App.newline))%nat.
Proof.
  unfold App.parseCSV_rows. split.
  - intros row Hrow. apply in_map_iff in Hrow. destruct Hrow as (r & <- & Hr).
    apply filter_In in Hr. destruct Hr as (_ & Hlen).
    split.
    + intros Hnil. apply map_eq_nil in Hnil. revert Hnil. apply split_nonempty.
      intros ->. discriminate Hlen.
    + intros f Hf. apply in_map_iff in Hf. destruct Hf as (g & <- & _).
      apply trim_idempotent.
  - rewrite length_map.
    etransitivity; [ apply filter_length_bound | ].
    now rewrite length_map.
Qed.

(** X2. A table whose rows are plain for a delimiter of one character
    that is not white space is read back from its text unchanged. *)
Theorem parseCSV_rows_of_text (c : ascii) (rows : list (list string))
  (Hc : JS.is_white_space c = false)
  (Hrows : forall row, In row rows -> plain_row c row) :
  App.parseCSV_rows (csv_text c rows) (String c EmptyString) = rows.
Proof.
  assert (Hlf : c <> ascii_of_nat 10) by (intros ->; discriminate Hc).
  assert (Hne : rows = [] \/ rows <> []) by (destruct rows; [ now left | now right ]).
  destruct Hne as [-> | Hne]; [ reflexivity | ].
  unfold App.parseCSV_rows, csv_text.
  set (sep := String c EmptyString).
  set (lines := map (String.concat sep) rows).
  assert (Hsplit : JS.split (String.concat App.newline lines) App.newline = lines).
  { unfold App.newline. apply split_concat.
    - unfold lines. intros Hnil. apply map_eq_nil in Hnil. contradiction.
    - intros line Hline Hhas. unfold lines in Hline.
      apply in_map_iff in Hline. destruct Hline as (row & <- & Hrow).
      destruct (Hrows row Hrow) as (_ & _ & Hf).
      apply has_char_concat in Hhas. destruct Hhas as [Heq | (f & Hin & Hhas)].
      + now apply Hlf.
      + destruct (Hf f Hin) as (_ & _ & Hnolf). now apply Hnolf. }
  assert (Htrim : map JS.trim lines = lines).
  { apply map_fixed. intros line Hline. unfold lines in Hline.
    apply in_map_iff in Hline. destruct Hline as (row & <- & Hrow).
    destruct (Hrows row Hrow) as (_ & _ & Hf).
    apply trim_fixed.
    - apply starts_clean_concat; [ exact Hc | ].
      intros f Hin. destruct (Hf f Hin) as (Ht & _). now apply trimmed_clean.
    - apply ends_clean_concat; [ exact Hc | ].
      intros f Hin. destruct (Hf f Hin) as (Ht & _). now apply trimmed_clean. }
  rewrite Hsplit, Htrim, filter_all.
  - unfold lines. rewrite map_map. apply map_fixed.
    intros row Hrow. destruct (Hrows row Hrow) as (Hrne & _ & Hf).
    unfold sep. rewrite split_concat.
    + apply map_fixed. intros f Hin. now destruct (Hf f Hin).
    + exact Hrne.
    + intros f Hin. now destruct (Hf f Hin) as (_ & Hnoc & _).
  - intros line Hline. unfold lines in Hline.
    apply in_map_iff in Hline. destruct Hline as (row & <- & Hrow).
    destruct (Hrows row Hrow) as (Hrne & Hone & _).
    pose proof (concat_not_blank c row Hrne Hone) as Hnb. fold sep in Hnb.
    destruct (String.concat sep row); [ contradiction | reflexivity ].
Qed.

Lemma parseCSV_rows_of_text_witness :
  JS.is_white_space ","%char = false /\
  (forall row, In row [["date"; "value"]; ["2024-01-01"; "12.5"]]%string ->
     plain_row ","%char row) /\
  App.parseCSV_rows
    (csv_text ","%char [["date"; "value"]; ["2024-01-01"; "12.5"]]%string) ","
  = [["date"; "value"]; ["2024-01-01"; "12.5"]]%string.
Proof.
  assert (Hrows : forall row,
            In row [["date"; "value"]; ["2024-01-01"; "12.5"]]%string ->
            plain_row ","%char row).
  { intros row [<- | [<- | []]]; (split; [ discriminate | split; [ discriminate | ] ]).
    - intros f [<- | [<- | []]]; (split; [ reflexivity | ]); split; cbn;
        intuition discriminate.
    - intros f [<- | [<- | []]]; (split; [ reflexivity | ]); split; cbn;
        intuition discriminate. }
  split; [ reflexivity | ]. split; [ exact Hrows | ].
  apply (parseCSV_rows_of_text ","%char _ eq_refl Hrows).
Defined.

(** ** The sign of a percentage error *)

Section Signs.

Lemma round_aux_sign (m e : Z) (l : location) :
  sign_clear (binary_round_aux prec emax false m e l).
Proof.
  unfold binary_round_aux.
  destruct (shr_fexp prec emax m e l) as [mrs' e'].
  destruct (shr_fexp prec emax _ e' loc_Exact) as [mrs'' e''].
  destruct (shr_m mrs'') as [| p | p]; [ reflexivity | | exact I ].
  destruct (e'' <=? emax - prec); reflexivity.
Qed.

Lemma normalize_sign (m e : Z) :
  0 <= m -> sign_clear (binary_normalize prec emax m e false).
Proof.
  intros Hm. destruct m as [| p | p]; [ reflexivity | | lia ].
  unfold binary_normalize, binary_round.
  destruct (shl_align p e _) as [mz ez]. apply round_aux_sign.
Qed.

Lemma abs_sign (x : float) : sign_clear (Prim2SF (abs x)).
Proof. rewrite abs_spec. destruct (Prim2SF x); cbn; auto. Qed.

Lemma add_sign (x y : float) :
  sign_clear (Prim2SF x) -> sign_clear (Prim2SF y) ->
  sign_clear (Prim2SF (x + y)).
Proof.
  rewrite add_spec. unfold SF64add, SFadd.
  destruct (Prim2SF x) as [sx | sx | | sx mx ex],
           (Prim2SF y) as [sy | sy | | sy my ey];
    cbn [sign_clear]; intros Hx Hy; subst; try (cbn; auto; fail).
  apply normalize_sign. unfold cond_Zopp. lia.
Qed.

Lemma div_sign (x y : float) :
  sign_clear (Prim2SF x) -> sign_clear (Prim2SF y) ->
  sign_clear (Prim2SF (x / y)).
Proof.
  rewrite div_spec. unfold SF64div, SFdiv.
  destruct (Prim2SF x) as [sx | sx | | sx mx ex],
           (Prim2SF y) as [sy | sy | | sy my ey];
    cbn [sign_clear]; intros Hx Hy; subst; cbn [xorb sign_clear]; auto.
  destruct (SFdiv_core_binary prec emax (Z.pos mx) ex (Z.pos my) ey) as [[mz ez] lz].
  apply round_aux_sign.
Qed.

Lemma mul_sign (x y : float) :
  sign_clear (Prim2SF x) -> sign_clear (Prim2SF y) ->
  sign_clear (Prim2SF (x * y)).
Proof.
  rewrite mul_spec. unfold SF64mul, SFmul.
  destruct (Prim2SF x) as [sx | sx | | sx mx ex],
           (Prim2SF y) as [sy | sy | | sy my ey];
    cbn [sign_clear]; intros Hx Hy; subst; cbn [xorb sign_clear]; auto.
  apply round_aux_sign.
Qed.

Lemma of_int_sign (n : Z) : 0 <= n -> sign_clear (Prim2SF (JS.of_int n)).
Proof.
  intros Hn. unfold JS.of_int. destruct (Z.ltb_spec n 0); [ lia | ].
  rewrite of_uint63_spec. apply normalize_sign.
  apply Uint63.to_Z_bounded.
Qed.

Lemma sum_sign (terms : list JS.number) :
  Forall (fun t => sign_clear (Prim2SF t)) terms ->
  forall acc, sign_clear (Prim2SF acc) ->
    sign_clear (Prim2SF (fold_left PrimFloat.add terms acc)).
Proof.
  induction 1 as [| t terms Ht _ IH]; intros acc Hacc; [ exact Hacc | ].
  cbn [fold_left]. apply IH. now apply add_sign.
Qed.

Lemma valid_terms_sign (actual predicted : list JS.number) :
  Forall (fun t => sign_clear (Prim2SF t)) (valid_terms actual predicted).
Proof.
  unfold valid_terms. apply Forall_forall. intros t Ht.
  apply in_map_iff in Ht. destruct Ht as ([a p] & <- & _).
  unfold relative_error. apply div_sign; apply abs_sign.
Qed.

Lemma not_below_zero (x : float) :
  sign_clear (Prim2SF x) -> (x <? 0)%float = false.
Proof.
  rewrite ltb_spec. change (Prim2SF 0) with (S754_zero false).
  destruct (Prim2SF x) as [s | s | | s m e]; cbn [sign_clear]; intros Hs;
    subst; reflexivity.
Qed.

End Signs.

(** X3. A percentage error is never below zero, for either copy of
    [computeMape] and whatever the sequences hold: it is [NaN] or its sign
    is positive. *)
Theorem computeMape_not_negative (actual predicted : list JS.number) :
  (App.computeMape actual predicted <? 0)%float = false /\
  (TimeSeriesModelTs.computeMape actual predicted <? 0)%float = false.
Proof.
  assert (Hsum : sign_clear (Prim2SF (sum_in_order (valid_terms actual predicted)))).
  { apply sum_sign; [ apply valid_terms_sign | reflexivity ]. }
  split; apply not_below_zero.
  - rewrite App_computeMape_spec. unfold percentage_error.
    destruct (_ || _); [ exact I | ].
    apply mul_sign; [ reflexivity | ].
    apply div_sign; [ exact Hsum | apply of_int_sign; lia ].
  - rewrite Model_computeMape_eq.
    destruct (_ || _); [ exact I | ].
    apply mul_sign; [ | reflexivity ].
    apply div_sign; [ exact Hsum | apply of_int_sign; lia ].
Qed.

(** X4. The two copies of [computeMape] agree whenever no actual value is
    zero: the copy of [timeSeriesModel.ts] differs from the one of
    [App.tsx] only in what it does with the indices it skips. *)
Theorem computeMape_copies_agree (actual predicted : list JS.number)
  (Hvalid : Forall (fun a => JS.strict_neq a 0%float = true) actual) :
  TimeSeriesModelTs.computeMape actual predicted
  = App.computeMape actual predicted.
Proof.
  rewrite App_computeMape_spec, Model_computeMape_eq. unfold percentage_error.
  destruct (Nat.eqb_spec (List.length actual) 0) as [H0 | H0].
  { cbn [orb]. now rewrite orb_true_r. }
  destruct (Nat.eqb_spec (List.length actual) (List.length predicted)) as [Hlen | Hlen];
    [ | reflexivity ].
  cbn [negb orb].
  assert (Hall : List.length (valid_terms actual predicted) = List.length actual).
  { unfold valid_terms. rewrite length_map.
    assert (Hfilter : forall (l1 l2 : list JS.number),
               Forall (fun a => JS.strict_neq a 0%float = true) l1 ->
               filter (fun '(a, _) => negb (a =? 0)%float) (combine l1 l2)
               = combine l1 l2).
    { induction l1 as [| a l1 IH]; intros l2 Hl1; [ reflexivity | ].
      destruct l2 as [| p l2]; [ reflexivity | ].
      inversion Hl1 as [| ? ? Ha Hrest]; subst.
      cbn [combine filter]. unfold JS.strict_neq in Ha. rewrite Ha.
      now rewrite IH. }
    rewrite Hfilter by exact Hvalid.
    rewrite length_combine. lia. }
  rewrite Hall.
  destruct (Nat.eqb_spec (List.length actual) 0); [ contradiction | ].
  apply mul_comm.
Qed.

Lemma computeMape_copies_agree_witness :
  Forall (fun a => JS.strict_neq a 0%float = true) [10; 20]%float /\
  TimeSeriesModelTs.computeMape [10; 20]%float [12; 18]%float
  = App.computeMape [10; 20]%float [12; 18]%float.
Proof.
  assert (Hvalid : Forall (fun a => JS.strict_neq a 0%float = true) [10; 20]%float)
    by (repeat constructor).
  split; [ exact Hvalid | ].
  apply (computeMape_copies_agree _ _ Hvalid).
Defined.

(** ** What the sweep retains *)

Section Retained.

Lemma choose_least (cs : list Candidate) :
  forall (acc : Choice) (c : Candidate),
    In c cs ->
    (candidateError c <? chosenError (fold_left choose cs acc))%float = false.
Proof.
  induction cs as [| c0 cs IH]; intros acc c Hc; [ contradiction | ].
  cbn [fold_left]. destruct Hc as [-> | Hc].
  - apply choose_bound. apply choose_seen.
  - now apply IH.
Qed.

Lemma choose_from_candidate (cs : list Candidate) :
  forall acc : Choice,
    fold_left choose cs acc = acc \/
    exists c, In c cs /\
      fold_left choose cs acc = (candidateError c, Some (candidateId c), fst (fst c)).
Proof.
  induction cs as [| c0 cs IH]; intros acc; [ now left | ].
  cbn [fold_left]. destruct (IH (choose acc c0)) as [Hsame | (c & Hc & Heq)].
  - rewrite Hsame. destruct c0 as [[W id] e]. unfold choose.
    destruct (e <? chosenError acc)%float; [ | now left ].
    right. exists (W, id, e). split; [ now left | reflexivity ].
  - right. exists c. split; [ now right | exact Heq ].
Qed.

(** A number that is below another is not [NaN]. *)
Lemma ltb_number (x y : JS.number) :
  (x <? y)%float = true -> JS.strict_eq x x = true.
Proof.
  unfold JS.strict_eq. rewrite ltb_spec, eqb_spec. intros Hlt.
  destruct (SFeqb (Prim2SF x) (Prim2SF x)) eqn:He; [ reflexivity | ].
  apply SFeqb_refl_false in He. rewrite He in Hlt.
  destruct (Prim2SF y); discriminate Hlt.
Qed.

End Retained.

(** X5. The sweep retains a model with the least test error: no
    configuration has an error strictly below the one retained. When a
    model is retained, its error is below [Infinity], so it is a number,
    and it is the error of the candidate with that model and that window
    size; when none is, every configuration has an error that is [NaN] or
    [Infinity], and the variables keep their initial values. *)
Theorem sweep_retains_least_error (H : Host)
  (trainData testData : list TimeSeriesData) (ws us : list Z)
  (startTime : JS.number) (w : World)
  (Hws : Forall (fun W => 1 <= W) ws) :
  let cs := candidates H trainData testData (List.length (models w))
              (configurations ws us) in
  exists v w',
    App.sweep H trainData testData ws us startTime w = (Normal v, w') /\
    (forall c, In c cs -> (candidateError c <? App.bestMape v)%float = false) /\
    match App.bestModel v with
    | Some b =>
        (App.bestMape v <? JS.Infinity)%float = true /\
        JS.strict_eq (App.bestMape v) (App.bestMape v) = true /\
        exists c, In c cs /\ candidateId c = b /\
                  candidateError c = App.bestMape v /\
                  fst (fst c) = App.bestWindowSize v
    | None =>
        App.bestMape v = JS.Infinity /\ App.bestWindowSize v = 3 /\
        forall c, In c cs -> (candidateError c <? JS.Infinity)%float = false
    end.
Proof.
  intros cs.
  destruct (sweep_run H trainData testData ws us startTime w Hws)
    as (v & w' & Hrun & Inv).
  exists v, w'. split; [ exact Hrun | ].
  destruct Inv as [_ _ _ _ Hchoice _ Inone Ibest]. fold cs in Hchoice.
  assert (Herr : App.bestMape v = chosenError (fold_left choose cs initialChoice))
    by (now rewrite <- Hchoice).
  assert (Hmod : App.bestModel v = chosenModel (fold_left choose cs initialChoice))
    by (now rewrite <- Hchoice).
  assert (Hwin : App.bestWindowSize v = snd (fold_left choose cs initialChoice))
    by (now rewrite <- Hchoice).
  split.
  { intros c Hc. rewrite Herr. now apply choose_least. }
  destruct (App.bestModel v) as [b |] eqn:Hbest.
  - destruct (Ibest b eq_refl) as (_ & _ & _ & _ & _ & Hfin & _).
    split; [ exact Hfin | ].
    split; [ exact (ltb_number _ _ Hfin) | ].
    destruct (choose_from_candidate cs initialChoice) as [Hsame | (c & Hc & Heq)].
    + rewrite Hsame in Hmod. discriminate Hmod.
    + rewrite Heq in Hmod, Herr, Hwin. cbn [chosenModel chosenError fst snd] in *.
      exists c. repeat split; congruence.
  - split; [ now apply Inone | ].
    split.
    + destruct (choose_from_candidate cs initialChoice) as [Hsame | (c & Hc & Heq)].
      * rewrite Hwin, Hsame. reflexivity.
      * rewrite Heq in Hmod. discriminate Hmod.
    + apply choose_none_iff. now rewrite <- Hmod.
Qed.

Lemma sweep_retains_least_error_witness :
  Forall (fun W => 1 <= W) [3; 5] /\
  exists v w',
    App.sweep (Reference.constant_host 100%float)
      (Reference.linear_series 0 24) (Reference.linear_series 24 6)
      [3; 5] [32; 64] 0%float (Reference.initial_world 30 5) = (Normal v, w') /\
    App.bestModel v = Some 0%nat /\
    (App.bestMape v <? 36)%float = true.
Proof.
  split; [ repeat constructor; lia | ].
  destruct (sweep_retains_least_error
              (Reference.constant_host 100%float) (Reference.linear_series 0 24)
              (Reference.linear_series 24 6) [3; 5] [32; 64] 0%float
              (Reference.initial_world 30 5))
    as (v & w' & Hrun & _).
  - repeat constructor; lia.
  - exists v, w'. split; [ exact Hrun | ].
    vm_compute in Hrun. injection Hrun as <- _. split; reflexivity.
Defined.

(** X6. [handleTrain] never releases the model it retains. On a series of
    at least 20 points the run builds and disposes models during the
    sweep only; of the models it has built exactly the winner, if there
    is one, is still held when it returns, and that model is live. The
    models that existed before the run, the winners of earlier runs among
    them, are left as they were: nothing ever disposes them. *)
Theorem handleTrain_never_releases_winner (H : Host) (w : World)
  (Hlen : 20 <= JS.length (data (app w)))
  (Hperiods : JS.strict_eq (futurePeriods (app w)) JS.Infinity = false) :
  let series := data (app w) in
  exists v w1 w' built,
    App.sweep H (trainSplit series) (testSplit series) [3; 5] [32; 64]
      (performance_now H (clock w)) (sweepStart w) = (Normal v, w1) /\
    App.handleTrain H w = (Normal tt, w') /\
    models w' = models w1 /\ events w' = events w1 /\
    events w' = events w ++ built /\
    heldAfter built = option_list (App.bestModel v) /\
    List.length (models w') = (List.length (models w) + 4)%nat /\
    (forall k, (k < List.length (models w))%nat ->
       nth_error (models w') k = nth_error (models w) k) /\
    (forall b, App.bestModel v = Some b ->
       (List.length (models w) <= b < List.length (models w'))%nat /\
       exists m, nth_error (models w') b = Some m /\ isDisposed m = false).
Proof.
  intros series.
  destruct (handleTrain_run H w Hlen)
    as (v & w1 & w' & Hsweep & Inv & Hrun & Hmodels & Hevents & _ & _ & _ & Hout).
  fold series in Hsweep, Inv, Hout.
  set (cs := candidates H (trainSplit series) (testSplit series)
               (List.length (models w)) (configurations [3; 5] [32; 64])).
  exists v, w1, w', (List.concat (sweepEvents initialChoice cs)).
  destruct Inv as [_ _ Hcount Hev Hchoice Iold _ _].
  cbn [sweepStart models events] in Hcount, Hev, Hchoice, Iold.
  fold cs in Hev, Hchoice.
  assert (Hids : map candidateId cs = seq (List.length (models w)) 4)
    by (unfold cs; now rewrite candidates_ids).
  split; [ exact Hsweep | ]. split; [ exact Hrun | ].
  split; [ exact Hmodels | ]. split; [ exact Hevents | ].
  split; [ now rewrite Hevents | ].
  split.
  { change (heldAfter (List.concat (sweepEvents initialChoice cs)))
      with (heldFrom (option_list (chosenModel initialChoice))
              (List.concat (sweepEvents initialChoice cs))).
    rewrite sweep_held.
    - change (App.bestModel v) with (chosenModel (choice_of v)). now rewrite Hchoice.
    - rewrite Hids. apply seq_NoDup.
    - intros c _. discriminate. }
  split; [ rewrite Hmodels; exact Hcount | ].
  split; [ intros k Hk; rewrite Hmodels; now apply Iold | ].
  intros b Hb. rewrite Hb in Hout.
  destruct Hout as (m & u & last & _ & _ & Hnth & Hlive & _).
  split.
  - split.
    + change (App.bestModel v) with (chosenModel (choice_of v)) in Hb.
      rewrite Hchoice in Hb. apply choose_model_from in Hb.
      destruct Hb as [Hb | Hb]; [ discriminate Hb | ].
      rewrite Hids in Hb. apply in_seq in Hb. lia.
    + apply nth_error_Some. congruence.
  - exists m. split; assumption.
Qed.

(** Two runs in a row on one host: each retains a model, and both are
    still live at the end. *)
Lemma handleTrain_never_releases_winner_witness :
  let H := Reference.constant_host 100%float in
  let w1 := snd (App.handleTrain H (Reference.initial_world 30 5)) in
  20 <= JS.length (data (app w1)) /\
  JS.strict_eq (futurePeriods (app w1)) JS.Infinity = false /\
  exists w2,
    App.handleTrain H w1 = (Normal tt, w2) /\
    heldAfter (events w2) = [0%nat; 4%nat] /\
    option_map isDisposed (nth_error (models w2) 0) = Some false /\
    option_map isDisposed (nth_error (models w2) 4) = Some false.
Proof.
  intros H w1.
  assert (Hlen : 20 <= JS.length (data (app w1))) by (vm_compute; discriminate).
  assert (Hp : JS.strict_eq (futurePeriods (app w1)) JS.Infinity = false)
    by (vm_compute; reflexivity).
  split; [ exact Hlen | ]. split; [ exact Hp | ].
  destruct (handleTrain_never_releases_winner H w1 Hlen Hp)
    as (v & w1' & w2 & built & _ & Hrun & _).
  exists w2. split; [ exact Hrun | ].
  vm_compute in Hrun. injection Hrun as <-.
  repeat split.
Defined.

(** ** The charts *)

Section Charts.

Lemma map_indexed_length {A B : Type} (f : A -> Z -> B) (l : list A) :
  forall i, List.length (App.map_indexed f l i) = List.length l.
Proof.
  induction l as [| x l IH]; intros i; cbn; [ reflexivity | now rewrite IH ].
Qed.

Lemma map_indexed_nth {A B : Type} (f : A -> Z -> B) (l : list A) :
  forall (lo : Z) (k : nat),
    nth_error (App.map_indexed f l lo) k
    = option_map (fun x => f x (lo + Z.of_nat k)) (nth_error l k).
Proof.
  induction l as [| x l IH]; intros lo k.
  - destruct k; reflexivity.
  - destruct k as [| k]; cbn [App.map_indexed nth_error option_map].
    + now rewrite Z.add_0_r.
    + rewrite IH. destruct (nth_error l k); cbn; [ | reflexivity ].
      do 2 f_equal. lia.
Qed.

Lemma map_indexed_index {A B : Type} (f : A -> Z -> B) (l : list A) (i : Z) :
  0 <= i ->
  JS.index (App.map_indexed f l 0) i = option_map (fun x => f x i) (JS.index l i).
Proof.
  intros Hi. rewrite !index_nth_error by exact Hi.
  rewrite map_indexed_nth. destruct (nth_error l (Z.to_nat i)); cbn; [ | reflexivity ].
  do 2 f_equal. lia.
Qed.

(** The loop of [testChartData] gives one point for each test point. *)
Lemma testChart_loop (preds : list JS.number) (bws : Z)
  (rest : list TimeSeriesData) :
  forall (pre : list TimeSeriesData) (acc : list App.TestChartPoint),
    JS.for_loop (List.length rest) (JS.length pre)
      (fun i testChartData =>
         match JS.index (pre ++ rest) i with
         | Some d =>
             if i <? bws then
               JS.push testChartData
                 {| App.chartDate := date d; App.real := value d;
                    App.predicted := None |}
             else
               JS.push testChartData
                 {| App.chartDate := date d; App.real := value d;
                    App.predicted := Some (JS.index preds (i - bws)) |}
         | None => testChartData
         end)
      acc
    = acc
      ++ App.map_indexed
           (fun d i =>
              {| App.chartDate := date d; App.real := value d;
                 App.predicted :=
                   if i <? bws then None else Some (JS.index preds (i - bws)) |})
           rest (JS.length pre).
Proof.
  induction rest as [| d rest IH]; intros pre acc.
  - cbn. now rewrite app_nil_r.
  - cbn [List.length JS.for_loop App.map_indexed].
    assert (Hd : JS.index (pre ++ d :: rest) (JS.length pre) = Some d).
    { rewrite index_nth_error by (unfold JS.length; lia).
      unfold JS.length. rewrite Nat2Z.id, nth_error_app2 by lia.
      now rewrite Nat.sub_diag. }
    rewrite Hd.
    replace (pre ++ d :: rest) with ((pre ++ [d]) ++ rest)
      by (now rewrite <- app_assoc).
    replace (JS.length pre + 1) with (JS.length (pre ++ [d]))
      by (unfold JS.length; rewrite length_app; cbn; lia).
    destruct (JS.length pre <? bws); unfold JS.push; rewrite IH, <- app_assoc;
      reflexivity.
Qed.

Lemma testChartData_points (s : AppState) :
  0 < JS.length (data s) -> 0 < JS.length (testPredictions s) ->
  App.testChartData s
  = App.map_indexed
      (fun d i =>
         {| App.chartDate := date d; App.real := value d;
            App.predicted :=
              if i <? JS.length (testSplit (data s)) - JS.length (testPredictions s)
              then None
              else Some (JS.index (testPredictions s)
                           (i - (JS.length (testSplit (data s))
                                 - JS.length (testPredictions s)))) |})
      (testSplit (data s)) 0.
Proof.
  intros Hdata Hpreds. unfold App.testChartData.
  destruct (Z.ltb_spec 0 (JS.length (data s))); [ | lia ].
  destruct (Z.ltb_spec 0 (JS.length (testPredictions s))); [ | lia ].
  cbn [andb]. cbv zeta.
  change (JS.slice_from (data s)
            (JS.Math_floor (JS.of_int (JS.length (data s)) * 0x1.999999999999ap-1)%float))
    with (testSplit (data s)).
  unfold JS.for_range. rewrite Z.sub_0_r. unfold JS.length at 1. rewrite Nat2Z.id.
  exact (testChart_loop (testPredictions s) _ (testSplit (data s)) [] []).
Qed.

Lemma generateFutureDates_length (H : Host) (lastDateStr : string) (n : Z) :
  JS.length (App.generateFutureDates H lastDateStr n) = Z.max 0 n.
Proof.
  unfold App.generateFutureDates.
  destruct (JS.getTime (JS.Date_of_time (Date_parse H lastDateStr)));
    unfold JS.for_range; rewrite for_loop_push; unfold JS.length;
    cbn [List.app]; rewrite length_map, zrange_length; lia.
Qed.

End Charts.

(** X7. After a run that retains a model, the chart of the test split
    has one point for each test point, with its date and its value: the
    points before the winning window size [W] carry no prediction, and
    the point of index [i], from [W] on, carries the prediction of the
    winning model from the [W] test values before [i]. The window size,
    which the rendering does not know, is recovered as the difference of
    the two lengths. After a run that retains none, the chart is empty. *)
Theorem testChartData_after_run (H : Host) (w : World)
  (Hlen : 20 <= JS.length (data (app w)))
  (Hperiods : JS.strict_eq (futurePeriods (app w)) JS.Infinity = false) :
  let series := data (app w) in
  let testValues := map value (testSplit series) in
  exists v w1 w',
    App.sweep H (trainSplit series) (testSplit series) [3; 5] [32; 64]
      (performance_now H (clock w)) (sweepStart w) = (Normal v, w1) /\
    App.handleTrain H w = (Normal tt, w') /\
    match App.bestModel v with
    | None => App.testChartData (app w') = []
    | Some b =>
        let W := App.bestWindowSize v in
        exists u,
          let m := trainedModel H b W u (trainSplit series) 1000 in
          nth_error (models w') b = Some m /\
          JS.length (App.testChartData (app w')) = JS.length (testSplit series) /\
          forall i d,
            JS.index (testSplit series) i = Some d ->
            JS.index (App.testChartData (app w')) i
            = Some {| App.chartDate := date d; App.real := value d;
                      App.predicted :=
                        if i <? W then None
                        else Some (Some (net m (window_at testValues (i - W) W))) |}
    end.
Proof.
  intros series testValues. subst testValues series.
  destruct (handleTrain_run H w Hlen)
    as (v & w1 & w' & Hsweep & _ & Hrun & _ & _ & Hdata & _ & _ & Hout).
  exists v, w1, w'. split; [ exact Hsweep | ]. split; [ exact Hrun | ].
  destruct (App.bestModel v) as [b |].
  - destruct Hout as (m & u & last & _ & Hm & Hnth & _ & HW & Hgrid
                      & Hmape & Hfin & _ & _ & Htp & _).
    cbv zeta. exists u. rewrite <- Hm, <- HW. split; [ exact Hnth | ].
    assert (Hfits : inputLength m
                    < JS.length (map value (testSplit (data (app w))))).
    { apply ranked_window_fits; [ lia | ]. rewrite <- Hmape. exact Hfin. }
    rewrite length_map_Z in Hfits.
    assert (Hpreds : JS.length (testPredictions (app w'))
                     = JS.length (testSplit (data (app w))) - inputLength m).
    { rewrite Htp, testPredictionsOf_length, length_map_Z. lia. }
    rewrite testChartData_points; rewrite ?Hdata; try lia.
    rewrite Hpreds.
    replace (JS.length (testSplit (data (app w)))
             - (JS.length (testSplit (data (app w))) - inputLength m))
      with (inputLength m) by lia.
    split.
    + unfold JS.length at 1. rewrite map_indexed_length. reflexivity.
    + intros i d Hd.
      assert (Hi : 0 <= i < JS.length (testSplit (data (app w)))).
      { unfold JS.index in Hd. destruct (Z.ltb_spec i 0); [ discriminate | ].
        split; [ lia | ].
        assert (Hsome : nth_error (testSplit (data (app w))) (Z.to_nat i) <> None)
          by congruence.
        apply nth_error_Some in Hsome. unfold JS.length. lia. }
      rewrite map_indexed_index by lia. rewrite Hd. cbn [option_map].
      destruct (Z.ltb_spec i (inputLength m)); [ reflexivity | ].
      rewrite Htp, testPredictionsOf_index by (rewrite length_map_Z; lia).
      reflexivity.
  - destruct Hout as (_ & Htp & _). unfold App.testChartData. rewrite Htp.
    cbn. now rewrite andb_false_r.
Qed.

Lemma testChartData_after_run_witness :
  20 <= JS.length (data (app (Reference.initial_world 30 5))) /\
  JS.strict_eq (futurePeriods (app (Reference.initial_world 30 5))) JS.Infinity
  = false /\
  exists w',
    App.handleTrain (Reference.constant_host 100%float) (Reference.initial_world 30 5)
    = (Normal tt, w') /\
    map App.predicted (App.testChartData (app w'))
    = [None; None; None; Some (Some 100); Some (Some 100); Some (Some 100)]%float.
Proof.
  split; [ vm_compute; discriminate | ].
  split; [ reflexivity | ].
  destruct (testChartData_after_run (Reference.constant_host 100%float)
              (Reference.initial_world 30 5))
    as (v & w1 & w' & _ & Hrun & _).
  - vm_compute. discriminate.
  - reflexivity.
  - exists w'. split; [ exact Hrun | ].
    vm_compute in Hrun. injection Hrun as <-. reflexivity.
Defined.

(** X8. After a run that retains a model there is one forecast for each
    integer from 0 below [futurePeriods] and one date for each integer
    from 1 up to [futurePeriods]. The chart of the forecasts pairs them
    when the two counts agree and are not zero, as they do for an integer
    of at least 1; for a number of periods that is not an integer the
    counts differ and the chart is empty, and so it is when no model is
    retained. *)
Theorem futureChartData_after_run (H : Host) (w : World)
  (Hlen : 20 <= JS.length (data (app w)))
  (Hperiods : JS.strict_eq (futurePeriods (app w)) JS.Infinity = false) :
  let series := data (app w) in
  let n := JS.limit_lt (futurePeriods (app w)) in
  let k := JS.limit_le (futurePeriods (app w)) in
  (forall p, 0 <= p < 2 ^ 53 ->
     JS.limit_lt (JS.of_int p) = p /\ JS.limit_le (JS.of_int p) = p) /\
  exists v w1 w',
    App.sweep H (trainSplit series) (testSplit series) [3; 5] [32; 64]
      (performance_now H (clock w)) (sweepStart w) = (Normal v, w1) /\
    App.handleTrain H w = (Normal tt, w') /\
    match App.bestModel v with
    | None => App.futureChartData (app w') = []
    | Some b =>
        JS.length (futurePredictions (app w')) = Z.max 0 n /\
        JS.length (futureDates (app w')) = Z.max 0 k /\
        (1 <= n -> k = n ->
           JS.length (App.futureChartData (app w')) = n /\
           forall i dt,
             JS.index (futureDates (app w')) i = Some dt ->
             JS.index (App.futureChartData (app w')) i
             = Some {| App.futureDate := dt;
                       App.forecast := JS.index (futurePredictions (app w')) i |}) /\
        (n <= 0 \/ k <> n -> App.futureChartData (app w') = [])
    end.
Proof.
  intros series n k. subst series.
  split; [ intros p Hp; now apply of_int_limits | ].
  destruct (handleTrain_run H w Hlen)
    as (v & w1 & w' & Hsweep & _ & Hrun & _ & _ & _ & _ & _ & Hout).
  exists v, w1, w'. split; [ exact Hsweep | ]. split; [ exact Hrun | ].
  destruct (App.bestModel v) as [b |].
  - destruct Hout as (m & u & last & _ & _ & _ & _ & _ & _ & _ & _ & _ & _ & _ & _
                      & Hfp & Hfd).
    fold n in Hfp. fold k in Hfd.
    assert (Hnf : JS.length (futurePredictions (app w')) = Z.max 0 n).
    { rewrite Hfp. unfold JS.length. rewrite autoregress_length. lia. }
    assert (Hnd : JS.length (futureDates (app w')) = Z.max 0 k).
    { rewrite Hfd. apply generateFutureDates_length. }
    split; [ exact Hnf | ]. split; [ exact Hnd | ].
    unfold App.futureChartData. rewrite Hnf, Hnd.
    split.
    + intros Hn Hk.
      destruct (Z.ltb_spec 0 (Z.max 0 n)); [ | lia ].
      destruct (Z.eqb_spec (Z.max 0 k) (Z.max 0 n)); [ | lia ].
      cbn [andb]. split.
      * unfold JS.length. rewrite map_indexed_length.
        unfold JS.length in Hnd. lia.
      * intros i dt Hdt.
        assert (Hi : 0 <= i).
        { unfold JS.index in Hdt. destruct (Z.ltb_spec i 0); [ discriminate | lia ]. }
        rewrite map_indexed_index by exact Hi. now rewrite Hdt.
    + intros [Hn | Hk].
      * destruct (Z.ltb_spec 0 (Z.max 0 n)); [ lia | reflexivity ].
      * destruct (Z.ltb_spec 0 (Z.max 0 n)); [ | reflexivity ].
        destruct (Z.eqb_spec (Z.max 0 k) (Z.max 0 n)); [ | reflexivity ].
        (* both positive and equal, so k = n *) lia.
  - destruct Hout as (_ & _ & _ & Hfp & _). unfold App.futureChartData.
    rewrite Hfp. reflexivity.
Qed.

Lemma futureChartData_after_run_witness :
  20 <= JS.length (data (app (Reference.world_asking 30 2.5%float))) /\
  JS.strict_eq (futurePeriods (app (Reference.world_asking 30 2.5%float)))
    JS.Infinity = false /\
  (exists w',
     App.handleTrain (Reference.constant_host 100%float)
       (Reference.world_asking 30 2.5%float) = (Normal tt, w') /\
     futurePredictions (app w') = [100; 100; 100]%float /\
     App.futureChartData (app w') = []) /\
  (exists w',
     App.handleTrain (Reference.constant_host 100%float)
       (Reference.initial_world 30 2) = (Normal tt, w') /\
     App.futureChartData (app w')
     = [ {| App.futureDate := "2024-01-31"; App.forecast := Some 100%float |};
         {| App.futureDate := "2024-02-01"; App.forecast := Some 100%float |} ]).
Proof.
  split; [ vm_compute; discriminate | ].
  split; [ reflexivity | ].
  split.
  - destruct (futureChartData_after_run (Reference.constant_host 100%float)
                (Reference.world_asking 30 2.5%float))
      as (_ & v & w1 & w' & _ & Hrun & _).
    + vm_compute. discriminate.
    + reflexivity.
    + exists w'. split; [ exact Hrun | ].
      vm_compute in Hrun. injection Hrun as <-. split; reflexivity.
  - eexists. split; vm_compute; reflexivity.
Defined.

(** ** Calendar days *)

Section Calendar.

Lemma for_loop_all (P : Z -> bool) (n : nat) :
  forall lo : Z,
    JS.for_loop n lo (fun i ok => ok && P i) true = true ->
    forall i, lo <= i < lo + Z.of_nat n -> P i = true.
Proof.
  assert (Hfalse : forall m lo, JS.for_loop m lo (fun i ok => ok && P i) false = false).
  { induction m as [| m IH]; intros lo; [ reflexivity | apply IH ]. }
  induction n as [| n IH]; intros lo Hall i Hi; [ lia | ].
  cbn [JS.for_loop] in Hall. cbn [andb] in Hall.
  destruct (P lo) eqn:Hlo; [ | now rewrite Hfalse in Hall ].
  destruct (Z.eq_dec i lo) as [-> | Hne]; [ exact Hlo | ].
  apply (IH (lo + 1) Hall). lia.
Qed.

Lemma era_round_trip_at (lo hi : Z) :
  era_round_trip lo hi = true ->
  forall doe, lo <= doe < hi -> doe_round_trip doe = true.
Proof.
  unfold era_round_trip, JS.for_range. intros Hall doe Hdoe.
  apply (for_loop_all doe_round_trip _ lo Hall). lia.
Qed.

Lemma era_checked : era_round_trip 0 146097 = true.
Proof. vm_compute. reflexivity. Qed.

Lemma civil_of_day_era (z : Z) :
  let era := (z + 719468) / 146097 in
  let doe := z + 719468 - era * 146097 in
  JS.civil_of_day z
  = (let '(yoe, m, d) := civil_of_doe doe in
     (if m <? 2 then yoe + era * 400 + 1 else yoe + era * 400, m, d)).
Proof. reflexivity. Qed.

Lemma day_of_month_start_era (era yoe m : Z) :
  0 <= yoe <= 399 ->
  JS.day_of_month_start
    (if m <? 2 then yoe + era * 400 + 1 else yoe + era * 400) m
  = era * 146097
    + (yoe * 365 + yoe / 4 - yoe / 100
       + (153 * (if m <? 2 then m + 10 else m - 2) + 2) / 5)
    - 719468.
Proof.
  intros Hyoe. unfold JS.day_of_month_start.
  assert (Hy : (if m <? 2
                then (if m <? 2 then yoe + era * 400 + 1 else yoe + era * 400) - 1
                else (if m <? 2 then yoe + era * 400 + 1 else yoe + era * 400))
               = yoe + era * 400)
    by (destruct (m <? 2); lia).
  rewrite Hy.
  assert (Hera : (yoe + era * 400) / 400 = era)
    by (rewrite Z.div_add by lia; rewrite Z.div_small by lia; lia).
  rewrite Hera.
  replace (yoe + era * 400 - era * 400) with yoe by lia.
  reflexivity.
Qed.

(** The fields of a day number are in range and [MakeDay] counts them
    back to the day number. *)
Lemma civil_of_day_inverse (z : Z) :
  let '(y, m, d) := JS.civil_of_day z in
  0 <= m <= 11 /\ 1 <= d <= 31 /\ JS.MakeDay y m d = z.
Proof.
  rewrite civil_of_day_era. cbv zeta.
  set (era := (z + 719468) / 146097).
  set (doe := z + 719468 - era * 146097).
  assert (Hdoe : 0 <= doe < 146097).
  { unfold doe, era.
    pose proof (Z.mod_pos_bound (z + 719468) 146097 ltac:(lia)) as Hmod.
    rewrite Z.mod_eq in Hmod by lia. lia. }
  pose proof (era_round_trip_at 0 146097 era_checked doe Hdoe) as Hcheck.
  unfold doe_round_trip in Hcheck.
  destruct (civil_of_doe doe) as [[yoe m] d].
  repeat (apply andb_prop in Hcheck; destruct Hcheck as [Hcheck ?]).
  repeat match goal with
         | H : (_ <=? _) = true |- _ => apply Z.leb_le in H
         | H : (_ =? _) = true |- _ => apply Z.eqb_eq in H
         end.
  split; [ lia | ]. split; [ lia | ].
  unfold JS.MakeDay.
  rewrite Z.div_small, Z.mod_small, Z.add_0_r by lia.
  rewrite day_of_month_start_era by lia.
  unfold doe in *. lia.
Qed.

Lemma MakeDay_offset (y m d i : Z) :
  JS.MakeDay y m (d + i) = JS.MakeDay y m d + i.
Proof. unfold JS.MakeDay. lia. Qed.

Lemma TimeClip_in_range (t : Z) :
  Z.abs t <= 8640000000000000 -> JS.TimeClip t = Some t.
Proof.
  intros Ht. unfold JS.TimeClip.
  destruct (Z.ltb_spec 8640000000000000 (Z.abs t)); [ lia | reflexivity ].
Qed.

Lemma TimeClip_Some (t t' : Z) :
  JS.TimeClip t = Some t' -> t' = t /\ Z.abs t <= 8640000000000000.
Proof.
  unfold JS.TimeClip.
  destruct (Z.ltb_spec 8640000000000000 (Z.abs t)); [ discriminate | ].
  intros Heq. injection Heq as <-. split; [ reflexivity | assumption ].
Qed.

(** [d.setDate(d.getDate() + i)] moves the date by [i] days exactly. *)
Lemma setDate_adds_days (tza t i : Z) :
  JS.setDate tza (Some t) (JS.add_int (JS.getDate tza (Some t)) (Some i))
  = JS.TimeClip (t + i * JS.msPerDay).
Proof.
  unfold JS.setDate, JS.getDate, JS.add_int, JS.local_civil. cbn [option_map].
  pose proof (civil_of_day_inverse ((t + tza) / JS.msPerDay)) as Hinv.
  destruct (JS.civil_of_day ((t + tza) / JS.msPerDay)) as [[y m] d].
  destruct Hinv as (_ & _ & Hday). cbn [snd].
  rewrite MakeDay_offset, Hday. f_equal.
  pose proof (Z.div_mod (t + tza) JS.msPerDay ltac:(discriminate)) as Hdm.
  lia.
Qed.

(** The text of a date depends on its local day only. *)
Lemma toISODate_local (tza t : Z) :
  App.toISODate tza (Some t) = iso_of_day (local_day tza t).
Proof.
  unfold iso_of_day, App.toISODate, JS.getFullYear, JS.getMonth, JS.getDate,
    JS.local_civil, local_day. cbn [option_map].
  rewrite Z.add_0_r, Z.div_mul by discriminate. reflexivity.
Qed.

Lemma local_day_later (tza t i : Z) :
  local_day tza (t + i * JS.msPerDay) = local_day tza t + i.
Proof.
  unfold local_day.
  replace (t + i * JS.msPerDay + tza) with (t + tza + i * JS.msPerDay) by lia.
  apply Z.div_add. discriminate.
Qed.

End Calendar.

(** X9. From an anchor date that the engine can read, [generateFutureDates]
    gives the dates of the days that follow one another: label [i], from
    1 to [periods], is the calendar date, in the time zone of the user,
    [i] days after the local day of the anchor time. So when the engine
    reads the anchor as midnight UTC of day [D], as it does for a text
    [YYYY-MM-DD], the first label is the day after [D] in a zone at or
    east of Greenwich, and [D] itself in a zone west of it. *)
Theorem generateFutureDates_consecutive_days (H : Host) (lastDateStr : string)
  (periods t : Z)
  (Hparse : JS.Date_of_time (Date_parse H lastDateStr) = Some t)
  (Hrange : Z.abs t + Z.max 0 periods * JS.msPerDay <= 8640000000000000) :
  App.generateFutureDates H lastDateStr periods
  = map (fun i => iso_of_day (local_day (LocalTZA H) t + i))
        (zrange 1 (Z.to_nat periods)) /\
  (forall D, t = D * JS.msPerDay ->
     (0 <= LocalTZA H < JS.msPerDay ->
        App.generateFutureDates H lastDateStr periods
        = map (fun i => iso_of_day (D + i)) (zrange 1 (Z.to_nat periods))) /\
     (- JS.msPerDay <= LocalTZA H < 0 ->
        App.generateFutureDates H lastDateStr periods
        = map (fun i => iso_of_day (D + i - 1)) (zrange 1 (Z.to_nat periods)))).
Proof.
  assert (Hmain : App.generateFutureDates H lastDateStr periods
                  = map (fun i => iso_of_day (local_day (LocalTZA H) t + i))
                        (zrange 1 (Z.to_nat periods))).
  { unfold App.generateFutureDates. rewrite Hparse. cbn [JS.getTime].
    unfold JS.for_range. rewrite for_loop_push. cbn [List.app].
    replace (Z.to_nat (periods + 1 - 1)) with (Z.to_nat periods) by (f_equal; lia).
    apply map_ext_in. intros i Hi. apply zrange_In in Hi.
    change (JS.Date_of_time (JS.getTime (Some t))) with (JS.TimeClip t).
    assert (Ht : Z.abs t <= 8640000000000000)
      by (pose proof JS.msPerDay; unfold JS.msPerDay in *; lia).
    rewrite (TimeClip_in_range t Ht), setDate_adds_days.
    rewrite TimeClip_in_range by (unfold JS.msPerDay in *; lia).
    now rewrite toISODate_local, local_day_later. }
  split; [ exact Hmain | ].
  intros D ->. split; intros Htza; rewrite Hmain; apply map_ext; intros i;
    f_equal.
  - assert (Hday : local_day (LocalTZA H) (D * JS.msPerDay) = D).
    { unfold local_day. rewrite Z.add_comm, Z.div_add by discriminate.
      rewrite Z.div_small by exact Htza. lia. }
    rewrite Hday. reflexivity.
  - assert (Hday : local_day (LocalTZA H) (D * JS.msPerDay) = D - 1).
    { unfold local_day.
      replace (D * JS.msPerDay + LocalTZA H)
        with (LocalTZA H + JS.msPerDay + (D - 1) * JS.msPerDay) by lia.
      rewrite Z.div_add by discriminate.
      rewrite Z.div_small by (unfold JS.msPerDay in *; lia). lia. }
    rewrite Hday. lia.
Qed.

Lemma generateFutureDates_consecutive_days_witness :
  let west :=
    {| LocalTZA := -18000000; Date_parse := Reference.parse_date_only;
       performance_now := fun k => JS.of_int (Z.of_nat k);
       initial_net := fun _ _ _ _ => 0%float;
       trained_net := fun _ _ _ _ _ _ _ => 0%float |} in
  JS.Date_of_time (Date_parse west "2024-03-15") = Some 1710460800000 /\
  Z.abs 1710460800000 + Z.max 0 2 * JS.msPerDay <= 8640000000000000 /\
  App.generateFutureDates west "2024-03-15" 2
  = ["2024-03-15"; "2024-03-16"]%string.
Proof.
  intros west.
  assert (Hparse : JS.Date_of_time (Date_parse west "2024-03-15")
                   = Some 1710460800000) by (vm_compute; reflexivity).
  assert (Hrange : Z.abs 1710460800000 + Z.max 0 2 * JS.msPerDay
                   <= 8640000000000000)
    by (vm_compute; intros Hc; discriminate Hc).
  split; [ exact Hparse | ]. split; [ exact Hrange | ].
  destruct (generateFutureDates_consecutive_days west "2024-03-15" 2
              1710460800000 Hparse Hrange) as (_ & Hzone).
  destruct (Hzone 19797 ltac:(vm_compute; reflexivity)) as (_ & Hwest).
  assert (Hzone_west : - JS.msPerDay <= LocalTZA west < 0)
    by (vm_compute; split; [ intros Hc; discriminate Hc | reflexivity ]).
  etransitivity; [ exact (Hwest Hzone_west) | ].
  vm_compute. reflexivity.
Defined.

(** ** The class [TimeSeriesModel] *)

Section ModelClass.

Lemma for_loopM_push2 {A B : Type} (body : Z -> list A * list B -> M (list A * list B))
  (f : Z -> A) (g : Z -> B) (w : World) (n : nat) :
  forall (lo : Z) (X : list A) (Y : list B),
    (forall i X' Y', lo <= i < lo + Z.of_nat n ->
       body i (X', Y') w = (Normal (JS.push X' (f i), JS.push Y' (g i)), w)) ->
    for_loopM n lo body (X, Y) w
    = (Normal (X ++ map f (zrange lo n), Y ++ map g (zrange lo n)), w).
Proof.
  induction n as [| n IH]; intros lo X Y Hbody.
  - simpl. now rewrite !app_nil_r.
  - rewrite zrange_S. simpl.
    rewrite (bind_normal _ _ w w (JS.push X (f lo), JS.push Y (g lo)))
      by (apply Hbody; lia).
    rewrite IH by (intros i X' Y' Hi; apply Hbody; lia).
    unfold JS.push. now rewrite <- !app_assoc.
Qed.

(** [train] builds one model, the next in the list, and trains it on the
    windows of three values; it disposes nothing. *)
Lemma train_run (H : Host) (this : TimeSeriesModelTs.TimeSeriesModel)
  (series : list TimeSeriesData) (epochs : Z) (w : World) :
  TimeSeriesModelTs.train H this series epochs w
  = (Normal {| TimeSeriesModelTs.model := Some (List.length (models w)) |},
     with_models w
       (models w ++ [trainedModel H (List.length (models w)) 3 64 series epochs])
       (events w ++ [Created (List.length (models w))])).
Proof.
  unfold TimeSeriesModelTs.train. cbv zeta.
  rewrite createSequences_same.
  pose proof (createSequences_labels (map value series) 3 ltac:(lia)) as HY.
  pose proof (createSequences_rows (map value series) 3 ltac:(lia)) as HX.
  unfold trainedModel, trainingInputs, trainingLabels.
  destruct (App.createSequences (map value series) 3) as [X Y].
  cbn [fst snd] in *. subst Y.
  rewrite (bind_normal _ _ _ _ _ (tensor3d_rows X 3 w ltac:(lia) HX)).
  rewrite (bind_normal _ _ _ _ _ (tensor2d_labels _ w)).
  rewrite (bind_normal _ _ _ _ _ (sequential_run H 64 3 w)).
  set (id := List.length (models w)).
  set (tX := {| shape := _ :: _; values := List.concat _ |}).
  set (tY := {| shape := [_; 1]; values := _ |}).
  set (m0 := {| inputLength := 3; units := 64; net := initial_net H id 3 64;
                isDisposed := false |}).
  set (w1 := with_models w (models w ++ [m0]) (events w ++ [Created id])).
  assert (Hfit : tf.fit H id tX tY epochs w1
                 = (Normal tt,
                    with_models w
                      (models w ++ [{| inputLength := 3; units := 64;
                                       net := trained_net H id 3 64 tX tY epochs;
                                       isDisposed := false |}])
                      (events w ++ [Created id]))).
  { unfold tf.fit.
    rewrite (bind_normal _ _ w1 w1 m0)
      by (apply lookup_live; [ apply nth_error_last | reflexivity ]).
    cbn [shape tX inputLength m0]. rewrite Z.eqb_refl.
    unfold bind, tf.get_world, tf.set_models, with_models, w1. cbn.
    unfold id. rewrite replace_last. reflexivity. }
  rewrite (bind_normal _ _ _ _ _ Hfit).
  reflexivity.
Qed.

(** The loop of [calculateMapeOnTraining]. *)
Lemma calculateMape_run (id : ModelId) (m : LayersModel) (w : World)
  (series : list TimeSeriesData) :
  nth_error (models w) id = Some m -> isDisposed m = false ->
  inputLength m = 3 ->
  TimeSeriesModelTs.calculateMapeOnTraining
    {| TimeSeriesModelTs.model := Some id |} series w
  = (Normal (TimeSeriesModelTs.computeMape
               (skipn 3 (map value series))
               (testPredictionsOf m (map value series))), w).
Proof.
  intros Hnth Hlive HW. unfold TimeSeriesModelTs.calculateMapeOnTraining.
  cbn [TimeSeriesModelTs.model]. cbv zeta. unfold for_rangeM.
  set (vals := map value series).
  rewrite (bind_normal _ _ w w
             ([] ++ map (fun i => net m (window_at vals (i - 3) 3))
                        (zrange 3 (Z.to_nat (JS.length vals - 3))),
              [] ++ map (fun i => App.num_at vals i)
                        (zrange 3 (Z.to_nat (JS.length vals - 3))))).
  - cbn [List.app]. unfold ret. do 2 f_equal.
    unfold testPredictionsOf. rewrite HW. f_equal.
    (* the actual values are the values from index 3 on *)
    unfold zrange. rewrite map_map.
    replace (Z.to_nat (JS.length vals - 3)) with (List.length vals - 3)%nat
      by (unfold JS.length; lia).
    transitivity (map (fun o : option JS.number =>
                         match o with Some x => x | None => JS.NaN end)
                      (map (fun k => nth_error vals (k + 3))
                           (seq 0 (List.length vals - 3)))).
    + rewrite map_map. apply map_ext. intros k. unfold App.num_at.
      rewrite index_nth_error by lia.
      replace (Z.to_nat (3 + Z.of_nat k)) with (k + 3)%nat by lia. reflexivity.
    + rewrite nth_error_from, map_map. apply map_id.
  - apply for_loopM_push2. intros i X' Y' Hi.
    assert (Hin : 3 <= i <= JS.length vals) by lia.
    rewrite slice_back by lia.
    rewrite (bind_normal _ _ _ _ _
               (tensor3d_window (window_at vals (i - 3) 3) 3 w
                  ltac:(apply window_at_length; lia) ltac:(lia))).
    pose proof (predict_run id m (window_at vals (i - 3) 3) w Hnth Hlive) as Hp.
    rewrite HW in Hp. rewrite (bind_normal _ _ _ _ _ Hp).
    reflexivity.
Qed.

End ModelClass.

(** X10. [train] then [predict] and [calculateMapeOnTraining]. On a
    series of at least 4 points, [train] on a new [TimeSeriesModel]
    completes: it builds one model, trained on the windows of three
    values with 64 units, and disposes nothing. [predict] then returns
    [periods] forecasts, each from the last three values of the series
    extended by the forecasts before it, and [calculateMapeOnTraining]
    returns the percentage error, as [computeMape] of this file has it,
    of the predictions of the model from every three consecutive values
    against the value that follows them. Neither changes anything. *)
Theorem TimeSeriesModel_train_then_use (H : Host) (series : list TimeSeriesData)
  (epochs periods : Z) (w : World)
  (Hlen : 4 <= JS.length series) (Hperiods : 0 <= periods) :
  let id := List.length (models w) in
  let m := trainedModel H id 3 64 series epochs in
  let vals := map value series in
  exists this w1,
    TimeSeriesModelTs.train H TimeSeriesModelTs.new series epochs w
    = (Normal this, w1) /\
    TimeSeriesModelTs.model this = Some id /\
    models w1 = models w ++ [m] /\ events w1 = events w ++ [Created id] /\
    (exists forecasts,
       TimeSeriesModelTs.predict this series periods w1 = (Normal forecasts, w1) /\
       JS.length forecasts = periods /\
       forall k, 0 <= k < periods ->
         JS.index forecasts k
         = Some (net m (last_n (vals ++ firstn (Z.to_nat k) forecasts) 3))) /\
    TimeSeriesModelTs.calculateMapeOnTraining this series w1
    = (Normal (TimeSeriesModelTs.computeMape
                 (skipn 3 vals)
                 (map (fun i => net m (window_at vals (i - 3) 3))
                      (zrange 3 (Z.to_nat (JS.length vals - 3))))), w1).
Proof.
  intros id m vals.
  do 2 eexists. split; [ apply train_run | ].
  split; [ reflexivity | ]. split; [ reflexivity | ]. split; [ reflexivity | ].
  set (w1 := with_models w _ _).
  assert (Hnth : nth_error (models w1) id = Some m) by apply nth_error_last.
  split.
  - eexists. split.
    + apply (model_predict_run id m w1 series periods Hnth eq_refl eq_refl). lia.
    + split.
      * unfold JS.length. rewrite autoregress_length. lia.
      * intros k Hk. apply autoregress_index; [ | exact Hk ].
        unfold vals, JS.length in *. rewrite length_map. lia.
  - exact (calculateMape_run id m w1 series Hnth eq_refl eq_refl).
Qed.

Lemma TimeSeriesModel_train_then_use_witness :
  4 <= JS.length (Reference.linear_series 0 6) /\ 0 <= 2 /\
  exists this w1,
    TimeSeriesModelTs.train (Reference.constant_host 100%float)
      TimeSeriesModelTs.new (Reference.linear_series 0 6) 10 Reference.empty_world
    = (Normal this, w1) /\
    TimeSeriesModelTs.predict this (Reference.linear_series 0 6) 2 w1
    = (Normal [100; 100]%float, w1).
Proof.
  split; [ vm_compute; intros Hc; discriminate Hc | ].
  split; [ lia | ].
  destruct (TimeSeriesModel_train_then_use (Reference.constant_host 100%float)
              (Reference.linear_series 0 6) 10 2 Reference.empty_world)
    as (this & w1 & Htrain & _).
  - vm_compute. intros Hc. discriminate Hc.
  - lia.
  - exists this, w1. split; [ exact Htrain | ].
    vm_compute in Htrain. injection Htrain as <- <-.
    vm_compute. reflexivity.
Defined.

(** X11. On a series of fewer than three points, [predict] of a trained
    model raises an error at its first step, for every number of periods
    of at least 1: the window is shorter than the shape asked of the
    tensor. With no period to predict it returns the empty list, and
    [calculateMapeOnTraining] on a series of at most three points returns
    [NaN] without a prediction. *)
Theorem TimeSeriesModel_short_series (id : ModelId) (m : LayersModel)
  (series : list TimeSeriesData) (w : World)
  (Hnth : nth_error (models w) id = Some m) (Hlive : isDisposed m = false)
  (HW : inputLength m = 3) :
  let this := {| TimeSeriesModelTs.model := Some id |} in
  (JS.length series < 3 ->
     forall periods, 1 <= periods ->
       exists msg, TimeSeriesModelTs.predict this series periods w = (Throw msg, w)) /\
  (forall periods, periods <= 0 ->
     TimeSeriesModelTs.predict this series periods w = (Normal [], w)) /\
  (JS.length series <= 3 ->
     TimeSeriesModelTs.calculateMapeOnTraining this series w = (Normal JS.NaN, w)).
Proof.
  intros this. split; [ | split ].
  - intros Hshort periods Hp.
    unfold TimeSeriesModelTs.predict, this. cbn [TimeSeriesModelTs.model]. cbv zeta.
    unfold for_rangeM. rewrite Z.sub_0_r.
    destruct (Z.to_nat periods) as [| n] eqn:Hn; [ lia | ].
    cbn [for_loopM].
    set (cw := JS.slice_from (map value series) (- (3))).
    assert (Hcw : JS.length cw <> 3).
    { unfold cw. rewrite slice_from_last by lia.
      unfold last_n, JS.length in *. rewrite length_skipn, length_map. lia. }
    destruct (tensor3d_window_mismatch cw 3 w Hcw) as (msg & Hthrow).
    exists msg.
    rewrite (bind_throw _ _ w w msg); [ reflexivity | ].
    rewrite (bind_throw _ _ w w msg); [ reflexivity | ].
    cbv zeta. rewrite (bind_throw _ _ w w msg); [ reflexivity | exact Hthrow ].
  - intros periods Hp.
    unfold TimeSeriesModelTs.predict, this. cbn [TimeSeriesModelTs.model]. cbv zeta.
    unfold for_rangeM. replace (Z.to_nat (periods - 0)) with O by lia.
    reflexivity.
  - intros Hshort. unfold this.
    rewrite (calculateMape_run id m w series Hnth Hlive HW).
    rewrite skipn_all2 by (unfold JS.length in Hshort; rewrite length_map; lia).
    reflexivity.
Qed.

Lemma TimeSeriesModel_short_series_witness :
  let w := snd (TimeSeriesModelTs.train (Reference.constant_host 100%float)
                  TimeSeriesModelTs.new (Reference.linear_series 0 6) 10
                  Reference.empty_world) in
  let m := trainedModel (Reference.constant_host 100%float) 0%nat 3 64
             (Reference.linear_series 0 6) 10 in
  nth_error (models w) 0%nat = Some m /\
  isDisposed m = false /\ inputLength m = 3 /\
  exists msg,
    TimeSeriesModelTs.predict {| TimeSeriesModelTs.model := Some 0%nat |}
      (Reference.linear_series 0 2) 1 w = (Throw msg, w).
Proof.
  intros w m.
  assert (Hnth : nth_error (models w) 0%nat = Some m)
    by (unfold w; rewrite train_run; reflexivity).
  split; [ exact Hnth | ]. split; [ reflexivity | ]. split; [ reflexivity | ].
  destruct (TimeSeriesModel_short_series 0%nat m (Reference.linear_series 0 2) w
              Hnth eq_refl eq_refl) as (Hthrow & _).
  apply Hthrow; [ vm_compute; reflexivity | lia ].
Defined.

(** ** The chronological split *)

Section Split.






End Split.


